(** * geoip-attack-map: event cache, aggregation engine and connection monitor

    A shallow embedding of the client-side ingestion code of the attack map
    dashboard, followed by the properties proved about it. The code is in
    [static/dashboard.js] (classes [AttackCache] and [AttackMapDashboard])
    and in the map script (the [Traffic] message handler, [connectWebSocket]
    and the handlers of the socket).

    Conventions of the embedding:
    - times are integers of milliseconds since the epoch ([Z]); the calls of
      [Date.now()] inside one JavaScript function are one argument [now];
    - an absent property ([undefined]) is [None]; JavaScript truthiness is
      written out ([truthyZ], [truthyS]); strings are ASCII;
    - an event object is passed by reference where the code mutates it
      ([Dashboard.objects]); the cache holds copies, as the backends
      serialise what they are given;
    - asynchronous backend calls are modelled by their effect at completion,
      and a failing backend call is not modelled;
    - the restore of the dashboard yields to the event loop between its
      batches: what runs during each wait for an animation frame is given
      as a list of callbacks ([Dashboard.runBatches]);
    - a [Traffic] message without coordinates makes [L.LatLng] throw at the
      start of the handler, so it never reaches the dashboard
      ([reachesDashboard]); coordinates are whole degrees;
    - counts are integers; the intensity of a heatmap slot is the double
      the code computes ([PrimFloat]); a time outside the range of [Date]
      has no hour ([Heatmap.getHours]);
    - the functions of a class keep their names; a loop body or a block that
      has no name in the code is introduced by a comment that quotes it;
    - DOM, chart, sound and map rendering calls and the per-country chart
      aggregate are left out: they touch none of the state described here;
    - the honeypot statistics are a map of their own ([Honeypot.Data]), kept
      apart from [Dashboard.State], as no function reads both. *)

From Stdlib Require Import ZArith Lia Ascii.
From Stdlib Require Import Floats Uint63.
From stdpp Require Import base gmap strings list pretty sorting.

Open Scope Z_scope.

(** ** JavaScript values *)

Module Js.

(** [x] used as a condition, for a number-or-undefined property. *)
Definition truthyZ (x : option Z) : bool :=
  match x with
  | Some z => negb (z =? 0)
  | None => false
  end.

(** [x] used as a condition, for a string-or-undefined property. *)
Definition truthyS (x : option string) : bool :=
  match x with
  | Some s => negb (String.eqb s "")
  | None => false
  end.

(** [a || b] on numbers. *)
Definition orZ (a b : option Z) : option Z := if truthyZ a then a else b.

(** [a || b] on strings. *)
Definition orS (a b : option string) : option string :=
  if truthyS a then a else b.

(** [l.slice(-n)]: the last [n] elements. *)
Definition sliceLast {A} (n : nat) (l : list A) : list A :=
  drop (length l - n) l.

(** Insertion of [x] in front of the first element whose key is not below
    the key of [x]. *)
Fixpoint insertBy {A} (key : A -> Z) (x : A) (l : list A) : list A :=
  match l with
  | [] => [x]
  | y :: l' => if key x <=? key y then x :: l else y :: insertBy key x l'
  end.

(** A stable ascending sort: [arr.sort((a, b) => key(a) - key(b))], and the
    order in which an IndexedDB index lists its records. *)
Definition sortBy {A} (key : A -> Z) (l : list A) : list A :=
  foldr (insertBy key) [] l.

(** A number as [Math.min] and [Math.max] return it: [NaN] as soon as one
    of the arguments is not a number. *)
Inductive Number := NaN | Num (z : Z).

(** A number-or-undefined property as an argument of [Math.min]. *)
Definition toNumber (x : option Z) : Number :=
  match x with
  | Some z => Num z
  | None => NaN
  end.

Definition minNumber (a b : Number) : Number :=
  match a, b with
  | Num x, Num y => Num (Z.min x y)
  | _, _ => NaN
  end.

Definition maxNumber (a b : Number) : Number :=
  match a, b with
  | Num x, Num y => Num (Z.max x y)
  | _, _ => NaN
  end.

(** [Math.min(x, ...xs)] and [Math.max(x, ...xs)] *)
Definition mathMin (x : Number) (xs : list Number) : Number :=
  foldl minNumber x xs.

Definition mathMax (x : Number) (xs : list Number) : Number :=
  foldl maxNumber x xs.

(** White space of [String.prototype.trim] among the ASCII characters:
    TAB, LF, VT, FF, CR and the space. *)
Definition isSpace (c : ascii) : bool :=
  let n := nat_of_ascii c in
  ((9 <=? n)%nat && (n <=? 13)%nat) || (n =? 32)%nat.

Fixpoint trimStart (s : string) : string :=
  match s with
  | EmptyString => EmptyString
  | String c s' => if isSpace c then trimStart s' else s
  end.

Fixpoint trimEnd (s : string) : string :=
  match s with
  | EmptyString => EmptyString
  | String c s' =>
      let t := trimEnd s' in
      if isSpace c && String.eqb t "" then EmptyString else String c t
  end.

(** [s.trim()] *)
Definition trim (s : string) : string := trimEnd (trimStart s).

(** A whole number as a JavaScript number, a double: exact from 0 up to
    [2^53]. *)
Definition ofInteger (z : Z) : float :=
  PrimFloat.of_uint63 (Uint63.of_Z z).

End Js.

(** ** Events *)

(** The attack event handed to the dashboard by the [Traffic] message
    handler, with the properties the cache and the aggregation code read
    and the coordinates the handler reads from the message ([src_lat],
    [src_long], [dst_lat] and [dst_long] there). Coordinates are numbers;
    the embedding takes them integer valued. *)
Record Event := mkEvent {
  ip : option string;
  source_ip : option string;
  ip_rep : option string;
  country : option string;
  country_code : option string;
  iso_code : option string;
  protocol : option string;
  honeypot : option string;
  source_lat : option Z;
  source_lng : option Z;
  destination_lat : option Z;
  destination_lng : option Z;
  timestamp : option Z;
  time : option Z;
  date : option Z;
  cached_at : option Z;
  restored : bool
}.

Definition set_timestamp (t : option Z) (e : Event) : Event :=
  mkEvent (ip e) (source_ip e) (ip_rep e) (country e) (country_code e)
    (iso_code e) (protocol e) (honeypot e) (source_lat e) (source_lng e)
    (destination_lat e) (destination_lng e)
    t (time e) (date e) (cached_at e) (restored e).

Definition set_cached_at (t : option Z) (e : Event) : Event :=
  mkEvent (ip e) (source_ip e) (ip_rep e) (country e) (country_code e)
    (iso_code e) (protocol e) (honeypot e) (source_lat e) (source_lng e)
    (destination_lat e) (destination_lng e)
    (timestamp e) (time e) (date e) t (restored e).

Definition set_restored (b : bool) (e : Event) : Event :=
  mkEvent (ip e) (source_ip e) (ip_rep e) (country e) (country_code e)
    (iso_code e) (protocol e) (honeypot e) (source_lat e) (source_lng e)
    (destination_lat e) (destination_lng e)
    (timestamp e) (time e) (date e) (cached_at e) b.

(** The time of an event as a sort and index key. *)
Definition timestampOr0 (e : Event) : Z := default 0 (timestamp e).

(** [new L.LatLng(lat, lng)] of Leaflet throws when [isNaN(lat)] or
    [isNaN(lng)]: here, when a coordinate is absent. *)
Definition isLatLng (lat lng : option Z) : bool :=
  bool_decide (is_Some lat) && bool_decide (is_Some lng).

(** Whether the handler of a [Traffic] message gets past the two calls of
    [new L.LatLng] it begins with, for the place of the source and for the
    place of the honeypot. *)
Definition reachesDashboard (msg : Event) : bool :=
  isLatLng (source_lat msg) (source_lng msg)
  && isLatLng (destination_lat msg) (destination_lng msg).

(** An event that carries a source address, a protocol and a time only. *)
Definition plainEvent (addr proto : string) (t : Z) : Event :=
  mkEvent (Some addr) (Some addr) None None None None (Some proto) None
    None None None None (Some t) None None None false.

(** ** class AttackCache *)

Module AttackCache.

Definition retentionPeriod : Z := 24 * 60 * 60 * 1000.
Definition maxEvents : nat := Z.to_nat 10000.
Definition cleanupInterval : Z := 5 * 60 * 1000.

(** The document kept under the key [tpot_attack_cache]. *)
Record CacheDoc := mkDoc {
  events : list Event;
  lastCleanup : option Z;
  version : option Z
}.

(** The two backends. [IndexedDB] holds the records of the object store
    [attacks] in the order of their auto-incremented key. *)
Inductive Backend :=
| IndexedDB (records : list Event)
| LocalStorage (doc : CacheDoc).

Definition stored (b : Backend) : list Event :=
  match b with
  | IndexedDB records => records
  | LocalStorage doc => events doc
  end.

(** The key of a record in the index [timestamp]; a record without the
    property is not in the index. *)
Definition indexKey (e : Event) : option Z := timestamp e.

(** [IDBKeyRange.lowerBound(c)]: closed at [c]. *)
Definition inLowerBound (c : Z) (e : Event) : bool :=
  match indexKey e with
  | Some t => c <=? t
  | None => false
  end.

(** [IDBKeyRange.upperBound(c)]: closed at [c]. *)
Definition inUpperBound (c : Z) (e : Event) : bool :=
  match indexKey e with
  | Some t => t <=? c
  | None => false
  end.

(** [event.timestamp && event.timestamp > cutoff] *)
Definition withinRetention (cutoff : Z) (e : Event) : bool :=
  Js.truthyZ (timestamp e) && (cutoff <? timestampOr0 e).

(** The copy built at the head of [storeEvent]. *)
Definition eventToStore (now : Z) (event : Event) : Event :=
  set_cached_at (Some now)
    (set_timestamp (Js.orZ (timestamp event) (Some now)) event).

Definition storeEventIndexedDB (event : Event) (records : list Event)
  : list Event :=
  records ++ [event].

Definition storeEventLocalStorage (event : Event) (doc : CacheDoc)
  : CacheDoc :=
  let pushed := events doc ++ [event] in
  mkDoc
    (if decide (maxEvents < length pushed)%nat
     then Js.sliceLast maxEvents pushed else pushed)
    (lastCleanup doc) (version doc).

Definition storeEvent (now : Z) (event : Event) (b : Backend) : Backend :=
  match b with
  | IndexedDB records =>
      IndexedDB (storeEventIndexedDB (eventToStore now event) records)
  | LocalStorage doc =>
      LocalStorage (storeEventLocalStorage (eventToStore now event) doc)
  end.

Definition getStoredEventsIndexedDB (now : Z) (records : list Event)
  : list Event :=
  let cutoff := now - retentionPeriod in
  Js.sortBy timestampOr0 (List.filter (inLowerBound cutoff) records).

Definition getStoredEventsLocalStorage (now : Z) (doc : CacheDoc)
  : list Event :=
  let cutoff := now - retentionPeriod in
  List.filter (withinRetention cutoff) (events doc).

Definition getStoredEvents (now : Z) (b : Backend) : list Event :=
  match b with
  | IndexedDB records => getStoredEventsIndexedDB now records
  | LocalStorage doc => getStoredEventsLocalStorage now doc
  end.

(** The cursor over [upperBound(cutoff)] deletes every record it visits. *)
Definition cleanupIndexedDB (now : Z) (records : list Event) : list Event :=
  let cutoff := now - retentionPeriod in
  List.filter (fun e => negb (inUpperBound cutoff e)) records.

Definition cleanupLocalStorage (now : Z) (doc : CacheDoc) : CacheDoc :=
  let cutoff := now - retentionPeriod in
  let kept := List.filter (withinRetention cutoff) (events doc) in
  mkDoc
    (if decide (maxEvents < length kept)%nat
     then Js.sliceLast maxEvents kept else kept)
    (Some now) (version doc).

Definition cleanup (now : Z) (b : Backend) : Backend :=
  match b with
  | IndexedDB records => IndexedDB (cleanupIndexedDB now records)
  | LocalStorage doc => LocalStorage (cleanupLocalStorage now doc)
  end.

Definition emptyCache (now : Z) : CacheDoc := mkDoc [] (Some now) (Some 1).

Definition clearCache (now : Z) (b : Backend) : Backend :=
  match b with
  | IndexedDB _ => IndexedDB []
  | LocalStorage _ => LocalStorage (emptyCache now)
  end.

(** A run of [storeEvent] calls, each with the time it is made at. *)
Definition storeAll (calls : list (Z * Event)) (b : Backend) : Backend :=
  foldl (fun acc c => storeEvent (fst c) (snd c) acc) b calls.

(** The value of [storageType] once [init] has chosen the backend. *)
Definition storageTypeOf (b : Backend) : string :=
  match b with
  | IndexedDB _ => "indexeddb"
  | LocalStorage _ => "localstorage"
  end.

(** The object [getStatistics] returns; [None] is [null]. *)
Record Statistics := mkStatistics {
  totalEvents : nat;
  storageType : string;
  oldestEvent : option Js.Number;
  newestEvent : option Js.Number;
  statisticsRetentionPeriod : Z
}.

(** [getStatistics]: [Math.min] and [Math.max] over the times of the events
    that [getStoredEvents] returns. The limit of an engine on the number of
    arguments of a call is not modelled. *)
Definition getStatistics (now : Z) (b : Backend) : Statistics :=
  let found := getStoredEvents now b in
  let times := List.map (fun e => Js.toNumber (timestamp e)) found in
  mkStatistics (length found) (storageTypeOf b)
    (match times with
     | [] => None
     | t :: rest => Some (Js.mathMin t rest)
     end)
    (match times with
     | [] => None
     | t :: rest => Some (Js.mathMax t rest)
     end)
    retentionPeriod.

End AttackCache.

(** ** Timeline buckets *)

Module Timeline.

(** [timelineInterval]: ['1m'], ['1h'], and ['24h'] (the default case). *)
Inductive Interval := I1m | I1h | I24h.

Inductive Unit := second | minute | hour.

(** A data point of [timelineData]. The label is the locale rendering of
    [timestamp] and is not kept. *)
Record Point := mkPoint {
  p_timestamp : Z;
  p_count : Z;
  p_unit : Unit
}.

Definition points (i : Interval) : nat :=
  match i with
  | I1m => 60
  | I1h => 60
  | I24h => 24
  end.

Definition getDurationForInterval (i : Interval) : Z :=
  match i with
  | I1m => 1000
  | I1h => 60 * 1000
  | I24h => 60 * 60 * 1000
  end.

Definition getUnitForInterval (i : Interval) : Unit :=
  match i with
  | I1m => second
  | I1h => minute
  | I24h => hour
  end.

(** [Math.floor(t / d) * d] *)
Definition roundDown (d t : Z) : Z := t / d * d.

(** The loop [for (let i = points - 1; i >= 0; i--)] of
    [generateTimelineData], written on the descending list of [i]. *)
Definition generateTimelineData (interval : Interval) (now : Z)
  : list Point :=
  let duration := getDurationForInterval interval in
  List.map
    (fun i : nat =>
       mkPoint (roundDown duration (now - Z.of_nat i * duration)) 0
         (getUnitForInterval interval))
    (rev (seq 0 (points interval))).

(** [attack.timestamp || attack.time || attack.date || Date.now()] *)
Definition attackTimeOf (now : Z) (attack : Event) : Z :=
  default now
    (Js.orZ (timestamp attack)
       (Js.orZ (time attack) (Js.orZ (date attack) (Some now)))).

Definition inBucket (duration attackTime : Z) (p : Point) : bool :=
  (p_timestamp p <=? attackTime) && (attackTime <? p_timestamp p + duration).

Definition bump (p : Point) : Point :=
  mkPoint (p_timestamp p) (p_count p + 1) (p_unit p).

(** The search loop: the first bucket that contains the attack is counted
    up; [None] when no bucket contains it. *)
Fixpoint addToExisting (duration attackTime : Z) (tl : list Point)
  : option (list Point) :=
  match tl with
  | [] => None
  | p :: rest =>
      if inBucket duration attackTime p then Some (bump p :: rest)
      else match addToExisting duration attackTime rest with
           | Some rest' => Some (p :: rest')
           | None => None
           end
  end.

(** [timelineData.shift(); timelineData.push(newPoint)] *)
Definition shiftPush (newPoint : Point) (tl : list Point) : list Point :=
  tail tl ++ [newPoint].

(** The loop [while (currentTime <= attackTime)]; [fuel] bounds the number
    of iterations. *)
Fixpoint addBuckets (fuel : nat) (u : Unit) (duration attackTime : Z)
    (currentTime : Z) (tl : list Point) : list Point :=
  match fuel with
  | O => tl
  | S fuel' =>
      if currentTime <=? attackTime then
        let bucketStartTime := roundDown duration currentTime in
        let isAttackBucket :=
          (bucketStartTime <=? attackTime)
          && (attackTime <? bucketStartTime + duration) in
        let newPoint :=
          mkPoint bucketStartTime (if isAttackBucket then 1 else 0) u in
        let tl' := shiftPush newPoint tl in
        if isAttackBucket then tl'
        else addBuckets fuel' u duration attackTime
               (currentTime + duration) tl'
      else tl
  end.

(** Number of iterations after which [currentTime] has passed
    [attackTime]. *)
Definition iterations (duration attackTime currentTime : Z) : nat :=
  Z.to_nat ((attackTime - currentTime) / duration + 1).

(** [addAttackToTimeline]. Reading [lastPoint.timestamp] on an empty
    [timelineData] raises in JavaScript; the timeline is left as it is in
    that case, which [generateTimelineData] never produces. *)
Definition addAttackToTimeline (interval : Interval) (now : Z)
    (attack : Event) (tl : list Point) : list Point :=
  let attackTime := attackTimeOf now attack in
  let duration := getDurationForInterval interval in
  match addToExisting duration attackTime tl with
  | Some tl' => tl'
  | None =>
      match last tl with
      | None => tl
      | Some lastPoint =>
          let lastPointEndTime := p_timestamp lastPoint + duration in
          if lastPointEndTime <=? attackTime then
            addBuckets (iterations duration attackTime lastPointEndTime)
              (getUnitForInterval interval) duration attackTime
              lastPointEndTime tl
          else tl
      end
  end.

(** [populateTimelineFromHistory]: every bucket counts the attacks of the
    history that fall into it; nothing happens on an empty history. *)
Definition populateTimelineFromHistory (interval : Interval) (now : Z)
    (history : list Event) (tl : list Point) : list Point :=
  match history with
  | [] => tl
  | _ =>
      let duration := getDurationForInterval interval in
      List.map
        (fun p =>
           mkPoint (p_timestamp p)
             (Z.of_nat
                (length
                   (List.filter
                      (fun attack =>
                         inBucket duration (attackTimeOf now attack) p)
                      history)))
             (p_unit p))
        tl
  end.

(** [changeTimelineInterval]: the new interval and its timeline. *)
Definition changeTimelineInterval (newInterval : Interval) (now : Z)
    (history : list Event) : Interval * list Point :=
  (newInterval,
   populateTimelineFromHistory newInterval now history
     (generateTimelineData newInterval now)).

(** [lastDataPoint.count = currentCount] *)
Definition setLastCount (currentCount : Z) (tl : list Point) : list Point :=
  alter (fun p => mkPoint (p_timestamp p) currentCount (p_unit p))
    (length tl - 1)%nat tl.

(** [updateTimeline], run by a timer once the chart exists. [newCount] and
    [currentCount] stand for the results of [getAttackCountForInterval] and
    [getAttackCountForCurrentInterval], which count attacks of the
    history. *)
Definition updateTimeline (interval : Interval) (now : Z)
    (newCount currentCount : Z) (tl : list Point) : list Point :=
  match last tl with
  | None => tl
  | Some lastDataPoint =>
      let duration := getDurationForInterval interval in
      let currentUnit := now / duration in
      let lastUnit := p_timestamp lastDataPoint / duration in
      if lastUnit <? currentUnit then
        let unit :=
          match head tl with
          | Some p => p_unit p
          | None => hour
          end in
        let pushed := tl ++ [mkPoint (roundDown duration now) newCount unit] in
        if (points interval <? length pushed)%nat then tail pushed
        else pushed
      else if currentCount =? p_count lastDataPoint then tl
      else setLastCount currentCount tl
  end.

(** What changes the timeline: an attack, a turn of the update timer, a
    change of interval. *)
Inductive Op :=
| Ingest (now : Z) (attack : Event)
| Tick (now newCount currentCount : Z)
| ChangeInterval (newInterval : Interval) (now : Z) (history : list Event).

Definition apply (op : Op) (st : Interval * list Point)
  : Interval * list Point :=
  match op with
  | Ingest now attack =>
      (fst st, addAttackToTimeline (fst st) now attack (snd st))
  | Tick now newCount currentCount =>
      (fst st, updateTimeline (fst st) now newCount currentCount (snd st))
  | ChangeInterval newInterval now history =>
      changeTimelineInterval newInterval now history
  end.

Definition run (ops : list Op) (st : Interval * list Point)
  : Interval * list Point :=
  foldl (fun acc op => apply op acc) st ops.

(** The interval and timeline the constructor sets up. *)
Definition initial (now : Z) : Interval * list Point :=
  (I24h, generateTimelineData I24h now).


(** Start of the first bucket and end of the last one. *)
Definition windowStart (tl : list Point) : option Z :=
  p_timestamp <$> head tl.

Definition lastEnd (duration : Z) (tl : list Point) : option Z :=
  (fun p => p_timestamp p + duration) <$> last tl.


(** The buckets follow one another without a gap from [start] on. *)
Fixpoint contiguousFrom (duration start : Z) (tl : list Point) : bool :=
  match tl with
  | [] => true
  | p :: rest =>
      (p_timestamp p =? start)
      && contiguousFrom duration (start + duration) rest
  end.

(** Every bucket starts on a multiple of [duration], at or after [lo], and
    at least one [duration] after the bucket before it. *)
Fixpoint ascendingFrom (duration lo : Z) (tl : list Point) : bool :=
  match tl with
  | [] => true
  | p :: rest =>
      (lo <=? p_timestamp p)
      && (p_timestamp p mod duration =? 0)
      && ascendingFrom duration (p_timestamp p + duration) rest
  end.

Definition ascending (duration : Z) (tl : list Point) : bool :=
  match tl with
  | [] => true
  | p :: _ => ascendingFrom duration (p_timestamp p) tl
  end.

(** No gap, and every bucket starts on a multiple of [duration]. *)
Definition contiguous (duration : Z) (tl : list Point) : bool :=
  match tl with
  | [] => true
  | p :: _ =>
      (p_timestamp p mod duration =? 0)
      && contiguousFrom duration (p_timestamp p) tl
  end.

End Timeline.

(** ** Threat heatmap *)

Module Heatmap.

(** An entry of [heatmapData]. The count of attacks is a whole number;
    the intensity is the double the code computes. *)
Record Slot := mkSlot {
  h_hour : Z;
  h_intensity : float;
  h_attacks : Z
}.

(** [Array.from({ length: 24 }, ...)] of [setupHeatmapData]. *)
Definition setupHeatmapData : list Slot :=
  List.map (fun h : nat => mkSlot (Z.of_nat h) 0%float 0) (seq 0 24).

(** [Math.max(...heatmapData.map(h => h.attacks), 1)] *)
Definition maxAttacks (hm : list Slot) : Z :=
  foldr Z.max 1 (List.map h_attacks hm).

(** [maxAttacks > 0 ? (hourData.attacks / maxAttacks) * 100 : 0], in
    double arithmetic. *)
Definition intensityOf (maxA attacks : Z) : float :=
  if 0 <? maxA
  then (Js.ofInteger attacks / Js.ofInteger maxA * 100)%float
  else 0%float.

Definition recalc (hm : list Slot) : list Slot :=
  let maxA := maxAttacks hm in
  List.map (fun s => mkSlot (h_hour s) (intensityOf maxA (h_attacks s))
                       (h_attacks s)) hm.

Definition countUp (s : Slot) : Slot :=
  mkSlot (h_hour s) (h_intensity s) (h_attacks s + 1).

(** Twenty-four slots, none with a negative count. *)
Definition wellFormed (hm : list Slot) : Prop :=
  length hm = 24%nat /\ Forall (fun s => 0 <= h_attacks s) hm.

Section LocalTime.

(** The offset of local time from UTC, in milliseconds, at a time. *)
Variable localTZA : Z -> Z.

(** The times of a [Date] lie within 100,000,000 days of the epoch. *)
Definition maxDate : Z := 8640000000000000.

(** [new Date(t).getHours()]; outside the range of [Date] it is [NaN],
    which is [None]. *)
Definition getHours (t : Z) : option Z :=
  if (- maxDate <=? t) && (t <=? maxDate)
  then Some (((t + localTZA t) / 3600000) mod 24)
  else None.

(** [hour >= 0 && hour <= 23] *)
Definition validHour (hour : option Z) : bool :=
  match hour with
  | Some h => (0 <=? h) && (h <=? 23)
  | None => false
  end.

(** [addAttackToHeatmap] *)
Definition addAttackToHeatmap (now : Z) (attack : Event)
    (hm : list Slot) : list Slot :=
  let attackTime := default now (Js.orZ (timestamp attack) (Some now)) in
  let hour := getHours attackTime in
  if validHour hour then
    recalc (alter countUp (Z.to_nat (default 0 hour)) hm)
  else hm.

(** [populateHeatmapFromHistory], for a non-empty history. *)
Definition populateHeatmapFromHistory (now : Z) (history : list Event)
    (hm : list Slot) : list Slot :=
  match history with
  | [] => hm
  | _ =>
      let reset := List.map (fun s => mkSlot (h_hour s) 0%float 0) hm in
      let last24Hours := now - 24 * 60 * 60 * 1000 in
      let recentAttacks :=
        List.filter
          (fun a => match timestamp a with
                    | Some t => last24Hours <=? t
                    | None => false
                    end) history in
      let counted :=
        foldl (fun acc a =>
                 let hour := getHours (default 0 (timestamp a)) in
                 if validHour hour
                 then alter countUp (Z.to_nat (default 0 hour)) acc
                 else acc)
          reset recentAttacks in
      recalc counted
  end.

(** A run of [addAttackToHeatmap] calls, each with the time it is made
    at. *)
Definition ingestAll (arrivals : list (Z * Event)) (hm : list Slot)
  : list Slot :=
  foldl (fun acc a => addAttackToHeatmap (fst a) (snd a) acc) hm arrivals.

End LocalTime.

End Heatmap.

(** ** class AttackMapDashboard *)

Module Dashboard.

(** *** Objects used as dictionaries

    Own string keys of an object are listed in insertion order, which
    [Object.entries] exposes: an association list, updated in place. Keys
    that name properties of [Object.prototype] are not considered. *)

Fixpoint objGet {V} (k : string) (o : list (string * V)) : option V :=
  match o with
  | [] => None
  | (k', v) :: o' => if String.eqb k k' then Some v else objGet k o'
  end.

Fixpoint objSet {V} (k : string) (v : V) (o : list (string * V))
  : list (string * V) :=
  match o with
  | [] => [(k, v)]
  | (k', v') :: o' =>
      if String.eqb k k' then (k, v) :: o' else (k', v') :: objSet k v o'
  end.

(** [String(x)] of a string-or-undefined value, as used for a key. *)
Definition keyOf (x : option string) : string := default "undefined" x.

(** *** normalizeProtocol *)

Definition isDigit (c : ascii) : bool :=
  let n := nat_of_ascii c in (48 <=? n)%nat && (n <=? 57)%nat.

(** Upper case of the ASCII letters. *)
Definition upper (c : ascii) : ascii :=
  let n := nat_of_ascii c in
  if (97 <=? n)%nat && (n <=? 122)%nat then ascii_of_nat (n - 32) else c.

Fixpoint toUpperCase (s : string) : string :=
  match s with
  | EmptyString => EmptyString
  | String c s' => String (upper c) (toUpperCase s')
  end.

Fixpoint allDigits (s : string) : bool :=
  match s with
  | EmptyString => true
  | String c s' => isDigit c && allDigits s'
  end.

(** [/^\d+$/.test(s)] *)
Definition isNumeric (s : string) : bool :=
  negb (String.eqb s "") && allDigits s.

Definition knownProtocols : list string :=
  [ "CHARGEN"; "FTP-DATA"; "FTP"; "SSH"; "TELNET"; "SMTP"; "WINS"; "DNS";
    "DHCP"; "TFTP"; "HTTP"; "DICOM"; "POP3"; "NTP"; "RPC"; "IMAP"; "SNMP";
    "LDAP"; "HTTPS"; "SMB"; "SMTPS"; "EMAIL"; "IPMI"; "IPP"; "IMAPS";
    "POP3S"; "NFS"; "SOCKS"; "SQL"; "ORACLE"; "PPTP"; "MQTT"; "SSDP";
    "IEC104"; "HL7"; "MYSQL"; "RDP"; "IPSEC"; "SIP"; "POSTGRESQL"; "ADB";
    "VNC"; "REDIS"; "IRC"; "JETDIRECT"; "ELASTICSEARCH"; "INDUSTRIAL";
    "MEMCACHED"; "MONGODB"; "SCADA" ].

Definition normalizeProtocol (protocol : option string) : string :=
  if negb (Js.truthyS protocol) then "OTHER"
  else
    let p := default "" protocol in
    if isNumeric p then "OTHER"
    else
      let protocolUpper := toUpperCase p in
      if existsb (String.eqb protocolUpper) knownProtocols
      then protocolUpper else "OTHER".

(** *** Trackers *)

(** A value of [ipStats]. *)
Record IpStats := mkIpStats {
  hits : Z;
  i_country : option string;
  lastSeen : Z;
  i_ip : option string;
  reputation : string;
  lastProtocol : string;
  countryCode : string
}.

(** A value of [countryTrackingStats]. *)
Record CountryStats := mkCountryStats {
  c_hits : Z;
  c_country : option string;
  c_lastSeen : Z;
  topProtocol : string;
  protocolCounts : list (string * Z);
  uniqueIPs : gset string;
  lastSeenIP : string;
  c_countryCode : string
}.

(** [(event && event.timestamp) ? new Date(event.timestamp) : new Date()] *)
Definition seenAt (now : Z) (event : Event) : Z :=
  if Js.truthyZ (timestamp event) then default now (timestamp event)
  else now.

(** [updateIPTracking], the later of the two methods of that name, which
    is the one the class keeps. *)
Definition updateIPTracking (now : Z) (ip country : option string)
    (event : Event) (ipStats : list (string * IpStats))
  : list (string * IpStats) :=
  let ts := seenAt now event in
  let s0 :=
    match objGet (keyOf ip) ipStats with
    | Some s => s
    | None => mkIpStats 0 country ts ip "Unknown" "Unknown" "XX"
    end in
  let codes := Js.orS (iso_code event) (country_code event) in
  objSet (keyOf ip)
    (mkIpStats
       (hits s0 + 1)
       country
       (if lastSeen s0 <=? ts then ts else lastSeen s0)
       (i_ip s0)
       (if Js.truthyS (ip_rep event) then default "" (ip_rep event)
        else reputation s0)
       (if Js.truthyS (protocol event)
        then normalizeProtocol (protocol event) else lastProtocol s0)
       (if Js.truthyS codes then default "" codes else countryCode s0))
    ipStats.

(** The loop over [Object.entries(protocolCounts)] that picks the first
    protocol with the largest count. *)
Definition pickTopProtocol (counts : list (string * Z)) : string :=
  snd (foldl (fun acc kv =>
                if fst acc <? snd kv then (snd kv, fst kv) else acc)
         (0, "Unknown"%string) counts).

Definition updateCountryTracking (now : Z) (country : option string)
    (event : Event) (stats : list (string * CountryStats))
  : list (string * CountryStats) :=
  let ts := seenAt now event in
  let s0 :=
    match objGet (keyOf country) stats with
    | Some s => s
    | None =>
        mkCountryStats 0 country ts "Unknown" [] ∅ "Unknown" "XX"
    end in
  let codes := Js.orS (iso_code event) (country_code event) in
  let counts :=
    if Js.truthyS (protocol event) then
      let n := normalizeProtocol (protocol event) in
      objSet n (default 0 (objGet n (protocolCounts s0)) + 1)
        (protocolCounts s0)
    else protocolCounts s0 in
  objSet (keyOf country)
    (mkCountryStats
       (c_hits s0 + 1)
       (c_country s0)
       (if c_lastSeen s0 <=? ts then ts else c_lastSeen s0)
       (if Js.truthyS (protocol event) then pickTopProtocol counts
        else topProtocol s0)
       counts
       (if Js.truthyS (ip event)
        then {[ default "" (ip event) ]} ∪ uniqueIPs s0 else uniqueIPs s0)
       (if Js.truthyS (ip event) then default "" (ip event)
        else lastSeenIP s0)
       (if Js.truthyS codes then default "" codes else c_countryCode s0))
    stats.

(** [updateProtocolStats], the later of the two methods of that name. *)
Definition updateProtocolStats (protocol : option string)
    (protocolStats : list (string * Z)) : list (string * Z) :=
  if negb (Js.truthyS protocol) then protocolStats
  else
    let n := normalizeProtocol protocol in
    objSet n (default 0 (objGet n protocolStats) + 1) protocolStats.

(** *** Colours, labels and the ranking of the tables *)

(** The table [colors] of [getProtocolColor]. *)
Definition colors : list (string * string) :=
  [ ("CHARGEN", "#4CAF50"); ("FTP-DATA", "#F44336"); ("FTP", "#FF5722");
    ("SSH", "#FF9800"); ("TELNET", "#FFC107"); ("SMTP", "#8BC34A");
    ("WINS", "#009688"); ("DNS", "#00BCD4"); ("DHCP", "#03A9F4");
    ("TFTP", "#2196F3"); ("HTTP", "#3F51B5"); ("DICOM", "#9C27B0");
    ("POP3", "#E91E63"); ("NTP", "#795548"); ("RPC", "#607D8B");
    ("IMAP", "#9E9E9E"); ("SNMP", "#FF6B35"); ("LDAP", "#FF8E53");
    ("HTTPS", "#0080FF"); ("SMB", "#BF00FF"); ("SMTPS", "#80FF00");
    ("EMAIL", "#00FF80"); ("IPMI", "#00FFFF"); ("IPP", "#8000FF");
    ("IMAPS", "#FF0080"); ("POP3S", "#80FF80"); ("NFS", "#FF8080");
    ("SOCKS", "#8080FF"); ("SQL", "#00FF00"); ("ORACLE", "#FFFF00");
    ("PPTP", "#FF00FF"); ("MQTT", "#00FF40"); ("SSDP", "#40FF00");
    ("IEC104", "#FF4000"); ("HL7", "#4000FF"); ("MYSQL", "#00FF00");
    ("RDP", "#FF0060"); ("IPSEC", "#60FF00"); ("SIP", "#FFCCFF");
    ("POSTGRESQL", "#00CCFF"); ("ADB", "#FFCCCC"); ("VNC", "#0000FF");
    ("REDIS", "#CC00FF"); ("IRC", "#FFCC00"); ("JETDIRECT", "#8000FF");
    ("ELASTICSEARCH", "#FF8000"); ("INDUSTRIAL", "#80FF40");
    ("MEMCACHED", "#40FF80"); ("MONGODB", "#FF4080"); ("SCADA", "#8040FF");
    ("OTHER", "#78909C") ].

(** [getProtocolColor(protocol, port)]; [port] is not used. The key that
    is looked up is in upper case, so that it names no property of
    [Object.prototype]. *)
Definition getProtocolColor (protocol : option string) : option string :=
  let protocolUpper := toUpperCase <$> protocol in
  let known := objGet (keyOf protocolUpper) colors in
  if Js.truthyS known then known else objGet "OTHER" colors.

(** [formatTimeAgo(timestamp)] of the dashboard; a [timestamp] that is
    [null], [undefined] or [NaN] is [None]. *)
Definition formatTimeAgo (now : Z) (timestamp : option Z) : string :=
  if negb (Js.truthyZ timestamp) then "unknown"
  else
    let diff := now - default 0 timestamp in
    let minutes := diff / (1000 * 60) in
    let hours := diff / (1000 * 60 * 60) in
    if 0 <? hours then pretty hours +:+ "h ago"
    else if 0 <? minutes then pretty minutes +:+ "m ago"
    else "just now".

(** [Object.values(this.ipStats).sort((a, b) => b.hits - a.hits)
     .slice(0, 100)] of [updateTopIPsTable]. *)
Definition sortedIPs (ipStats : list (string * IpStats)) : list IpStats :=
  take 100 (Js.sortBy (fun s => - hits s) (List.map snd ipStats)).

(** The same expression of [updateTopCountriesTable], over
    [countryTrackingStats]. *)
Definition sortedCountries (stats : list (string * CountryStats))
  : list CountryStats :=
  take 100 (Js.sortBy (fun s => - c_hits s) (List.map snd stats)).

(** *** Restoration of map markers *)

Definition MAX_MAP_CIRCLES : nat := 200.

(** The key of an event in [finalizeRestoration]:
    [(event.source_lat && event.source_lng) ? `${lat},${lng}`
     : (event.source_ip || event.ip)]; [None] when the key is falsy. *)
Definition locationKey (event : Event) : option string :=
  if Js.truthyZ (source_lat event) && Js.truthyZ (source_lng event) then
    Some (pretty (default 0 (source_lat event)) +:+ ","
          +:+ pretty (default 0 (source_lng event)))
  else
    let k := Js.orS (source_ip event) (ip event) in
    if Js.truthyS k then k else None.

(** One step of the backwards loop, on [(mapEvents, uniqueLocations)]. *)
Definition keepForMap (acc : list Event * gset string) (event : Event)
  : list Event * gset string :=
  match locationKey event with
  | Some key =>
      if bool_decide (size (snd acc) < MAX_MAP_CIRCLES)%nat
         || bool_decide (key ∈ snd acc)
      then (fst acc ++ [event], {[ key ]} ∪ snd acc)
      else acc
  | None => acc
  end.

(** The loop [for (let i = cachedEvents.length - 1; i >= 0; i--)], on the
    reversed list. *)
Definition scanForMap (cachedEvents : list Event)
  : list Event * gset string :=
  foldl keepForMap ([], ∅) (rev cachedEvents).

(** [mapEvents] after [mapEvents.reverse()]. *)
Definition mapEvents (cachedEvents : list Event) : list Event :=
  rev (fst (scanForMap cachedEvents)).

Definition uniqueLocations (cachedEvents : list Event) : gset string :=
  snd (scanForMap cachedEvents).

(** The test of the backwards loop for an event, given the keys kept so
    far. *)
Definition keptForMap (kept : gset string) (event : Event) : Prop :=
  exists key, locationKey event = Some key
              /\ ((size kept < MAX_MAP_CIRCLES)%nat \/ key ∈ kept).

(** Oldest first. *)
Definition chronological (a b : Event) : Prop :=
  timestampOr0 a <= timestampOr0 b.

(** *** State of the dashboard

    [objects] is the heap of event objects: an event is passed around by
    reference ([nat], its index), and [attackHistory] holds references.
    The cache holds copies. [restoredOnMap] lists the events handed to
    [window.processRestoredAttack]. Honeypot statistics, charts and tables
    are not part of the state. *)
Record State := mkState {
  objects : list Event;
  attackHistory : list nat;
  protocolStats : list (string * Z);
  ipStats : list (string * IpStats);
  countryTrackingStats : list (string * CountryStats);
  timelineInterval : Timeline.Interval;
  timelineData : list Timeline.Point;
  heatmapData : list Heatmap.Slot;
  cacheInitialized : bool;
  restoringFromCache : bool;
  attackCache : AttackCache.Backend;
  restoredOnMap : list Event
}.

Definition set_objects (x : list Event) (d : State) : State :=
  mkState x (attackHistory d) (protocolStats d) (ipStats d)
    (countryTrackingStats d) (timelineInterval d) (timelineData d)
    (heatmapData d) (cacheInitialized d) (restoringFromCache d)
    (attackCache d) (restoredOnMap d).

Definition set_attackHistory (x : list nat) (d : State) : State :=
  mkState (objects d) x (protocolStats d) (ipStats d)
    (countryTrackingStats d) (timelineInterval d) (timelineData d)
    (heatmapData d) (cacheInitialized d) (restoringFromCache d)
    (attackCache d) (restoredOnMap d).

Definition set_protocolStats (x : list (string * Z)) (d : State) : State :=
  mkState (objects d) (attackHistory d) x (ipStats d)
    (countryTrackingStats d) (timelineInterval d) (timelineData d)
    (heatmapData d) (cacheInitialized d) (restoringFromCache d)
    (attackCache d) (restoredOnMap d).

Definition set_ipStats (x : list (string * IpStats)) (d : State) : State :=
  mkState (objects d) (attackHistory d) (protocolStats d) x
    (countryTrackingStats d) (timelineInterval d) (timelineData d)
    (heatmapData d) (cacheInitialized d) (restoringFromCache d)
    (attackCache d) (restoredOnMap d).

Definition set_countryTrackingStats (x : list (string * CountryStats))
    (d : State) : State :=
  mkState (objects d) (attackHistory d) (protocolStats d) (ipStats d)
    x (timelineInterval d) (timelineData d)
    (heatmapData d) (cacheInitialized d) (restoringFromCache d)
    (attackCache d) (restoredOnMap d).

Definition set_timelineData (x : list Timeline.Point) (d : State) : State :=
  mkState (objects d) (attackHistory d) (protocolStats d) (ipStats d)
    (countryTrackingStats d) (timelineInterval d) x
    (heatmapData d) (cacheInitialized d) (restoringFromCache d)
    (attackCache d) (restoredOnMap d).

Definition set_heatmapData (x : list Heatmap.Slot) (d : State) : State :=
  mkState (objects d) (attackHistory d) (protocolStats d) (ipStats d)
    (countryTrackingStats d) (timelineInterval d) (timelineData d)
    x (cacheInitialized d) (restoringFromCache d)
    (attackCache d) (restoredOnMap d).

Definition set_restoringFromCache (x : bool) (d : State) : State :=
  mkState (objects d) (attackHistory d) (protocolStats d) (ipStats d)
    (countryTrackingStats d) (timelineInterval d) (timelineData d)
    (heatmapData d) (cacheInitialized d) x
    (attackCache d) (restoredOnMap d).

Definition set_attackCache (x : AttackCache.Backend) (d : State) : State :=
  mkState (objects d) (attackHistory d) (protocolStats d) (ipStats d)
    (countryTrackingStats d) (timelineInterval d) (timelineData d)
    (heatmapData d) (cacheInitialized d) (restoringFromCache d)
    x (restoredOnMap d).

Definition set_restoredOnMap (x : list Event) (d : State) : State :=
  mkState (objects d) (attackHistory d) (protocolStats d) (ipStats d)
    (countryTrackingStats d) (timelineInterval d) (timelineData d)
    (heatmapData d) (cacheInitialized d) (restoringFromCache d)
    (attackCache d) x.

(** The events [attackHistory] refers to. *)
Definition historyEvents (d : State) : list Event :=
  omap (fun r => objects d !! r) (attackHistory d).

(** [aggregateProtocolStats] *)
Definition aggregateProtocolStats (now : Z) (d : State) : State :=
  let retentionTime := 15 * 60 * 1000 in
  let recent :=
    List.filter
      (fun attack => match timestamp attack with
                     | Some t => now - t <? retentionTime
                     | None => false
                     end)
      (historyEvents d) in
  set_protocolStats
    (foldl (fun stats attack =>
              let n := normalizeProtocol (protocol attack) in
              objSet n (default 0 (objGet n stats) + 1) stats)
       [] recent)
    d.

(** [getAttackCountForInterval]: the attacks of the history in the step of
    the timeline that ended one step before [now]. *)
Definition getAttackCountForInterval (now : Z) (d : State) : Z :=
  let ms :=
    match timelineInterval d with
    | Timeline.I1m => (1000, 2000)
    | Timeline.I1h => (60 * 1000, 2 * 60 * 1000)
    | Timeline.I24h => (60 * 60 * 1000, 2 * 60 * 60 * 1000)
    end in
  let intervalStart := now - snd ms in
  let intervalEnd := now - fst ms in
  Z.of_nat
    (length
       (List.filter
          (fun attack => match timestamp attack with
                         | Some t => (intervalStart <? t) && (t <=? intervalEnd)
                         | None => false
                         end)
          (historyEvents d))).

(** [getAttackCountForCurrentInterval]: the attacks of the history since
    the start of the current second, minute or hour. *)
Definition getAttackCountForCurrentInterval (now : Z) (d : State) : Z :=
  let intervalStart :=
    match timelineInterval d with
    | Timeline.I1m => now / 1000 * 1000
    | Timeline.I1h => now / (60 * 1000) * (60 * 1000)
    | Timeline.I24h => now / (60 * 60 * 1000) * (60 * 60 * 1000)
    end in
  Z.of_nat
    (length
       (List.filter
          (fun attack => match timestamp attack with
                         | Some t => intervalStart <=? t
                         | None => false
                         end)
          (historyEvents d))).

(** [updateTimeline] with the two counts taken from the history. *)
Definition updateTimeline (now : Z) (d : State) : State :=
  set_timelineData
    (Timeline.updateTimeline (timelineInterval d) now
       (getAttackCountForInterval now d)
       (getAttackCountForCurrentInterval now d) (timelineData d)) d.

(** [optimizeMemoryUsage]: what it does to the history. *)
Definition optimizeMemoryUsage (d : State) : State :=
  if decide (AttackCache.maxEvents < length (attackHistory d))%nat
  then set_attackHistory
         (Js.sliceLast AttackCache.maxEvents (attackHistory d)) d
  else d.

(** [clearCache] of the dashboard, for the answer [confirmed] to its
    dialog: the cache, the trackers, the protocol histogram and the history
    are emptied and the timeline is generated anew. *)
Definition clearCache (confirmed : bool) (now : Z) (d : State) : State :=
  if negb confirmed then d
  else
    let d :=
      set_attackCache (AttackCache.clearCache now (attackCache d)) d in
    let d := set_ipStats [] d in
    let d := set_countryTrackingStats [] d in
    let d := set_protocolStats [] d in
    let d := set_attackHistory [] d in
    set_timelineData
      (Timeline.generateTimelineData (timelineInterval d) now) d.

Section WithLocalTime.

Variable localTZA : Z -> Z.

Definition addAttackToTimeline (now : Z) (attack : Event) (d : State)
  : State :=
  set_timelineData
    (Timeline.addAttackToTimeline (timelineInterval d) now attack
       (timelineData d)) d.

Definition addAttackToHeatmap (now : Z) (attack : Event) (d : State)
  : State :=
  set_heatmapData
    (Heatmap.addAttackToHeatmap localTZA now attack (heatmapData d)) d.

(** [updateLiveAttackDisplay] *)
Definition updateLiveAttackDisplay (now : Z) (event : Event) (d : State)
  : State :=
  let d :=
    set_ipStats
      (updateIPTracking now (ip event) (country event) event (ipStats d))
      d in
  let d :=
    set_countryTrackingStats
      (updateCountryTracking now (country event) event
         (countryTrackingStats d)) d in
  set_protocolStats
    (updateProtocolStats (protocol event) (protocolStats d)) d.

(** [if (attackHistory.length > 1000) attackHistory.shift()] *)
Definition limitHistory (history : list nat) : list nat :=
  if (1000 <? length history)%nat then tail history else history.

(** [addAttackEvent(event)], called at time [now] on the object [r]. The
    copy for the cache is made, if at all, before the function returns. *)
Definition addAttackEvent (now : Z) (r : nat) (d : State) : State :=
  match objects d !! r with
  | None => d
  | Some before =>
      let event := set_timestamp (Some now) before in
      let d := set_objects (<[r := event]> (objects d)) d in
      let d := set_attackHistory (attackHistory d ++ [r]) d in
      let d :=
        set_attackCache
          (if cacheInitialized d && negb (restoringFromCache d)
           then AttackCache.storeEvent now event (attackCache d)
           else attackCache d) d in
      let d := addAttackToTimeline now event d in
      let d := addAttackToHeatmap now event d in
      let d := set_attackHistory (limitHistory (attackHistory d)) d in
      updateLiveAttackDisplay now event d
  end.

(** [processAttackForDashboard(attackData)]: a copy of the object joins
    the history. *)
Definition processAttackForDashboard (now : Z) (r : nat) (d : State)
  : State :=
  match objects d !! r with
  | None => d
  | Some attackData =>
      let copy :=
        set_timestamp (Js.orZ (timestamp attackData) (Some now))
          attackData in
      let d' := set_objects (objects d ++ [copy]) d in
      let pushed := attackHistory d ++ [length (objects d)] in
      set_attackHistory
        (if decide (AttackCache.maxEvents < length pushed)%nat
         then Js.sliceLast AttackCache.maxEvents pushed else pushed) d'
  end.

(** The [Traffic] message handler, as far as the dashboard goes. It
    begins with [new L.LatLng(msg.src_lat, msg.src_long)] and
    [new L.LatLng(msg.dst_lat, msg.dst_long)], which throw when a
    coordinate is not a number: the handler then ends there, and
    [onmessage] catches the error. Otherwise the object literal
    [attackData], with [timestamp: Date.now()], is created of the message
    and handed to [addAttackEvent] and [processAttackForDashboard]. [msg]
    gives the message by the properties that [attackData] gets of it. *)
Definition Traffic (now : Z) (msg : Event) (d : State) : State :=
  if negb (reachesDashboard msg) then d
  else
    let r := length (objects d) in
    let d := set_objects (objects d ++ [set_timestamp (Some now) msg]) d in
    processAttackForDashboard now r (addAttackEvent now r d).

(** The body of the [for] loop of [processBatch]. *)
Definition replayEvent (now : Z) (d : State) (event : Event) : State :=
  let d := addAttackToTimeline now event d in
  let d := addAttackToHeatmap now event d in
  let d :=
    set_ipStats
      (updateIPTracking now (Js.orS (ip event) (source_ip event))
         (country event) event (ipStats d)) d in
  let d :=
    set_countryTrackingStats
      (updateCountryTracking now (country event) event
         (countryTrackingStats d)) d in
  set_protocolStats
    (updateProtocolStats (protocol event) (protocolStats d)) d.

(** One iteration of that loop on [cachedEvents[i]], the object [r]. *)
Definition replayObject (now : Z) (d : State) (r : nat) : State :=
  match objects d !! r with
  | Some event => replayEvent now d event
  | None => d
  end.

(** The objects that a list of references names. *)
Definition deref (d : State) (refs : list nat) : list Event :=
  omap (fun r => objects d !! r) refs.

(** [finalizeRestoration] *)
Definition finalizeRestoration (now : Z) (cachedEvents : list Event)
    (d : State) : State :=
  let d :=
    set_restoredOnMap (restoredOnMap d ++ mapEvents cachedEvents) d in
  let d := aggregateProtocolStats now d in
  set_restoringFromCache false d.

Definition BATCH_SIZE : nat := 500.

(** One run of [processBatch] from [processedCount], over the objects of
    [cachedEvents]: the new count and the state. *)
Definition processBatch (now : Z) (cachedEvents : list nat)
    (processedCount : nat) (d : State) : nat * State :=
  let end_ := Nat.min (processedCount + BATCH_SIZE) (length cachedEvents) in
  (end_,
   foldl (replayObject now) d
     (take (end_ - processedCount) (drop processedCount cachedEvents))).

(** [populateTimelineFromHistory] and [populateHeatmapFromHistory] on the
    history of the dashboard. *)
Definition populateTimelineFromHistory (now : Z) (d : State) : State :=
  set_timelineData
    (Timeline.populateTimelineFromHistory (timelineInterval d) now
       (historyEvents d) (timelineData d)) d.

Definition populateHeatmapFromHistory (now : Z) (d : State) : State :=
  set_heatmapData
    (Heatmap.populateHeatmapFromHistory localTZA now (historyEvents d)
       (heatmapData d)) d.

(** What the page can run while a restore waits for its next animation
    frame: the handler of a [Traffic] message; the callback that
    [initCharts] delays by 250 ms, which fills the timeline and the heatmap
    from the history; the timer of the timeline; the timer of the
    aggregation; the cleanup timer of the cache. *)
Inductive Callback :=
| Message (now : Z) (msg : Event)
| DelayedPopulate (now : Z)
| TimelineTimer (now : Z)
| AggregationTimer (now : Z)
| CleanupTimer (now : Z).

Definition call (c : Callback) (d : State) : State :=
  match c with
  | Message now msg => Traffic now msg d
  | DelayedPopulate now =>
      populateHeatmapFromHistory now (populateTimelineFromHistory now d)
  | TimelineTimer now => updateTimeline now d
  | AggregationTimer now => aggregateProtocolStats now d
  | CleanupTimer now =>
      set_attackCache (AttackCache.cleanup now (attackCache d)) d
  end.

Definition callbacks (cs : list Callback) (d : State) : State :=
  foldl (fun acc c => call c acc) d cs.

(** [processBatch] at [now], rescheduled through [requestAnimationFrame]
    until all events are processed, then [finalizeRestoration]. Each
    element of [frames] is one wait for an animation frame: the callbacks
    that run during it and the time at which the frame comes. When [frames]
    ends before the events do, the restore is left waiting for a frame. *)
Fixpoint runBatches (now : Z) (cachedEvents : list nat)
    (processedCount : nat) (frames : list (list Callback * Z)) (d : State)
  : State :=
  let pd := processBatch now cachedEvents processedCount d in
  if (fst pd <? length cachedEvents)%nat
  then
    match frames with
    | [] => snd pd
    | frame :: frames' =>
        runBatches (snd frame) cachedEvents (fst pd) frames'
          (callbacks (fst frame) (snd pd))
    end
  else finalizeRestoration now (deref (snd pd) cachedEvents) (snd pd).

(** The events read from the cache, sorted oldest first. *)
Definition cachedSorted (now : Z) (d : State) : list Event :=
  Js.sortBy timestampOr0 (AttackCache.getStoredEvents now (attackCache d)).

(** The head of [restoreFromCache]: the flag is set, the events are read
    as new objects and sorted, and copies of them marked [restored] become
    the history. The two reads of the cache are awaited; they are taken
    here at their completion, so that what the page runs meanwhile has run
    before. *)
Definition beginRestore (now : Z) (d : State) : State :=
  let d := set_restoringFromCache true d in
  let cachedEvents := cachedSorted now d in
  match cachedEvents with
  | [] => d
  | _ =>
      let base := (length (objects d) + length cachedEvents)%nat in
      let d :=
        set_objects
          (objects d ++ cachedEvents
           ++ List.map (set_restored true) cachedEvents) d in
      set_attackHistory (seq base (length cachedEvents)) d
  end.

(** [restoreFromCache] at [now], with the animation frames [frames] for its
    batches after the first. *)
Definition restoreFromCache (now : Z) (frames : list (list Callback * Z))
    (d : State) : State :=
  let cachedEvents := cachedSorted now d in
  let base := length (objects d) in
  let d := beginRestore now d in
  match cachedEvents with
  | [] => set_restoringFromCache false d
  | _ => runBatches now (seq base (length cachedEvents)) 0 frames d
  end.

(** The trackers and histograms the aggregation keeps. *)
Definition aggregates (d : State) :=
  (ipStats d, countryTrackingStats d, timelineData d, heatmapData d,
   protocolStats d).

(** The dashboard once [init] has set up the cache, before any restore:
    empty trackers, the timeline of the day view and an empty heatmap. *)
Definition initial (now : Z) (cache : AttackCache.Backend) : State :=
  mkState [] [] [] [] [] Timeline.I24h
    (Timeline.generateTimelineData Timeline.I24h now)
    Heatmap.setupHeatmapData true false cache [].

(** Live ingestion of a list of events through the message handler, each
    at the time it carries. *)
Definition ingestLive (events : list Event) (d : State) : State :=
  foldl (fun acc e => Traffic (timestampOr0 e) e acc) d events.

(** [addAttackEvent] called with each event of a list as a new object, at
    the time the event carries. *)
Definition ingestEach (events : list Event) (d : State) : State :=
  foldl (fun acc e =>
           addAttackEvent (timestampOr0 e) (length (objects acc))
             (set_objects (objects acc ++ [e]) acc))
    d events.

(** The replay loop alone, over all the events. *)
Definition replayAll (now : Z) (events : list Event) (d : State) : State :=
  foldl (replayEvent now) d events.

(** What can run on the dashboard, one after the other, while or after a
    restore: a [Traffic] message, one iteration of the replay loop, the end
    of the restore in [finalizeRestoration], its end when the cache was
    empty or could not be read, its start, the cleanup timer of the cache
    and the timer of the aggregation. *)
Inductive Op :=
| LiveEvent (now : Z) (msg : Event)
| Replay (now : Z) (event : Event)
| Finalize (now : Z) (cachedEvents : list Event)
| RestoreEmpty
| BeginRestore (now : Z)
| Cleanup (now : Z)
| Aggregate (now : Z).

Definition apply (op : Op) (d : State) : State :=
  match op with
  | LiveEvent now msg => Traffic now msg d
  | Replay now event => replayEvent now d event
  | Finalize now cachedEvents => finalizeRestoration now cachedEvents d
  | RestoreEmpty => set_restoringFromCache false d
  | BeginRestore now => beginRestore now d
  | Cleanup now => set_attackCache (AttackCache.cleanup now (attackCache d)) d
  | Aggregate now => aggregateProtocolStats now d
  end.

Definition run (ops : list Op) (d : State) : State :=
  foldl (fun acc op => apply op acc) d ops.

(** The copies handed to the cache during a run: one for each [Traffic]
    message that reaches the dashboard while the cache is initialised and
    no restore is under way. *)
Fixpoint written (ops : list Op) (d : State) : list Event :=
  match ops with
  | [] => []
  | op :: ops' =>
      match op with
      | LiveEvent now msg =>
          if reachesDashboard msg
             && (cacheInitialized d && negb (restoringFromCache d))
          then [AttackCache.eventToStore now (set_timestamp (Some now) msg)]
          else []
      | _ => []
      end ++ written ops' (apply op d)
  end.

End WithLocalTime.

End Dashboard.

(** ** Honeypot statistics *)

Module Honeypot.

(** [honeypotStats.retention] *)
Definition retention : Z := 15 * 60 * 1000.

(** [honeypotStats.data], a [Map] from the name of a honeypot to the times
    of its attacks: its entries in insertion order. [Map.set] on a key that
    is present keeps its place, as [Dashboard.objSet] does. *)
Definition Data := list (string * list Z).

(** [Map.delete] *)
Definition mapDelete (k : string) (data : Data) : Data :=
  List.filter (fun kv => negb (String.eqb k (fst kv))) data.

(** [cleanupHoneypotData(honeypot, cutoff)] *)
Definition cleanupHoneypotData (now : Z) (honeypot : string)
    (cutoff : option Z) (data : Data) : Data :=
  let cutoff :=
    if Js.truthyZ cutoff then default 0 cutoff else now - retention in
  match Dashboard.objGet honeypot data with
  | None => data
  | Some timestamps =>
      let filtered := List.filter (fun ts => cutoff <? ts) timestamps in
      match filtered with
      | [] => mapDelete honeypot data
      | _ => Dashboard.objSet honeypot filtered data
      end
  end.

(** [trackHoneypotAttack(honeypot, timestamp)]; an absent [timestamp]
    ([undefined], as for an argument left out) is [Date.now()]. *)
Definition trackHoneypotAttack (now : Z) (honeypot : option string)
    (timestamp : option Z) (data : Data) : Data :=
  if negb (Js.truthyS honeypot) then data
  else
    let honeypot := Js.trim (default "" honeypot) in
    let timestamp := default now timestamp in
    let data :=
      match Dashboard.objGet honeypot data with
      | Some _ => data
      | None => Dashboard.objSet honeypot [] data
      end in
    let data :=
      Dashboard.objSet honeypot
        (default [] (Dashboard.objGet honeypot data) ++ [timestamp]) data in
    cleanupHoneypotData now honeypot None data.

(** [cleanupOldHoneypotData]: the loop over the entries of the map. *)
Definition cleanupOldHoneypotData (now : Z) (data : Data) : Data :=
  let cutoff := now - retention in
  foldl (fun acc honeypot =>
           cleanupHoneypotData now honeypot (Some cutoff) acc)
    data (List.map fst data).

(** [getHoneypotStats] *)
Definition getHoneypotStats (data : Data) : list (string * Z) :=
  foldl (fun stats kv =>
           Dashboard.objSet (fst kv) (Z.of_nat (length (snd kv))) stats)
    [] data.

(** What the callers do to the statistics.

    [addAttackEvent], after [event.timestamp = Date.now()]:
    [if (event.honeypot) this.trackHoneypotAttack(event.honeypot,
    event.timestamp)]. *)
Definition addAttackEvent (now : Z) (event : Event) (data : Data) : Data :=
  if Js.truthyS (honeypot event)
  then trackHoneypotAttack now (honeypot event) (Some now) data
  else data.

(** [processAttackForDashboard]:
    [if (attackData.honeypot) this.trackHoneypotAttack(attackData.honeypot,
    attackData.timestamp || Date.now())]. *)
Definition processAttackForDashboard (now : Z) (attackData : Event)
    (data : Data) : Data :=
  if Js.truthyS (honeypot attackData)
  then trackHoneypotAttack now (honeypot attackData)
         (Js.orZ (timestamp attackData) (Some now)) data
  else data.

(** The [Traffic] message handler: both calls, on the one object, when
    the message has the coordinates without which the handler throws before
    it comes to them. *)
Definition Traffic (now : Z) (msg : Event) (data : Data) : Data :=
  if negb (reachesDashboard msg) then data
  else
    let attackData := set_timestamp (Some now) msg in
    processAttackForDashboard now (set_timestamp (Some now) attackData)
      (addAttackEvent now attackData data).

(** The replay loop of [restoreFromCache]:
    [if (event.honeypot) this.trackHoneypotAttack(event.honeypot,
    event.timestamp, false)]. *)
Definition replayEvent (now : Z) (data : Data) (event : Event) : Data :=
  if Js.truthyS (honeypot event)
  then trackHoneypotAttack now (honeypot event) (timestamp event) data
  else data.

(** What changes the statistics: a [Traffic] message, a replayed event,
    the cleanup timer, and [honeypotStats.data.clear()] in [clearCache]. *)
Inductive Op :=
| Live (now : Z) (msg : Event)
| Replay (now : Z) (event : Event)
| CleanupOld (now : Z)
| Clear.

Definition apply (op : Op) (data : Data) : Data :=
  match op with
  | Live now msg => Traffic now msg data
  | Replay now event => replayEvent now data event
  | CleanupOld now => cleanupOldHoneypotData now data
  | Clear => []
  end.

Definition run (ops : list Op) (data : Data) : Data :=
  foldl (fun acc op => apply op acc) data ops.

End Honeypot.

(** ** The map script *)

Module MapScript.

(** The table [colors] of the function [getProtocolColor] of the map
    script. *)
Definition colors : list (string * string) :=
  [ ("CHARGEN", "#4CAF50"); ("FTP-DATA", "#F44336"); ("FTP", "#FF5722");
    ("SSH", "#FF9800"); ("TELNET", "#FFC107"); ("SMTP", "#8BC34A");
    ("WINS", "#009688"); ("DNS", "#00BCD4"); ("DHCP", "#03A9F4");
    ("TFTP", "#2196F3"); ("HTTP", "#3F51B5"); ("DICOM", "#9C27B0");
    ("POP3", "#E91E63"); ("NTP", "#795548"); ("RPC", "#607D8B");
    ("IMAP", "#9E9E9E"); ("SNMP", "#FF6B35"); ("LDAP", "#FF8E53");
    ("HTTPS", "#0080FF"); ("SMB", "#BF00FF"); ("SMTPS", "#80FF00");
    ("EMAIL", "#00FF80"); ("IPMI", "#00FFFF"); ("IPP", "#8000FF");
    ("IMAPS", "#FF0080"); ("POP3S", "#80FF80"); ("NFS", "#FF8080");
    ("SOCKS", "#8080FF"); ("SQL", "#00FF00"); ("ORACLE", "#FFFF00");
    ("PPTP", "#FF00FF"); ("MQTT", "#00FF40"); ("SSDP", "#40FF00");
    ("IEC104", "#FF4000"); ("HL7", "#4000FF"); ("MYSQL", "#00FF00");
    ("RDP", "#FF0060"); ("IPSEC", "#60FF00"); ("SIP", "#FFCCFF");
    ("POSTGRESQL", "#00CCFF"); ("ADB", "#FFCCCC"); ("VNC", "#0000FF");
    ("REDIS", "#CC00FF"); ("IRC", "#FFCC00"); ("JETDIRECT", "#8000FF");
    ("ELASTICSEARCH", "#FF8000"); ("INDUSTRIAL", "#80FF40");
    ("MEMCACHED", "#40FF80"); ("MONGODB", "#FF4080"); ("SCADA", "#8040FF");
    ("OTHER", "#78909C") ].

Definition knownProtocols : list string :=
  [ "CHARGEN"; "FTP-DATA"; "FTP"; "SSH"; "TELNET"; "SMTP"; "WINS"; "DNS";
    "DHCP"; "TFTP"; "HTTP"; "DICOM"; "POP3"; "NTP"; "RPC"; "IMAP"; "SNMP";
    "LDAP"; "HTTPS"; "SMB"; "SMTPS"; "EMAIL"; "IPMI"; "IPP"; "IMAPS";
    "POP3S"; "NFS"; "SOCKS"; "SQL"; "ORACLE"; "PPTP"; "MQTT"; "SSDP";
    "IEC104"; "HL7"; "MYSQL"; "RDP"; "IPSEC"; "SIP"; "POSTGRESQL"; "ADB";
    "VNC"; "REDIS"; "IRC"; "JETDIRECT"; "ELASTICSEARCH"; "INDUSTRIAL";
    "MEMCACHED"; "MONGODB"; "SCADA" ].

(** The function [normalizeProtocol] local to [getProtocolColor]. *)
Definition normalizeProtocol (protocol : option string) : string :=
  if negb (Js.truthyS protocol) then "OTHER"
  else
    let p := default "" protocol in
    if Dashboard.isNumeric p then "OTHER"
    else
      let protocolUpper := Dashboard.toUpperCase p in
      if existsb (String.eqb protocolUpper) knownProtocols
      then protocolUpper else "OTHER".

(** [getProtocolColor(protocol)]:
    [colors[normalizedProtocol] || colors['OTHER']]. *)
Definition getProtocolColor (protocol : option string) : option string :=
  let normalizedProtocol := normalizeProtocol protocol in
  Js.orS (Dashboard.objGet normalizedProtocol colors)
    (Dashboard.objGet "OTHER" colors).

(** [srcKey] of the [Traffic] handler, the key of the circle of an
    attacker: [srcLatLng.lat + "," + srcLatLng.lng], for a message with
    its coordinates. *)
Definition srcKey (msg : Event) : string :=
  pretty (default 0 (source_lat msg)) +:+ ","
  +:+ pretty (default 0 (source_lng msg)).

(** [formatTimeAgo(date)] of the popups; an invalid or absent [date] is
    [None], and the difference to it is [NaN]. *)
Definition formatTimeAgo (now : Z) (date : option Z) : string :=
  match date with
  | None => "NaNd ago"
  | Some t =>
      let diffMs := now - t in
      let diffMins := diffMs / 60000 in
      let diffHours := diffMins / 60 in
      let diffDays := diffHours / 24 in
      if diffMins <? 1 then "Just now"
      else if diffMins <? 60 then pretty diffMins +:+ "m ago"
      else if diffHours <? 24 then pretty diffHours +:+ "h ago"
      else pretty diffDays +:+ "d ago"
  end.

End MapScript.

(** ** Connection status and reconnection *)

Module Connection.

(** [WebSocket.readyState] *)
Inductive ReadyState := CONNECTING | OPEN | CLOSING | CLOSED.

(** The values of [connectionStatus]. *)
Inductive Status := connecting | connected | idle | disconnected.

Global Instance ReadyState_eq_dec : EqDecision ReadyState.
Proof. solve_decision. Defined.

Global Instance Status_eq_dec : EqDecision Status.
Proof. solve_decision. Defined.

Definition IDLE_THRESHOLD : Z := 30000.
Definition reconnectDelay : Z := 60000.

(** The globals of the map script and the connection status of the
    dashboard. [sockets] lists every [WebSocket] created so far, oldest
    first: [window.webSocket] is the last one. [timers] lists the delays of
    the reconnection timeouts that have not fired yet. [statusElements]
    tells whether the page has the elements [status-indicator] and
    [status-text]. *)
Record Net := mkNet {
  sockets : list ReadyState;
  isReconnecting : bool;
  reconnectAttempts : Z;
  timers : list Z;
  webSocketConnected : bool;
  lastValidDataTime : option Z;
  connectionStatus : Status;
  statusElements : bool
}.

Definition set_sockets (x : list ReadyState) (n : Net) : Net :=
  mkNet x (isReconnecting n) (reconnectAttempts n) (timers n)
    (webSocketConnected n) (lastValidDataTime n) (connectionStatus n)
    (statusElements n).

Definition set_isReconnecting (x : bool) (n : Net) : Net :=
  mkNet (sockets n) x (reconnectAttempts n) (timers n)
    (webSocketConnected n) (lastValidDataTime n) (connectionStatus n)
    (statusElements n).

Definition set_reconnectAttempts (x : Z) (n : Net) : Net :=
  mkNet (sockets n) (isReconnecting n) x (timers n)
    (webSocketConnected n) (lastValidDataTime n) (connectionStatus n)
    (statusElements n).

Definition set_timers (x : list Z) (n : Net) : Net :=
  mkNet (sockets n) (isReconnecting n) (reconnectAttempts n) x
    (webSocketConnected n) (lastValidDataTime n) (connectionStatus n)
    (statusElements n).

Definition set_webSocketConnected (x : bool) (n : Net) : Net :=
  mkNet (sockets n) (isReconnecting n) (reconnectAttempts n) (timers n)
    x (lastValidDataTime n) (connectionStatus n) (statusElements n).

Definition set_lastValidDataTime (x : option Z) (n : Net) : Net :=
  mkNet (sockets n) (isReconnecting n) (reconnectAttempts n) (timers n)
    (webSocketConnected n) x (connectionStatus n) (statusElements n).

Definition set_connectionStatus (x : Status) (n : Net) : Net :=
  mkNet (sockets n) (isReconnecting n) (reconnectAttempts n) (timers n)
    (webSocketConnected n) (lastValidDataTime n) x (statusElements n).

(** [window.webSocket] *)
Definition webSocket (n : Net) : option ReadyState := last (sockets n).

(** [updateConnectionStatus(status)] *)
Definition updateConnectionStatus (status : Status) (n : Net) : Net :=
  if decide (connectionStatus n = status) then n
  else if statusElements n then set_connectionStatus status n
  else n.

(** The status [syncConnectionStatus] hands to [updateConnectionStatus]. *)
Definition polledStatus (now : Z) (n : Net) : Status :=
  match webSocket n with
  | None => disconnected
  | Some CONNECTING => connecting
  | Some CLOSING => disconnected
  | Some CLOSED => disconnected
  | Some OPEN =>
      let lastMsgTime := default 0 (Js.orZ (lastValidDataTime n) (Some 0)) in
      let timeSinceLastMsg := now - lastMsgTime in
      if timeSinceLastMsg <? IDLE_THRESHOLD then connected else idle
  end.

(** [syncConnectionStatus], run every 2 seconds. *)
Definition syncConnectionStatus (now : Z) (n : Net) : Net :=
  updateConnectionStatus (polledStatus now n) n.

(** [socket.close()] as the browser performs it. *)
Definition close (s : ReadyState) : ReadyState :=
  match s with
  | CONNECTING => CLOSING
  | OPEN => CLOSING
  | CLOSING => CLOSING
  | CLOSED => CLOSED
  end.

(** [connectWebSocket] *)
Definition connectWebSocket (n : Net) : Net :=
  if isReconnecting n then n
  else
    let closed := alter close (length (sockets n) - 1)%nat (sockets n) in
    let n := set_sockets closed n in
    let n := set_isReconnecting true n in
    let n := updateConnectionStatus connecting n in
    set_sockets (sockets n ++ [CONNECTING]) n.

(** [webSocket.onopen] *)
Definition onopen (now : Z) (n : Net) : Net :=
  let n := set_isReconnecting false n in
  let n := set_reconnectAttempts 0 n in
  let n := set_lastValidDataTime (Some now) n in
  let n := set_webSocketConnected true n in
  updateConnectionStatus connected n.

(** [webSocket.onclose], for the close code [code]. *)
Definition onclose (code : Z) (n : Net) : Net :=
  let n := set_webSocketConnected false n in
  let n := updateConnectionStatus disconnected n in
  if negb (code =? 1000) then set_timers (timers n ++ [reconnectDelay]) n
  else set_isReconnecting false n.

(** [webSocket.onerror] *)
Definition onerror (n : Net) : Net := updateConnectionStatus disconnected n.

(** The callback given to [setTimeout] in [onclose]. *)
Definition reconnectCallback (n : Net) : Net :=
  let n := set_reconnectAttempts (reconnectAttempts n + 1) n in
  let n := set_isReconnecting false n in
  connectWebSocket n.

(** [checkConnectionHealth] *)
Definition checkConnectionHealth (n : Net) : bool * Net :=
  match webSocket n with
  | Some OPEN => (true, n)
  | _ => (false, updateConnectionStatus disconnected n)
  end.

(** The [visibilitychange] handler when the page becomes visible. *)
Definition onVisible (n : Net) : Net :=
  let hn := checkConnectionHealth n in
  if fst hn then snd hn
  else connectWebSocket (set_isReconnecting false (snd hn)).

(** The state when the scripts are loaded, before [DOMContentLoaded]. *)
Definition initial (now : Z) (elements : bool) : Net :=
  mkNet [] false 0 [] false (Some now) connecting elements.

(** One turn of the event loop: the browser changes a socket and runs its
    handler or reports an error on it, a pending timeout fires, the page becomes visible, the poll
    runs, or a [Traffic] message arrives. *)
Inductive step : Net -> Net -> Prop :=
| step_open i now n :
    sockets n !! i = Some CONNECTING ->
    step n (onopen now (set_sockets (<[i := OPEN]> (sockets n)) n))
| step_close i st code n :
    sockets n !! i = Some st -> st <> CLOSED ->
    step n (onclose code (set_sockets (<[i := CLOSED]> (sockets n)) n))
| step_error i st n :
    sockets n !! i = Some st ->
    step n (onerror n)
| step_timer i t n :
    timers n !! i = Some t ->
    step n (reconnectCallback (set_timers (delete i (timers n)) n))
| step_visible n :
    step n (onVisible n)
| step_poll now n :
    step n (syncConnectionStatus now n)
| step_traffic now n :
    step n (set_lastValidDataTime (Some now) n).

(** The states of a page: [connectWebSocket] runs on [DOMContentLoaded],
    then the event loop turns. *)
Inductive reachable : Net -> Prop :=
| reach_load now elements :
    reachable (connectWebSocket (initial now elements))
| reach_step n n' :
    reachable n -> step n n' -> reachable n'.

(** Number of sockets whose connection attempt is under way. *)
Definition attemptsInFlight (n : Net) : nat :=
  length (List.filter (fun s => bool_decide (s = CONNECTING)) (sockets n)).

Definition closingOrClosed (s : ReadyState) : Prop :=
  s = CLOSING \/ s = CLOSED.

(** Every socket but the newest is closing or closed. *)
Definition superseded (l : list ReadyState) : Prop :=
  forall (i : nat) (s : ReadyState),
    l !! i = Some s -> (S i < length l)%nat -> closingOrClosed s.

End Connection.

(** ** Scenarios *)

Module Scenario.

(** A time of day in 2023, in milliseconds. *)
Definition t0 : Z := 1700000000000.

(** [n] calls of [storeEvent], one millisecond apart from [t0] on, each with
    an event created at the time of its call. *)
Definition burst (n : nat) : list (Z * Event) :=
  List.map
    (fun i : nat =>
       (t0 + Z.of_nat i,
        plainEvent "198.51.100.7" "SSH" (t0 + Z.of_nat i)))
    (seq 0 n).

(** An event stored exactly one retention period before [now]. *)
Definition boundaryEvent (now : Z) : Event :=
  set_cached_at (Some (now - AttackCache.retentionPeriod))
    (plainEvent "198.51.100.7" "SSH" (now - AttackCache.retentionPeriod)).

(** An event from the address [i], at the time [t0 + i]. *)
Definition fromAddress (i : nat) : Event :=
  plainEvent (pretty i) "SSH" (t0 + Z.of_nat i).

(** An event located on the equator, at latitude 0 and longitude 10, from
    the address that [fromAddress 1] has. *)
Definition onEquator : Event :=
  mkEvent (Some "1") (Some "1") None None None None (Some "SSH") None
    (Some 0) (Some 10) (Some 50) (Some 8) (Some t0) None None None false.

(** Local time is UTC. *)
Definition utc (t : Z) : Z := 0.

(** The event with the place of its source at [lat], [lng], and with the
    honeypot at 50, 8, as a [Traffic] message carries them. *)
Definition located (lat lng : Z) (e : Event) : Event :=
  mkEvent (ip e) (source_ip e) (ip_rep e) (country e) (country_code e)
    (iso_code e) (protocol e) (honeypot e) (Some lat) (Some lng)
    (Some 50) (Some 8) (timestamp e) (time e) (date e) (cached_at e)
    (restored e).

(** An attack that arrives at [t0], and one that arrives a minute later
    from another address. *)
Definition attack : Event :=
  located 52 13 (plainEvent "198.51.100.7" "SSH" t0).

Definition other : Event :=
  located 48 2 (plainEvent "203.0.113.9" "HTTP" (t0 + 60000)).

(** A dashboard in the middle of a restore, with [attack] just created by
    the message handler. *)
Definition restoring : Dashboard.State :=
  Dashboard.set_restoringFromCache true
    (Dashboard.set_objects [attack]
       (Dashboard.initial t0 (AttackCache.IndexedDB []))).

(** A dashboard that starts with the two attacks in its cache, stored when
    they arrived. *)
Definition reloaded (now : Z) : Dashboard.State :=
  Dashboard.initial now
    (AttackCache.storeAll [(t0, attack); (t0 + 60000, other)]
       (AttackCache.LocalStorage (AttackCache.emptyCache t0))).

End Scenario.

(** ** Summaries the properties are stated with *)

Section Summaries.

Import Dashboard.

(** The sum of a measure over the values of an object. *)
Definition total {V : Type} (m : V -> Z) (o : list (string * V)) : Z :=
  foldr (fun kv acc => m (snd kv) + acc) 0 o.

(** An object updated under the key of an element [e]: the new value is
    made from [e] and the value the key had. *)
Definition keyed {V E : Type} (key : E -> string) (g : E -> option V -> V)
    (o : list (string * V)) (e : E) : list (string * V) :=
  objSet (key e) (g e (objGet (key e) o)) o.

(** The events that count for the protocol [n]. *)
Definition withProtocol (n : string) (e : Event) : bool :=
  Js.truthyS (protocol e) && String.eqb (normalizeProtocol (protocol e)) n.

(** The key of an event in the address tracker during the replay. *)
Definition addressOf (e : Event) : string :=
  keyOf (Js.orS (ip e) (source_ip e)).

(** What the entry of a key records of the events of that key. *)
Definition tracksAddress (now : Z) (mine : list Event) (s : IpStats)
  : Prop :=
  hits s = Z.of_nat (length mine)
  /\ Forall (fun e => seenAt now e <= lastSeen s) mine
  /\ Exists (fun e => lastSeen s = seenAt now e) mine
  /\ (exists e, last mine = Some e /\ i_country s = country e)
  /\ (exists e, head mine = Some e
                /\ i_ip s = Js.orS (ip e) (source_ip e)).

(** The addresses of the events that carry one in [ip]. *)
Definition addressesOf (mine : list Event) : gset string :=
  list_to_set (omap (fun e => if Js.truthyS (ip e) then ip e else None) mine).

(** What the entry of a country records of the events of that country. *)
Definition tracksCountry (mine : list Event) (s : CountryStats) : Prop :=
  c_hits s = Z.of_nat (length mine)
  /\ protocolCounts s
     = foldl (fun o e => updateProtocolStats (protocol e) o) [] mine
  /\ topProtocol s = pickTopProtocol (protocolCounts s)
  /\ uniqueIPs s = addressesOf mine.

(** [top] is the ranking of [all] by [hitsOf]: at most a hundred of them,
    largest first; what is left out has no more hits than anything listed;
    and entries with the same hits keep the order they have in [all]. *)
Definition ranking {A} (hitsOf : A -> Z) (all top : list A) : Prop :=
  length top = Nat.min 100 (length all)
  /\ StronglySorted (fun a b => hitsOf b <= hitsOf a) top
  /\ (exists rest,
        top ++ rest ≡ₚ all
        /\ Forall (fun r => Forall (fun t => hitsOf r <= hitsOf t) top) rest)
  /\ (forall h,
        List.filter (fun s => hitsOf s =? h) top
          `prefix_of` List.filter (fun s => hitsOf s =? h) all).

(** The number of attacks the timeline counts. *)
Definition totalCount (tl : list Timeline.Point) : Z :=
  foldr (fun p acc => Timeline.p_count p + acc) 0 tl.

(** The number of attacks the heatmap counts. *)
Definition totalAttacks (hm : list Heatmap.Slot) : Z :=
  foldr (fun s acc => Heatmap.h_attacks s + acc) 0 hm.

(** The heatmap with its counts reset. *)
Definition resetCounts (hm : list Heatmap.Slot) : list Heatmap.Slot :=
  List.map (fun s => Heatmap.mkSlot (Heatmap.h_hour s) 0%float 0) hm.

(** [attack.timestamp >= last24Hours] *)
Definition inLast24Hours (now : Z) (attack : Event) : bool :=
  match timestamp attack with
  | Some t => now - 24 * 60 * 60 * 1000 <=? t
  | None => false
  end.

(** The attacks whose time is a valid [Date]. *)
Definition validDate (attack : Event) : bool :=
  match timestamp attack with
  | Some t => (- Heatmap.maxDate <=? t) && (t <=? Heatmap.maxDate)
  | None => false
  end.

(** Every honeypot of the map is there once, with at least one attack. *)
Definition tidy (data : Honeypot.Data) : Prop :=
  NoDup (List.map fst data) /\ Forall (fun kv => snd kv <> []) data.

(** The times after the cutoff of the honeypot statistics at [now]. *)
Definition recentAt (now : Z) (timestamps : list Z) : list Z :=
  List.filter (fun ts => now - Honeypot.retention <? ts) timestamps.

End Summaries.

(** * Properties *)

(** ** The event cache *)

Section CacheProperties.

Import AttackCache.

Lemma insertBy_Permutation {A} (key : A -> Z) (x : A) (l : list A) :
  Js.insertBy key x l ≡ₚ x :: l.
Proof.
  induction l as [|y l IH]; simpl; [done|].
  destruct (key x <=? key y); [done|].
  rewrite IH. apply Permutation_swap.
Qed.

Lemma sortBy_Permutation {A} (key : A -> Z) (l : list A) :
  Js.sortBy key l ≡ₚ l.
Proof.
  induction l as [|x l IH]; simpl; [done|].
  unfold Js.sortBy in IH. rewrite insertBy_Permutation. by rewrite IH.
Qed.

Lemma elem_of_sortBy {A} (key : A -> Z) (l : list A) (x : A) :
  x ∈ Js.sortBy key l <-> x ∈ l.
Proof. by rewrite sortBy_Permutation. Qed.

Lemma elem_of_filter_bool {A} (f : A -> bool) (l : list A) (x : A) :
  x ∈ List.filter f l <-> x ∈ l /\ f x = true.
Proof. rewrite !list_elem_of_In. apply filter_In. Qed.

Lemma length_sliceLast {A} (n : nat) (l : list A) :
  (length (Js.sliceLast n l) <= n)%nat.
Proof. unfold Js.sliceLast. rewrite length_drop. lia. Qed.

Lemma sliceLast_suffix {A} (n : nat) (l : list A) :
  l = take (length l - n) l ++ Js.sliceLast n l.
Proof. unfold Js.sliceLast. by rewrite take_drop. Qed.

Lemma withinRetention_spec (cutoff : Z) (e : Event) :
  withinRetention cutoff e = true
  <-> exists t, timestamp e = Some t /\ t <> 0 /\ cutoff < t.
Proof.
  unfold withinRetention, Js.truthyZ, timestampOr0.
  destruct (timestamp e) as [t|]; simpl.
  - rewrite andb_true_iff, negb_true_iff, Z.eqb_neq, Z.ltb_lt.
    split.
    + intros [? ?]. by exists t.
    + intros (t' & [= <-] & ? & ?). done.
  - split; [done|]. by intros (t' & ? & _).
Qed.

(** What the fallback backend returns: the stored events whose time is
    truthy and strictly after the cutoff. *)
Lemma getStoredEventsLocalStorage_spec (now : Z) (doc : CacheDoc) (e : Event) :
  e ∈ getStoredEventsLocalStorage now doc
  <-> e ∈ events doc
      /\ exists t, timestamp e = Some t /\ t <> 0 /\ now - retentionPeriod < t.
Proof.
  unfold getStoredEventsLocalStorage.
  by rewrite elem_of_filter_bool, withinRetention_spec.
Qed.

(** What the indexed backend returns: the stored events whose time is at or
    after the cutoff. *)
Lemma getStoredEventsIndexedDB_spec (now : Z) (records : list Event)
    (e : Event) :
  e ∈ getStoredEventsIndexedDB now records
  <-> e ∈ records
      /\ exists t, timestamp e = Some t /\ now - retentionPeriod <= t.
Proof.
  unfold getStoredEventsIndexedDB.
  rewrite elem_of_sortBy, elem_of_filter_bool.
  unfold inLowerBound, indexKey.
  destruct (timestamp e) as [t|].
  - rewrite Z.leb_le. split.
    + intros [? ?]. split; [done|]. by exists t.
    + intros [? (t' & [= <-] & ?)]. done.
  - split; [by intros [_ ?]|]. by intros [_ (t' & ? & _)].
Qed.

(** After [cleanupLocalStorage] every event left is inside the retention
    window. *)
Lemma cleanupLocalStorage_retention (now : Z) (doc : CacheDoc) (e : Event) :
  e ∈ events (cleanupLocalStorage now doc) ->
  exists t, timestamp e = Some t /\ now - retentionPeriod < t.
Proof.
  unfold cleanupLocalStorage; simpl. intros He.
  assert (e ∈ List.filter (withinRetention (now - retentionPeriod))
                (events doc)) as Hin.
  { destruct (decide _); [|done].
    unfold Js.sliceLast in He. by apply subseteq_drop in He. }
  apply elem_of_filter_bool in Hin as [_ Hin].
  apply withinRetention_spec in Hin as (t & ? & _ & ?). by exists t.
Qed.

(** After [cleanupLocalStorage] at most [maxEvents] events are left, and
    they are the most recently stored of the retained ones. *)
Lemma cleanupLocalStorage_cap (now : Z) (doc : CacheDoc) :
  (length (events (cleanupLocalStorage now doc)) <= maxEvents)%nat
  /\ exists oldest,
       List.filter (withinRetention (now - retentionPeriod)) (events doc)
       = oldest ++ events (cleanupLocalStorage now doc).
Proof.
  unfold cleanupLocalStorage; simpl.
  destruct (decide _) as [Hlt|Hge].
  - split; [apply length_sliceLast|].
    eexists. apply sliceLast_suffix.
  - split; [lia|]. by exists [].
Qed.

(** After [cleanupIndexedDB] no record left has a time at or before the
    cutoff. *)
Lemma cleanupIndexedDB_retention (now : Z) (records : list Event)
    (e : Event) (t : Z) :
  e ∈ cleanupIndexedDB now records ->
  timestamp e = Some t -> now - retentionPeriod < t.
Proof.
  unfold cleanupIndexedDB. rewrite elem_of_filter_bool.
  unfold inUpperBound, indexKey. intros [_ H] Ht. rewrite Ht in H.
  apply negb_true_iff, Z.leb_gt in H. lia.
Qed.

(** [cleanupIndexedDB] deletes by time only: records inside the retention
    window all stay, however many they are. *)
Lemma cleanupIndexedDB_keeps_recent (now : Z) (records : list Event) :
  Forall (fun e => exists t, timestamp e = Some t
                             /\ now - retentionPeriod < t) records ->
  cleanupIndexedDB now records = records.
Proof.
  unfold cleanupIndexedDB. induction 1 as [|e l (t & Ht & Hlt) _ IH]; [done|].
  simpl. unfold inUpperBound at 1, indexKey. rewrite Ht.
  destruct (Z.leb_spec t (now - retentionPeriod)); [lia|]. simpl.
  by rewrite IH.
Qed.

End CacheProperties.

(** ** The timeline *)

Section TimelineProperties.

Import Timeline.

Lemma duration_pos (i : Interval) : 0 < getDurationForInterval i.
Proof. by destruct i. Qed.








Lemma length_generateTimelineData (i : Interval) (now : Z) :
  length (generateTimelineData i now) = points i.
Proof.
  unfold generateTimelineData. by rewrite length_map, length_rev, length_seq.
Qed.

(** *** The new buckets *)







(** *** Buckets without gaps *)







Lemma contiguousFrom_last (d s : Z) (l : list Point) (lp : Point) :
  contiguousFrom d s l = true -> last l = Some lp ->
  p_timestamp lp + d = s + Z.of_nat (length l) * d.
Proof.
  revert s. induction l as [|p l IH]; intros s H Hl; [done|].
  simpl in H. apply andb_true_iff in H as [Hp H]. apply Z.eqb_eq in Hp.
  destruct l as [|q l].
  - injection Hl as <-. simpl. lia.
  - change (last (p :: q :: l)) with (last (q :: l)) in Hl.
    rewrite (IH _ H Hl). simpl length. lia.
Qed.

Lemma contiguous_from (d s : Z) (l : list Point) :
  s mod d = 0 -> contiguousFrom d s l = true -> contiguous d l = true.
Proof.
  intros Hs H. destruct l as [|p l]; [done|]. unfold contiguous.
  pose proof H as H'. simpl in H'. apply andb_true_iff in H' as [Hp _].
  apply Z.eqb_eq in Hp. rewrite Hp.
  apply andb_true_iff. split; [by apply Z.eqb_eq|exact H].
Qed.

Lemma contiguous_inv (d : Z) (p : Point) (l : list Point) :
  contiguous d (p :: l) = true ->
  p_timestamp p mod d = 0 /\ contiguousFrom d (p_timestamp p) (p :: l) = true.
Proof.
  unfold contiguous. intros [H1 H2]%andb_true_iff. by apply Z.eqb_eq in H1.
Qed.




(** *** Buckets in ascending order *)
















Lemma roundDown_shift (d now : Z) (j : nat) :
  0 < d -> roundDown d (now - Z.of_nat j * d) = roundDown d now - Z.of_nat j * d.
Proof.
  intros Hd. unfold roundDown.
  replace (now - Z.of_nat j * d) with (now + (- Z.of_nat j) * d) by lia.
  rewrite Z.div_add by lia. lia.
Qed.

Lemma contiguous_generateTimelineData (i : Interval) (now : Z) :
  contiguous (getDurationForInterval i) (generateTimelineData i now) = true.
Proof.
  pose proof (duration_pos i) as Hd. unfold generateTimelineData.
  set (d := getDurationForInterval i) in *. set (u := getUnitForInterval i).
  assert (forall n,
    contiguousFrom d (roundDown d now - Z.of_nat n * d + d)
      (List.map (fun j : nat => mkPoint (roundDown d (now - Z.of_nat j * d)) 0 u)
         (rev (seq 0 n))) = true) as Hgen.
  { induction n as [|n IH]; [done|].
    rewrite seq_S, rev_app_distr. simpl.
    rewrite roundDown_shift by done.
    replace (roundDown d now - Z.of_nat (S n) * d + d)
      with (roundDown d now - Z.of_nat n * d) by lia.
    rewrite Z.eqb_refl. simpl. apply IH. }
  eapply contiguous_from; [|apply Hgen].
  unfold roundDown.
  replace (now / d * d - Z.of_nat (points i) * d + d)
    with (0 + (now / d - Z.of_nat (points i) + 1) * d) by lia.
  by rewrite Z.mod_add by lia.
Qed.


(** *** The timer and the change of interval *)

Lemma timestamps_populate (i : Interval) (now : Z) (history : list Event)
    (tl : list Point) :
  List.map p_timestamp (populateTimelineFromHistory i now history tl)
  = List.map p_timestamp tl.
Proof.
  unfold populateTimelineFromHistory. destruct history; [done|].
  by rewrite List.map_map.
Qed.





(** *** Runs *)





End TimelineProperties.



(** A timer turn that comes three seconds late in the minute view leaves a
    gap, and the length is kept. *)
Example late_tick_leaves_gap :
  let st :=
    Timeline.run
      [Timeline.ChangeInterval Timeline.I1m Scenario.t0 [];
       Timeline.Tick (Scenario.t0 + 3000) 0 0]
      (Timeline.initial Scenario.t0) in
  length (snd st) = 60%nat
  /\ Timeline.ascending 1000 (snd st) = true
  /\ Timeline.contiguous 1000 (snd st) = false.
Proof. by vm_compute. Qed.

(** ** The heatmap *)

Section HeatmapProperties.

Import Heatmap.

Variable localTZA : Z -> Z.

Lemma getHours_range (t h : Z) :
  getHours localTZA t = Some h -> 0 <= h < 24.
Proof.
  unfold getHours. destruct (_ && _); [|done]. intros [= <-].
  apply Z.mod_pos_bound. done.
Qed.

Lemma getHours_valid (t : Z) :
  - maxDate <= t <= maxDate -> is_Some (getHours localTZA t).
Proof.
  intros Ht. unfold getHours.
  destruct (Z.leb_spec (- maxDate) t), (Z.leb_spec t maxDate);
    try lia. by eexists.
Qed.

Lemma validHour_getHours (t : Z) :
  validHour (getHours localTZA t)
  = bool_decide (is_Some (getHours localTZA t)).
Proof.
  destruct (getHours localTZA t) as [h|] eqn:Hh.
  - pose proof (getHours_range t h Hh).
    rewrite bool_decide_eq_true_2 by by eexists. unfold validHour.
    by destruct (Z.leb_spec 0 h), (Z.leb_spec h 23); try lia.
  - rewrite bool_decide_eq_false_2; [done|]. by intros [? ?].
Qed.

Lemma attacks_recalc (hm : list Slot) :
  List.map h_attacks (recalc hm) = List.map h_attacks hm.
Proof. unfold recalc. rewrite List.map_map. done. Qed.

Lemma maxAttacks_recalc (hm : list Slot) :
  maxAttacks (recalc hm) = maxAttacks hm.
Proof. unfold maxAttacks. by rewrite attacks_recalc. Qed.

Lemma maxAttacks_bounds (hm : list Slot) :
  1 <= maxAttacks hm /\ Forall (fun s => h_attacks s <= maxAttacks hm) hm.
Proof.
  unfold maxAttacks. induction hm as [|s hm [IH1 IH2]]; simpl; [done|].
  split; [lia|]. constructor; [lia|].
  eapply Forall_impl; [exact IH2|]. simpl. lia.
Qed.

Lemma maxAttacks_attained (hm : list Slot) :
  maxAttacks hm = 1 \/ exists s, s ∈ hm /\ h_attacks s = maxAttacks hm.
Proof.
  unfold maxAttacks. induction hm as [|s hm IH]; simpl; [by left|].
  destruct (Z.max_spec (h_attacks s) (foldr Z.max 1 (List.map h_attacks hm)))
    as [[_ ->]|[_ ->]].
  - destruct IH as [?|(s' & ? & ?)]; [by left|].
    right. exists s'. split; [by apply list_elem_of_further|done].
  - right. exists s. split; [apply list_elem_of_here|done].
Qed.

Lemma wellFormed_setup : Heatmap.wellFormed setupHeatmapData.
Proof.
  split; [done|]. unfold setupHeatmapData. rewrite Forall_forall.
  intros s [h [-> _]]%list_elem_of_fmap. done.
Qed.

Lemma wellFormed_recalc (hm : list Slot) :
  Heatmap.wellFormed hm -> Heatmap.wellFormed (recalc hm).
Proof.
  intros [Hlen Hpos]. split.
  - unfold recalc. by rewrite length_map.
  - unfold recalc. rewrite Forall_forall.
    intros s [s' [-> Hs']]%list_elem_of_fmap. simpl.
    rewrite Forall_forall in Hpos. by apply Hpos.
Qed.

Lemma wellFormed_countUp (h : nat) (hm : list Slot) :
  Heatmap.wellFormed hm -> Heatmap.wellFormed (alter countUp h hm).
Proof.
  intros [Hlen Hpos]. split.
  - by rewrite length_alter.
  - apply Forall_alter; [done|]. intros s _ Hs. simpl. lia.
Qed.

Lemma wellFormed_addAttackToHeatmap (now : Z) (attack : Event)
    (hm : list Slot) :
  Heatmap.wellFormed hm ->
  Heatmap.wellFormed (addAttackToHeatmap localTZA now attack hm).
Proof.
  intros H. unfold addAttackToHeatmap. destruct (validHour _); [|done].
  by apply wellFormed_recalc, wellFormed_countUp.
Qed.

Lemma wellFormed_ingestAll (arrivals : list (Z * Event)) (hm : list Slot) :
  Heatmap.wellFormed hm -> Heatmap.wellFormed (ingestAll localTZA arrivals hm).
Proof.
  unfold ingestAll. revert hm.
  induction arrivals as [|a l IH]; intros hm H; simpl; [done|].
  by apply IH, wellFormed_addAttackToHeatmap.
Qed.

Lemma wellFormed_populate (now : Z) (history : list Event) (hm : list Slot) :
  Heatmap.wellFormed hm ->
  Heatmap.wellFormed (populateHeatmapFromHistory localTZA now history hm).
Proof.
  intros H. unfold populateHeatmapFromHistory.
  destruct history as [|a history]; [done|].
  apply wellFormed_recalc.
  generalize (List.filter
    (fun a0 => match timestamp a0 with
               | Some t => now - 24 * 60 * 60 * 1000 <=? t
               | None => false
               end) (a :: history)).
  intros recent.
  assert (Heatmap.wellFormed
            (List.map (fun s => mkSlot (h_hour s) 0%float 0) hm))
    as Hreset.
  { destruct H as [Hlen _]. split; [by rewrite length_map|].
    rewrite Forall_forall. by intros s [s' [-> _]]%list_elem_of_fmap. }
  revert Hreset.
  generalize (List.map (fun s => mkSlot (h_hour s) 0%float 0) hm).
  induction recent as [|r recent IH]; intros acc Hacc; simpl; [done|].
  apply IH. destruct (validHour _); [|done]. by apply wellFormed_countUp.
Qed.

(** The formula of the intensities after [recalc], in doubles. *)
Lemma intensity_recalc (hm : list Slot) (s : Slot) :
  s ∈ recalc hm ->
  h_intensity s
  = (Js.ofInteger (h_attacks s) / Js.ofInteger (maxAttacks hm) * 100)%float.
Proof.
  unfold recalc. intros [s' [-> _]]%list_elem_of_fmap. simpl.
  unfold intensityOf. pose proof (maxAttacks_bounds hm) as [H1 _].
  by destruct (Z.ltb_spec 0 (maxAttacks hm)); [|lia].
Qed.

Lemma elem_of_recalc (hm : list Slot) (s : Slot) :
  s ∈ hm ->
  mkSlot (h_hour s) (intensityOf (maxAttacks hm) (h_attacks s)) (h_attacks s)
  ∈ recalc hm.
Proof.
  intros Hs. unfold recalc. apply list_elem_of_fmap. by exists s.
Qed.

Lemma addAttackToHeatmap_unfold (now : Z) (attack : Event) (hm : list Slot)
    (hour : Z) :
  getHours localTZA (default now (Js.orZ (timestamp attack) (Some now)))
  = Some hour ->
  addAttackToHeatmap localTZA now attack hm
  = recalc (alter countUp (Z.to_nat hour) hm).
Proof.
  intros Hh. unfold addAttackToHeatmap.
  rewrite validHour_getHours, Hh.
  rewrite bool_decide_eq_true_2 by by eexists. done.
Qed.

Lemma addAttackToHeatmap_skipped (now : Z) (attack : Event)
    (hm : list Slot) :
  getHours localTZA (default now (Js.orZ (timestamp attack) (Some now)))
  = None ->
  addAttackToHeatmap localTZA now attack hm = hm.
Proof. intros Hh. unfold addAttackToHeatmap. by rewrite Hh. Qed.

(** *** The formula in every heatmap the dashboard reaches *)

Lemma formula_setup :
  Forall (fun s => h_intensity s
                    = (Js.ofInteger (h_attacks s)
                       / Js.ofInteger (maxAttacks (setupHeatmapData)) * 100)%float)
    (setupHeatmapData).
Proof. vm_compute. repeat constructor. Qed.

Lemma formula_recalc (hm : list Slot) :
  Forall (fun s => h_intensity s
                    = (Js.ofInteger (h_attacks s)
                       / Js.ofInteger (maxAttacks (recalc hm)) * 100)%float)
    (recalc hm).
Proof.
  rewrite Forall_forall. intros s Hs. rewrite maxAttacks_recalc.
  by apply intensity_recalc.
Qed.

Lemma formula_addAttackToHeatmap (now : Z) (attack : Event)
    (hm : list Slot) :
  Forall (fun s => h_intensity s
                    = (Js.ofInteger (h_attacks s)
                       / Js.ofInteger (maxAttacks (hm)) * 100)%float)
    (hm) ->
  Forall (fun s => h_intensity s
                    = (Js.ofInteger (h_attacks s)
                       / Js.ofInteger (maxAttacks (addAttackToHeatmap localTZA now attack hm)) * 100)%float)
    (addAttackToHeatmap localTZA now attack hm).
Proof.
  intros H. unfold addAttackToHeatmap.
  destruct (validHour _); [apply formula_recalc|done].
Qed.

Lemma formula_ingestAll (arrivals : list (Z * Event)) (hm : list Slot) :
  Forall (fun s => h_intensity s
                    = (Js.ofInteger (h_attacks s)
                       / Js.ofInteger (maxAttacks (hm)) * 100)%float)
    (hm) ->
  Forall (fun s => h_intensity s
                    = (Js.ofInteger (h_attacks s)
                       / Js.ofInteger (maxAttacks (ingestAll localTZA arrivals hm)) * 100)%float)
    (ingestAll localTZA arrivals hm).
Proof.
  unfold ingestAll. revert hm.
  induction arrivals as [|a arrivals IH]; intros hm H; [done|].
  simpl. by apply IH, formula_addAttackToHeatmap.
Qed.

Lemma formula_populate (now : Z) (history : list Event) (hm : list Slot) :
  Forall (fun s => h_intensity s
                    = (Js.ofInteger (h_attacks s)
                       / Js.ofInteger (maxAttacks (hm)) * 100)%float)
    (hm) ->
  Forall (fun s => h_intensity s
                    = (Js.ofInteger (h_attacks s)
                       / Js.ofInteger (maxAttacks (populateHeatmapFromHistory localTZA now history hm)) * 100)%float)
    (populateHeatmapFromHistory localTZA now history hm).
Proof.
  intros H. unfold populateHeatmapFromHistory.
  destruct history; [done|apply formula_recalc].
Qed.

End HeatmapProperties.

(** *** Doubles

    The quotient of a whole number by itself is the double 1, and the
    quotient of 0 by a whole number is the double 0, for whole numbers
    below [2^53]. *)

Section Doubles.

Lemma digits2_pos_iter (p : positive) (k : positive) :
  Zpos (digits2_pos (Pos.iter xO p k)) = Zpos (digits2_pos p) + Zpos k.
Proof.
  revert p. induction k using Pos.peano_ind; intros p.
  - simpl. lia.
  - rewrite Pos.iter_succ. simpl. rewrite Pos2Z.inj_succ, IHk. lia.
Qed.

Lemma digits2_pos_size (p : positive) : digits2_pos p = Pos.size p.
Proof. induction p; simpl; congruence. Qed.

Lemma digits2_pos_bound (p : positive) :
  Zpos p < 2 ^ 53 -> Zpos (digits2_pos p) <= 53.
Proof.
  intros Hp. rewrite digits2_pos_size.
  pose proof (Pos.size_le p) as Hle.
  apply Pos2Z.pos_le_pos in Hle. rewrite Pos2Z.inj_pow in Hle.
  change (Zpos p~0) with (2 * Zpos p) in Hle.
  destruct (Z.le_gt_cases (Zpos (Pos.size p)) 53) as [|Hgt]; [done|].
  assert (2 ^ 54 <= 2 ^ Zpos (Pos.size p)) by (apply Z.pow_le_mono_r; lia).
  lia.
Qed.

(** A mantissa of 53 bits with an exponent in range needs no rounding. *)
Lemma binary_round_aux_exact (mz : positive) (ez : Z) :
  Zpos (digits2_pos mz) = 53 -> -1074 <= ez <= 971 ->
  binary_round_aux prec emax false (Zpos mz) ez loc_Exact
  = S754_finite false mz ez.
Proof.
  intros H53 Hez.
  assert (fexp prec emax (53 + ez) - ez = 0) as Hfexp.
  { unfold fexp, emin, prec, emax. lia. }
  unfold binary_round_aux, shr_fexp. cbn [Zdigits2 shr_record_of_loc].
  rewrite H53, Hfexp.
  cbn [shr shr_m loc_of_shr_record round_nearest_even Zdigits2].
  rewrite H53, Hfexp. cbn [shr shr_m].
  destruct (Z.leb_spec ez (emax - prec)) as [_|Hgt]; [done|].
  unfold emax, prec in Hgt. lia.
Qed.

(** A whole number from 1 to [2^53 - 1] is a finite double other than 0. *)
Lemma Prim2SF_ofInteger (m : Z) :
  0 < m < 2 ^ 53 ->
  exists mx ex, Prim2SF (Js.ofInteger m) = S754_finite false mx ex.
Proof.
  intros Hm. unfold Js.ofInteger. rewrite of_uint63_spec, Uint63.of_Z_spec.
  assert (wB = 2 ^ 63) as HwB by reflexivity.
  rewrite Z.mod_small by (rewrite HwB; lia).
  destruct m as [|p|p]; [lia| |lia]. simpl binary_normalize.
  pose proof (digits2_pos_bound p ltac:(lia)) as Hd.
  assert (1 <= Zpos (digits2_pos p)) by lia.
  unfold binary_round.
  assert (fexp prec emax (Zpos (digits2_pos p) + 0)
          = Zpos (digits2_pos p) - 53) as Hfexp.
  { unfold fexp, emin, prec, emax. lia. }
  rewrite Hfexp. unfold shl_align.
  destruct (Zpos (digits2_pos p) - 53 - 0) as [|k|k] eqn:Hk; [|lia|].
  - rewrite binary_round_aux_exact by lia. eauto.
  - rewrite binary_round_aux_exact; [eauto| |lia].
    rewrite digits2_pos_iter. lia.
Qed.

Lemma SFdiv_same (mx : positive) (ex : Z) :
  SF64div (S754_finite false mx ex) (S754_finite false mx ex)
  = Prim2SF 1%float.
Proof.
  unfold SF64div, SFdiv, SFdiv_core_binary.
  replace (Zdigits2 (Zpos mx) + ex - (Zdigits2 (Zpos mx) + ex)) with 0 by lia.
  replace (ex - ex) with 0 by lia.
  change (Z.min (fexp prec emax 0) 0) with (-53).
  change (0 - -53) with 53.
  cbv iota beta zeta.
  change (IntDef.Z.div_eucl (IntDef.Z.shiftl (Zpos mx) 53) (Zpos mx))
    with (Z.div_eucl (Z.shiftl (Zpos mx) 53) (Zpos mx)).
  rewrite Z.shiftl_mul_pow2 by done.
  assert (Z.div_eucl (Zpos mx * 2 ^ 53) (Zpos mx) = (2 ^ 53, 0)) as ->.
  { pose proof (Z.div_mul (2 ^ 53) (Zpos mx) ltac:(done)) as Hq.
    pose proof (Z.mod_mul (2 ^ 53) (Zpos mx) ltac:(done)) as Hr.
    rewrite (Z.mul_comm (2 ^ 53)) in Hq, Hr.
    unfold Z.div, Z.modulo in Hq, Hr.
    destruct (Z.div_eucl (Zpos mx * 2 ^ 53) (Zpos mx)) as [q r].
    simpl in Hq, Hr. by rewrite Hq, Hr. }
  assert (new_location (Zpos mx) 0 = loc_Exact) as ->.
  { unfold new_location, new_location_even, new_location_odd.
    by destruct (Z.even (Zpos mx)). }
  reflexivity.
Qed.

Lemma ofInteger_div_same (m : Z) :
  0 < m < 2 ^ 53 -> (Js.ofInteger m / Js.ofInteger m)%float = 1%float.
Proof.
  intros Hm. destruct (Prim2SF_ofInteger m Hm) as (mx & ex & Hx).
  apply Prim2SF_inj. rewrite FloatAxioms.div_spec, Hx. apply SFdiv_same.
Qed.

Lemma ofInteger_div_zero (m : Z) :
  0 < m < 2 ^ 53 -> (Js.ofInteger 0 / Js.ofInteger m)%float = 0%float.
Proof.
  intros Hm. destruct (Prim2SF_ofInteger m Hm) as (mx & ex & Hx).
  apply Prim2SF_inj. rewrite FloatAxioms.div_spec, Hx. reflexivity.
Qed.

Lemma full_intensity (m : Z) :
  0 < m < 2 ^ 53 -> Heatmap.intensityOf m m = 100%float.
Proof.
  intros Hm. unfold Heatmap.intensityOf.
  destruct (Z.ltb_spec 0 m); [|lia]. by rewrite ofInteger_div_same.
Qed.

Lemma no_intensity (m : Z) :
  0 < m < 2 ^ 53 -> Heatmap.intensityOf m 0 = 0%float.
Proof.
  intros Hm. unfold Heatmap.intensityOf.
  destruct (Z.ltb_spec 0 m); [|lia]. by rewrite ofInteger_div_zero.
Qed.

End Doubles.

(** C6. An ingest of an attack whose time is a valid [Date] leaves 24
    slots, the slot of the attack's hour counting one more, and every slot
    with the intensity [attacks / M * 100] as the code computes it, in
    doubles, where [M] is the largest count of all slots and at least 1.
    While the counts are below [2^53], where whole numbers are doubles, a
    slot with the largest count has intensity 100 and a slot without
    attacks has intensity 0. The same formula holds after the heatmap is
    filled from a non-empty history. An attack whose time is not a valid
    [Date] is left out and changes nothing. So after every ingest, counted
    or left out, every slot has the intensity of the formula, and some slot
    has intensity 100 when some slot has counted an attack. *)
Theorem heatmap_intensity_after_ingest (localTZA : Z -> Z) (now0 : Z)
    (history : list Event) (arrivals : list (Z * Event)) (now : Z)
    (attack : Event) :
  let hm0 :=
    Heatmap.populateHeatmapFromHistory localTZA now0 history
      Heatmap.setupHeatmapData in
  let hm := Heatmap.ingestAll localTZA arrivals hm0 in
  let hm' := Heatmap.addAttackToHeatmap localTZA now attack hm in
  let attackTime := default now (Js.orZ (timestamp attack) (Some now)) in
  let M := Heatmap.maxAttacks hm' in
  (forall hour, Heatmap.getHours localTZA attackTime = Some hour ->
     length hm' = 24%nat
     /\ 0 <= hour < 24
     /\ List.map Heatmap.h_attacks hm'
        = List.map Heatmap.h_attacks
            (alter Heatmap.countUp (Z.to_nat hour) hm)
     /\ 1 <= M
     /\ (forall s, s ∈ hm' -> Heatmap.h_attacks s <= M)
     /\ (exists s, s ∈ hm' /\ Heatmap.h_attacks s = M)
     /\ (forall s, s ∈ hm' ->
           Heatmap.h_intensity s
           = (Js.ofInteger (Heatmap.h_attacks s) / Js.ofInteger M * 100)%float)
     /\ (M < 2 ^ 53 ->
         (exists s, s ∈ hm' /\ Heatmap.h_attacks s = M
                    /\ Heatmap.h_intensity s = 100%float)
         /\ (forall s, s ∈ hm' -> Heatmap.h_attacks s = M ->
               Heatmap.h_intensity s = 100%float)
         /\ (forall s, s ∈ hm' -> Heatmap.h_attacks s = 0 ->
               Heatmap.h_intensity s = 0%float)))
  /\ (- Heatmap.maxDate <= attackTime <= Heatmap.maxDate ->
      is_Some (Heatmap.getHours localTZA attackTime))
  /\ (Heatmap.getHours localTZA attackTime = None -> hm' = hm)
  /\ (history <> [] ->
      forall s, s ∈ hm0 ->
        Heatmap.h_intensity s
        = (Js.ofInteger (Heatmap.h_attacks s)
           / Js.ofInteger (Heatmap.maxAttacks hm0) * 100)%float)
  /\ (forall s, s ∈ hm' ->
        Heatmap.h_intensity s
        = (Js.ofInteger (Heatmap.h_attacks s) / Js.ofInteger M * 100)%float)
  /\ (M < 2 ^ 53 ->
      (exists s, s ∈ hm' /\ 0 < Heatmap.h_attacks s) ->
      exists s, s ∈ hm' /\ Heatmap.h_attacks s = M
                /\ Heatmap.h_intensity s = 100%float).
Proof.
  intros hm0 hm hm' attackTime M.
  assert (Heatmap.wellFormed hm) as [Hlen Hpos].
  { apply wellFormed_ingestAll, wellFormed_populate, wellFormed_setup. }
  assert (forall s, s ∈ hm' ->
            Heatmap.h_intensity s
            = (Js.ofInteger (Heatmap.h_attacks s) / Js.ofInteger M * 100)%float)
    as Hall.
  { apply Forall_forall. unfold M, hm', hm, hm0.
    apply formula_addAttackToHeatmap, formula_ingestAll, formula_populate,
      formula_setup. }
  split; [|split; [by apply getHours_valid|split; [|split; [|split; [done|]]]]];
    cycle 3.
  { intros Hbound (s0 & Hs0 & Hpos0).
    pose proof (maxAttacks_bounds hm') as [HM1 HMle].
    fold M in HM1, HMle. rewrite Forall_forall in HMle.
    assert (exists s, s ∈ hm' /\ Heatmap.h_attacks s = M) as (s & Hs & HsM).
    { destruct (maxAttacks_attained hm') as [H1|(s & Hs & HsM)].
      - exists s0. split; [done|]. fold M in H1.
        specialize (HMle s0 Hs0). simpl in HMle. lia.
      - by exists s. }
    exists s. split; [done|]. split; [done|].
    rewrite (Hall s Hs), HsM.
    pose proof (full_intensity M ltac:(lia)) as Hfull.
    unfold Heatmap.intensityOf in Hfull.
    by destruct (Z.ltb_spec 0 M); [|lia]. }
  - intros hour Hhour.
    assert (hm' = Heatmap.recalc (alter Heatmap.countUp (Z.to_nat hour) hm))
      as Hhm' by by apply addAttackToHeatmap_unfold.
    set (bumped := alter Heatmap.countUp (Z.to_nat hour) hm) in *.
    assert (M = Heatmap.maxAttacks bumped) as HM.
    { unfold M. by rewrite Hhm', maxAttacks_recalc. }
    pose proof (maxAttacks_bounds bumped) as [HM1 HMle].
    pose proof (getHours_range localTZA attackTime hour Hhour) as Hr.
    assert (exists s, s ∈ bumped /\ Heatmap.h_attacks s = M)
      as (top & Htop & HtopM).
    { destruct (maxAttacks_attained bumped) as [H1|(s & Hs & HsM)].
      - destruct (lookup_lt_is_Some_2 hm (Z.to_nat hour)) as [s0 Hs0]; [lia|].
        exists (Heatmap.countUp s0). split.
        + apply list_elem_of_lookup. exists (Z.to_nat hour).
          unfold bumped. by rewrite list_lookup_alter_eq, Hs0.
        + rewrite Forall_forall in Hpos.
          assert (0 <= Heatmap.h_attacks s0)
            by (apply Hpos; by eapply list_elem_of_lookup_2).
          assert (Heatmap.h_attacks (Heatmap.countUp s0) <= 1) as Hle.
          { rewrite <- H1. rewrite Forall_forall in HMle. apply HMle.
            apply list_elem_of_lookup. exists (Z.to_nat hour).
            unfold bumped. by rewrite list_lookup_alter_eq, Hs0. }
          simpl in *. lia.
      - exists s. by rewrite HM. }
    assert (forall s, s ∈ hm' ->
              Heatmap.h_intensity s
              = Heatmap.intensityOf M (Heatmap.h_attacks s)) as Hint.
    { intros s Hs. rewrite Hhm' in Hs. unfold Heatmap.recalc in Hs.
      apply list_elem_of_fmap in Hs as [s' [-> Hs']]. simpl. by rewrite HM. }
    split.
    { rewrite Hhm'. unfold Heatmap.recalc, bumped.
      by rewrite length_map, length_alter. }
    split; [done|].
    split; [by rewrite Hhm', attacks_recalc|].
    split; [lia|].
    split.
    { intros s Hs. rewrite Hhm' in Hs. unfold Heatmap.recalc in Hs.
      apply list_elem_of_fmap in Hs as [s' [-> Hs']]. simpl.
      rewrite Forall_forall in HMle. rewrite HM. by apply HMle. }
    split.
    { exists (Heatmap.mkSlot (Heatmap.h_hour top)
                (Heatmap.intensityOf (Heatmap.maxAttacks bumped)
                   (Heatmap.h_attacks top)) (Heatmap.h_attacks top)).
      split; [|done]. rewrite Hhm'. by apply elem_of_recalc. }
    split.
    { intros s Hs. rewrite HM. apply intensity_recalc. by rewrite <- Hhm'. }
    intros Hbound. split; [|split].
    + exists (Heatmap.mkSlot (Heatmap.h_hour top)
                (Heatmap.intensityOf (Heatmap.maxAttacks bumped)
                   (Heatmap.h_attacks top)) (Heatmap.h_attacks top)).
      split; [rewrite Hhm'; by apply elem_of_recalc|]. split; [done|].
      simpl. rewrite <- HM, HtopM. apply full_intensity. lia.
    + intros s Hs HsM. rewrite (Hint s Hs), HsM. apply full_intensity. lia.
    + intros s Hs Hs0. rewrite (Hint s Hs), Hs0. apply no_intensity. lia.
  - by apply addAttackToHeatmap_skipped.
  - intros Hne s Hs. unfold hm0 in *.
    unfold Heatmap.populateHeatmapFromHistory in *.
    destruct history as [|a history]; [done|].
    rewrite maxAttacks_recalc. by apply intensity_recalc.
Qed.

(** With UTC as local time: the heatmap filled from one attack at [t0],
    then two more attacks in the two hours before it. The slot of 22 h holds
    the largest count and has intensity 100, and the slot of 21 h, with one
    attack of three, has the intensity [1 / 3 * 100] in doubles. *)
Lemma heatmap_intensity_after_ingest_witness :
  let utc := fun _ : Z => 0 in
  let at_ := fun t => plainEvent "198.51.100.7" "SSH" t in
  let hm' :=
    Heatmap.addAttackToHeatmap utc (Scenario.t0 + 3000)
      (at_ (Scenario.t0 - 3600000))
      (Heatmap.ingestAll utc
         [(Scenario.t0 + 1000, at_ (Scenario.t0 + 1000));
          (Scenario.t0 + 2000, at_ (Scenario.t0 + 2000))]
         (Heatmap.populateHeatmapFromHistory utc Scenario.t0
            [at_ Scenario.t0] Heatmap.setupHeatmapData)) in
  (exists s, s ∈ hm' /\ Heatmap.h_attacks s = 3
             /\ Heatmap.h_intensity s = 100%float)
  /\ Heatmap.h_intensity <$> hm' !! 21%nat = Some 0x1.0aaaaaaaaaaaap+5%float.
Proof.
  intros utc at_ hm'.
  destruct (heatmap_intensity_after_ingest utc Scenario.t0 [at_ Scenario.t0]
              [(Scenario.t0 + 1000, at_ (Scenario.t0 + 1000));
               (Scenario.t0 + 2000, at_ (Scenario.t0 + 2000))]
              (Scenario.t0 + 3000) (at_ (Scenario.t0 - 3600000)))
    as (Hin & _).
  destruct (Hin 21 eq_refl) as (_ & _ & _ & _ & _ & _ & Hformula & Hfull).
  destruct (Hfull ltac:(vm_compute; reflexivity)) as (Htop & _).
  split; [exact Htop|].
  destruct (hm' !! 21%nat) as [s|] eqn:Hs; [|discriminate].
  pose proof (Hformula s (list_elem_of_lookup_2 _ _ _ Hs)) as Hi.
  simpl. rewrite Hi. f_equal.
  vm_compute in Hs. injection Hs as <-. vm_compute. reflexivity.
Defined.

(** ** Connection status and reconnection *)

Section ConnectionProperties.

Import Connection.

Lemma connectionStatus_update (status : Status) (n : Net) :
  connectionStatus (updateConnectionStatus status n)
  = if statusElements n then status else connectionStatus n.
Proof.
  unfold updateConnectionStatus.
  destruct (decide (connectionStatus n = status)) as [->|_];
    by destruct (statusElements n).
Qed.

Lemma sockets_update (status : Status) (n : Net) :
  sockets (updateConnectionStatus status n) = sockets n.
Proof.
  unfold updateConnectionStatus.
  destruct (decide _); [done|]. by destruct (statusElements n).
Qed.

Lemma timers_update (status : Status) (n : Net) :
  timers (updateConnectionStatus status n) = timers n.
Proof.
  unfold updateConnectionStatus.
  destruct (decide _); [done|]. by destruct (statusElements n).
Qed.

(** *** Reconnection timers *)

Lemma onclose_abnormal (code : Z) (n : Net) :
  code <> 1000 -> timers (onclose code n) = timers n ++ [reconnectDelay].
Proof.
  intros Hcode. unfold onclose.
  destruct (Z.eqb_spec code 1000); [done|]. simpl.
  by rewrite timers_update.
Qed.

Lemma onclose_normal (n : Net) : timers (onclose 1000 n) = timers n.
Proof. unfold onclose. simpl. by rewrite timers_update. Qed.

Lemma connectWebSocket_guarded (n : Net) :
  isReconnecting n = true -> connectWebSocket n = n.
Proof. intros H. unfold connectWebSocket. by rewrite H. Qed.

(** *** One socket at a time *)

Lemma superseded_connect (l : list ReadyState) :
  superseded l ->
  superseded (alter close (length l - 1)%nat l ++ [CONNECTING]).
Proof.
  intros Hl i s Hi Hlt.
  rewrite length_app, length_alter in Hlt. simpl in Hlt.
  rewrite lookup_app_l in Hi by (rewrite length_alter; lia).
  destruct (decide (i = (length l - 1)%nat)) as [->|Hne].
  - rewrite list_lookup_alter_eq in Hi.
    destruct (l !! (length l - 1)%nat) as [s0|]; [|done].
    injection Hi as <-. unfold closingOrClosed. destruct s0; simpl; auto.
  - rewrite list_lookup_alter_ne in Hi by done.
    apply (Hl i s Hi). lia.
Qed.

Lemma superseded_insert_last (l : list ReadyState) (i : nat)
    (s : ReadyState) :
  superseded l -> l !! i = Some CONNECTING -> superseded (<[i := s]> l).
Proof.
  intros Hl Hi j s' Hj Hlt. rewrite length_insert in Hlt.
  destruct (decide (i = j)) as [->|Hne].
  - destruct (Hl j CONNECTING Hi Hlt); done.
  - rewrite list_lookup_insert_ne in Hj by done. by apply (Hl j).
Qed.

Lemma superseded_insert_closed (l : list ReadyState) (i : nat) :
  superseded l -> superseded (<[i := CLOSED]> l).
Proof.
  intros Hl j s' Hj Hlt. rewrite length_insert in Hlt.
  destruct (decide (i = j)) as [->|Hne].
  - rewrite list_lookup_insert_eq in Hj by lia. injection Hj as <-.
    by right.
  - rewrite list_lookup_insert_ne in Hj by done. by apply (Hl j).
Qed.

Lemma superseded_connectWebSocket (n : Net) :
  superseded (sockets n) -> superseded (sockets (connectWebSocket n)).
Proof.
  intros H. unfold connectWebSocket. destruct (isReconnecting n); [done|].
  simpl. rewrite sockets_update. simpl. by apply superseded_connect.
Qed.

Lemma superseded_step (n n' : Net) :
  step n n' -> superseded (sockets n) -> superseded (sockets n').
Proof.
  intros Hstep H.
  destruct Hstep
    as [i now n Hi|i st code n Hi Hst|i st n Hi|i t n Hi|n|now n|now n].
  - unfold onopen. rewrite sockets_update. simpl.
    by apply superseded_insert_last.
  - unfold onclose. simpl.
    destruct (negb (code =? 1000)); simpl; rewrite sockets_update; simpl;
      by apply superseded_insert_closed.
  - unfold onerror. by rewrite sockets_update.
  - unfold reconnectCallback. apply superseded_connectWebSocket. done.
  - unfold onVisible, checkConnectionHealth.
    destruct (webSocket n) as [[]|]; cbn [fst snd]; try done;
      apply superseded_connectWebSocket; cbn [sockets set_isReconnecting];
      by rewrite sockets_update.
  - unfold syncConnectionStatus. by rewrite sockets_update.
  - done.
Qed.

Lemma superseded_reachable (n : Net) :
  reachable n -> superseded (sockets n).
Proof.
  induction 1 as [now elements|n n' _ IH Hstep].
  - apply superseded_connectWebSocket. intros i s Hi. done.
  - by eapply superseded_step.
Qed.

Lemma superseded_in_flight (l : list ReadyState) :
  superseded l ->
  (length (List.filter (fun s => bool_decide (s = CONNECTING)) l) <= 1)%nat.
Proof.
  induction l as [|s l IH]; intros Hl; simpl; [lia|].
  destruct l as [|s' l].
  - destruct (bool_decide _); simpl; lia.
  - assert (closingOrClosed s) as Hs by (apply (Hl 0%nat); simpl; [done|lia]).
    assert (bool_decide (s = CONNECTING) = false) as ->.
    { apply bool_decide_eq_false. by destruct Hs as [-> | ->]. }
    apply IH. intros i x Hi Hlt. apply (Hl (S i) x Hi). simpl in *. lia.
Qed.

(** *** Replacement of the socket *)

Lemma connectWebSocket_unguarded (n : Net) :
  isReconnecting n = false ->
  sockets (connectWebSocket n)
  = alter close (length (sockets n) - 1)%nat (sockets n) ++ [CONNECTING]
  /\ isReconnecting (connectWebSocket n) = true
  /\ reconnectAttempts (connectWebSocket n) = reconnectAttempts n
  /\ timers (connectWebSocket n) = timers n.
Proof.
  intros Hflag. unfold connectWebSocket. rewrite Hflag.
  cbn [sockets set_sockets isReconnecting reconnectAttempts timers].
  rewrite sockets_update, timers_update.
  unfold updateConnectionStatus.
  destruct (decide _); [done|]. by destruct (statusElements _).
Qed.

Lemma webSocket_connect (l : list ReadyState) :
  last (l ++ [CONNECTING]) = Some CONNECTING.
Proof. apply last_snoc. Qed.

Lemma checkConnectionHealth_sockets (n : Net) :
  sockets (snd (checkConnectionHealth n)) = sockets n
  /\ reconnectAttempts (snd (checkConnectionHealth n)) = reconnectAttempts n
  /\ timers (snd (checkConnectionHealth n)) = timers n.
Proof.
  unfold checkConnectionHealth.
  assert (sockets (updateConnectionStatus disconnected n) = sockets n
          /\ reconnectAttempts (updateConnectionStatus disconnected n)
             = reconnectAttempts n
          /\ timers (updateConnectionStatus disconnected n) = timers n) as H.
  { unfold updateConnectionStatus.
    destruct (decide _); [done|]. by destruct (statusElements n). }
  destruct (webSocket n) as [[]|]; done.
Qed.

Lemma sockets_onclose (code : Z) (n : Net) :
  sockets (onclose code n) = sockets n.
Proof.
  unfold onclose.
  destruct (negb (code =? 1000)); simpl; by rewrite sockets_update.
Qed.

Lemma reconnectCallback_fired (n : Net) :
  sockets (reconnectCallback n)
  = alter close (length (sockets n) - 1)%nat (sockets n) ++ [CONNECTING]
  /\ isReconnecting (reconnectCallback n) = true
  /\ reconnectAttempts (reconnectCallback n) = reconnectAttempts n + 1
  /\ timers (reconnectCallback n) = timers n.
Proof.
  exact (connectWebSocket_unguarded
           (set_isReconnecting false
              (set_reconnectAttempts (reconnectAttempts n + 1) n)) eq_refl).
Qed.

Lemma timers_connectWebSocket (n : Net) :
  timers (connectWebSocket n) = timers n.
Proof.
  destruct (isReconnecting n) eqn:Hflag.
  - by rewrite connectWebSocket_guarded.
  - by destruct (connectWebSocket_unguarded n Hflag) as (_ & _ & _ & ->).
Qed.

(** Every pending timeout is one of 60 seconds. *)
Lemma timers_step (n n' : Net) :
  step n n' ->
  Forall (fun t => t = reconnectDelay) (timers n) ->
  Forall (fun t => t = reconnectDelay) (timers n').
Proof.
  intros Hstep H.
  destruct Hstep
    as [i now n Hi|i st code n Hi Hst|i st n Hi|i t n Hi|n|now n|now n].
  - unfold onopen. by rewrite timers_update.
  - unfold onclose.
    destruct (negb (code =? 1000)); simpl; rewrite timers_update; simpl;
      [|done].
    apply Forall_app. split; [done|]. by constructor.
  - unfold onerror. by rewrite timers_update.
  - destruct (reconnectCallback_fired (set_timers (delete i (timers n)) n))
      as (_ & _ & _ & ->). simpl. by apply Forall_delete.
  - unfold onVisible. destruct (checkConnectionHealth_sockets n) as (_ & _ & Ht).
    destruct (fst (checkConnectionHealth n)); [by rewrite Ht|].
    rewrite timers_connectWebSocket. simpl. by rewrite Ht.
  - unfold syncConnectionStatus. by rewrite timers_update.
  - done.
Qed.

Lemma timers_reachable (n : Net) :
  reachable n -> Forall (fun t => t = reconnectDelay) (timers n).
Proof.
  induction 1 as [now elements|n n' _ IH Hstep].
  - rewrite timers_connectWebSocket. constructor.
  - by eapply timers_step.
Qed.

Lemma in_flight_connect (l : list ReadyState) :
  length (List.filter (fun s => bool_decide (s = CONNECTING))
            (l ++ [CONNECTING]))
  = S (length (List.filter (fun s => bool_decide (s = CONNECTING)) l)).
Proof. rewrite List.filter_app, length_app. simpl. lia. Qed.

End ConnectionProperties.

(** C3. One run of the 2-second poll. With the socket open, data received
    40,000 ms ago selects [idle] and data received 5,000 ms ago selects
    [connected], the limit between the two being 30,000 ms; with the socket
    closed, closing or absent the poll selects [disconnected] whatever the
    time of the last data. On a page that has the status elements the
    selected status becomes the connection status; without them
    [connectionStatus] is left as it is. *)
Theorem syncConnectionStatus_classifies (now : Z) (n : Connection.Net) :
  let polled := Connection.polledStatus now n in
  let after := Connection.connectionStatus
                 (Connection.syncConnectionStatus now n) in
  (Connection.statusElements n = true ->
     (Connection.webSocket n = Some Connection.OPEN ->
        (Connection.lastValidDataTime n = Some (now - 40000) ->
           after = Connection.idle)
        /\ (Connection.lastValidDataTime n = Some (now - 5000) ->
             after = Connection.connected))
     /\ (Connection.webSocket n = Some Connection.CLOSED
         \/ Connection.webSocket n = Some Connection.CLOSING
         \/ Connection.webSocket n = None ->
         after = Connection.disconnected))
  /\ (Connection.webSocket n = Some Connection.OPEN ->
      forall t, Connection.lastValidDataTime n = Some t ->
        polled = if decide (now - t < 30000)
                 then Connection.connected else Connection.idle)
  /\ (Connection.webSocket n = Some Connection.CLOSED
      \/ Connection.webSocket n = Some Connection.CLOSING
      \/ Connection.webSocket n = None ->
      polled = Connection.disconnected)
  /\ after = if Connection.statusElements n then polled
             else Connection.connectionStatus n.
Proof.
  intros polled after.
  assert (after = if Connection.statusElements n then polled
                  else Connection.connectionStatus n) as Hafter.
  { unfold after, Connection.syncConnectionStatus.
    by rewrite connectionStatus_update. }
  assert (Connection.webSocket n = Some Connection.OPEN ->
          forall t, Connection.lastValidDataTime n = Some t ->
            polled = if decide (now - t < 30000)
                     then Connection.connected else Connection.idle) as Hopen.
  { intros Hws t Ht. unfold polled, Connection.polledStatus.
    rewrite Hws, Ht. unfold Js.orZ, Js.truthyZ, Connection.IDLE_THRESHOLD.
    destruct (Z.eqb_spec t 0) as [->|Hne]; simpl;
      destruct (Z.ltb_spec (now - 0) 30000), (decide (now - 0 < 30000));
      try done; try lia;
      destruct (Z.ltb_spec (now - t) 30000), (decide (now - t < 30000));
      done || lia. }
  assert (Connection.webSocket n = Some Connection.CLOSED
          \/ Connection.webSocket n = Some Connection.CLOSING
          \/ Connection.webSocket n = None ->
          polled = Connection.disconnected) as Hclosed.
  { unfold polled, Connection.polledStatus. by intros [-> | [-> | ->]]. }
  split; [|split; [done|split; [done|done]]].
  intros Hel. rewrite Hel in Hafter. rewrite Hafter. split.
  - intros Hws. split.
    + intros Ht. rewrite (Hopen Hws _ Ht). destruct (decide _); [lia|done].
    + intros Ht. rewrite (Hopen Hws _ Ht). destruct (decide _); [done|lia].
  - done.
Qed.

(** An open socket whose last data is 40 seconds old, on a dashboard that
    shows [connected]; and a closed socket with data one second old. *)
Lemma syncConnectionStatus_classifies_witness :
  let n :=
    Connection.mkNet [Connection.OPEN] false 0 [] true
      (Some (Scenario.t0 - 40000)) Connection.connected true in
  let n' :=
    Connection.mkNet [Connection.CLOSED] false 0 [] false
      (Some (Scenario.t0 - 1000)) Connection.connected true in
  Connection.connectionStatus
    (Connection.syncConnectionStatus Scenario.t0 n) = Connection.idle
  /\ Connection.connectionStatus
       (Connection.syncConnectionStatus Scenario.t0 n')
     = Connection.disconnected.
Proof.
  intros n n'. split.
  - exact (proj1 (proj1 (proj1 (syncConnectionStatus_classifies Scenario.t0 n)
                           eq_refl) eq_refl) eq_refl).
  - exact (proj2 (proj1 (syncConnectionStatus_classifies Scenario.t0 n')
                    eq_refl) (or_introl eq_refl)).
Defined.

(** C4 (as the code has it). A close with a code other than 1000 adds
    exactly one timeout, of 60,000 ms, and creates no socket; a close with
    code 1000 adds none and clears [isReconnecting]. When a pending timeout
    fires, its callback removes that timeout and makes one attempt: it
    counts it, closes the socket in use and creates one socket, which is
    connecting, whatever [isReconnecting] says, since the callback clears
    the flag before the call. [connectWebSocket] called with the flag set
    does nothing. In every state the page can reach at most one socket is
    connecting, every socket but the newest being closing or closed, every
    pending timeout is one of 60,000 ms, and after a timeout has fired
    exactly one socket is connecting. *)
Theorem reconnection_scheduled_once :
  (forall (n : Connection.Net) (code : Z),
     code <> 1000 ->
     Connection.timers (Connection.onclose code n)
     = Connection.timers n ++ [60000]
     /\ Connection.sockets (Connection.onclose code n)
        = Connection.sockets n)
  /\ (forall n : Connection.Net,
        Connection.timers (Connection.onclose 1000 n) = Connection.timers n
        /\ Connection.sockets (Connection.onclose 1000 n)
           = Connection.sockets n
        /\ Connection.isReconnecting (Connection.onclose 1000 n) = false)
  /\ (forall (n : Connection.Net) (i : nat) (t : Z),
        Connection.timers n !! i = Some t ->
        let fired :=
          Connection.reconnectCallback
            (Connection.set_timers (delete i (Connection.timers n)) n) in
        Connection.step n fired
        /\ Connection.sockets fired
           = alter Connection.close (length (Connection.sockets n) - 1)%nat
               (Connection.sockets n) ++ [Connection.CONNECTING]
        /\ length (Connection.sockets fired)
           = S (length (Connection.sockets n))
        /\ Connection.timers fired = delete i (Connection.timers n)
        /\ S (length (Connection.timers fired))
           = length (Connection.timers n)
        /\ Connection.reconnectAttempts fired
           = Connection.reconnectAttempts n + 1)
  /\ (forall n : Connection.Net,
        Connection.isReconnecting n = true ->
        Connection.connectWebSocket n = n)
  /\ (forall n : Connection.Net,
        Connection.reachable n ->
        (Connection.attemptsInFlight n <= 1)%nat
        /\ Connection.superseded (Connection.sockets n)
        /\ Forall (fun t => t = 60000) (Connection.timers n)
        /\ forall (i : nat) (t : Z),
             Connection.timers n !! i = Some t ->
             Connection.attemptsInFlight
               (Connection.reconnectCallback
                  (Connection.set_timers (delete i (Connection.timers n)) n))
             = 1%nat).
Proof.
  assert (forall (n : Connection.Net) (i : nat) (t : Z),
            Connection.timers n !! i = Some t ->
            Connection.step n
              (Connection.reconnectCallback
                 (Connection.set_timers (delete i (Connection.timers n)) n)))
    as Hstep by (intros n i t Ht; by eapply Connection.step_timer).
  split; [|split; [|split; [|split]]].
  - intros n code Hcode. split; [by apply onclose_abnormal|].
    apply sockets_onclose.
  - intros n. split; [apply onclose_normal|]. split; [apply sockets_onclose|].
    done.
  - intros n i t Ht fired.
    destruct (reconnectCallback_fired
                (Connection.set_timers (delete i (Connection.timers n)) n))
      as (Hs & _ & Ha & Htm).
    fold fired in Hs, Ha, Htm.
    cbn [Connection.sockets Connection.set_timers Connection.timers
         Connection.reconnectAttempts] in Hs, Ha, Htm.
    split; [by eapply Hstep|]. split; [exact Hs|]. split.
    { rewrite Hs, length_app, length_alter. simpl. lia. }
    split; [exact Htm|]. split; [|exact Ha].
    rewrite Htm, length_delete by by eexists.
    apply lookup_lt_Some in Ht. lia.
  - apply connectWebSocket_guarded.
  - intros n Hn. split; [|split; [|split]].
    + by apply superseded_in_flight, superseded_reachable.
    + by apply superseded_reachable.
    + by apply timers_reachable.
    + intros i t Ht.
      set (fired := Connection.reconnectCallback _).
      assert (Connection.reachable fired) as Hfired
        by (eapply Connection.reach_step; [exact Hn|by eapply Hstep]).
      apply superseded_reachable, superseded_in_flight in Hfired.
      destruct (reconnectCallback_fired
                  (Connection.set_timers (delete i (Connection.timers n)) n))
        as (Hs & _).
      fold fired in Hs. unfold Connection.attemptsInFlight in *.
      rewrite Hs, in_flight_connect in Hfired |- *. lia.
Qed.

(** The page after [DOMContentLoaded]: the first attempt is under way and a
    second call of [connectWebSocket] changes nothing. The attempt fails
    (1006), which schedules one timeout; when it fires, the second socket
    is created. *)
Lemma reconnection_scheduled_once_witness :
  let n := Connection.connectWebSocket (Connection.initial Scenario.t0 true) in
  let n1 :=
    Connection.onclose 1006
      (Connection.set_sockets (<[0%nat := Connection.CLOSED]>
                                 (Connection.sockets n)) n) in
  Connection.timers (Connection.onclose 1006 n) = [60000]
  /\ Connection.connectWebSocket n = n
  /\ (Connection.attemptsInFlight n <= 1)%nat
  /\ Connection.timers n1 = [60000]
  /\ Connection.sockets
       (Connection.reconnectCallback
          (Connection.set_timers (delete 0%nat (Connection.timers n1)) n1))
     = [Connection.CLOSED; Connection.CONNECTING].
Proof.
  intros n n1.
  destruct reconnection_scheduled_once as (Habn & _ & Hfire & Hguard & Hone).
  split; [|split; [|split; [|split]]].
  - exact (proj1 (Habn n 1006 ltac:(discriminate))).
  - exact (Hguard n eq_refl).
  - exact (proj1 (Hone n (Connection.reach_load Scenario.t0 true))).
  - exact (proj1 (Habn _ 1006 ltac:(discriminate))).
  - exact (proj1 (proj2 (Hfire n1 0%nat 60000 eq_refl))).
Defined.

(** C4 (as stated). The first attempt fails with code 1006 and the page
    becomes visible: the second attempt is under way and [isReconnecting]
    is set, with the timeout of the failure pending. When that timeout
    fires, the guard stops nothing: the callback clears the flag, the
    attempt under way is given up and a third socket is created. When
    instead the second attempt fails as the first did, two timeouts are
    pending. And on a page that becomes visible while the first attempt is
    under way, the visibility handler replaces the attempt in the same
    way. *)
Lemma reconnect_while_attempt_pending :
  let n0 := Connection.connectWebSocket (Connection.initial Scenario.t0 true) in
  let n1 :=
    Connection.onclose 1006
      (Connection.set_sockets (<[0%nat := Connection.CLOSED]>
                                 (Connection.sockets n0)) n0) in
  let n2 := Connection.onVisible n1 in
  let fired :=
    Connection.reconnectCallback
      (Connection.set_timers (delete 0%nat (Connection.timers n2)) n2) in
  let failed :=
    Connection.onclose 1006
      (Connection.set_sockets (<[1%nat := Connection.CLOSED]>
                                 (Connection.sockets n2)) n2) in
  Connection.reachable n2
  /\ Connection.isReconnecting n2 = true
  /\ Connection.webSocket n2 = Some Connection.CONNECTING
  /\ Connection.timers n2 = [60000]
  /\ Connection.step n2 fired
  /\ Connection.sockets n2 = [Connection.CLOSED; Connection.CONNECTING]
  /\ Connection.sockets fired
     = [Connection.CLOSED; Connection.CLOSING; Connection.CONNECTING]
  /\ Connection.connectWebSocket n2 = n2
  /\ fired <> n2
  /\ Connection.step n2 failed
  /\ Connection.timers failed = [60000; 60000]
  /\ Connection.isReconnecting n0 = true
  /\ Connection.sockets n0 = [Connection.CONNECTING]
  /\ Connection.sockets (Connection.onVisible n0)
     = [Connection.CLOSING; Connection.CONNECTING].
Proof.
  intros n0 n1 n2 fired failed.
  assert (Connection.step n0 n1) as H01
    by exact (Connection.step_close 0 Connection.CONNECTING 1006 n0 eq_refl
                ltac:(discriminate)).
  assert (Connection.reachable n2) as H2.
  { eapply Connection.reach_step;
      [eapply Connection.reach_step; [apply Connection.reach_load|exact H01]|].
    apply Connection.step_visible. }
  split; [exact H2|]. split; [reflexivity|]. split; [reflexivity|].
  split; [reflexivity|].
  split; [exact (Connection.step_timer 0 60000 n2 eq_refl)|].
  split; [reflexivity|]. split; [reflexivity|]. split; [reflexivity|].
  split; [discriminate|].
  split; [exact (Connection.step_close 1 Connection.CONNECTING 1006 n2 eq_refl
                   ltac:(discriminate))|].
  repeat split; reflexivity.
Qed.

(** A failed first attempt followed by its timeout: the old socket is
    closed before the new one is created. *)
Example reconnect_after_failure :
  let n0 := Connection.connectWebSocket (Connection.initial Scenario.t0 true) in
  let n1 :=
    Connection.onclose 1006
      (Connection.set_sockets (<[0%nat := Connection.CLOSED]>
                                 (Connection.sockets n0)) n0) in
  let n2 :=
    Connection.reconnectCallback
      (Connection.set_timers (delete 0%nat (Connection.timers n1)) n1) in
  Connection.sockets n2 = [Connection.CLOSED; Connection.CONNECTING]
  /\ Connection.timers n2 = []
  /\ Connection.reconnectAttempts n2 = 1
  /\ Connection.isReconnecting n2 = true.
Proof. by vm_compute. Qed.

(** ** Restoration of the map markers *)

Section MapRestoration.

Import Dashboard.

Lemma scanForMap_cons (e : Event) (newer : list Event) :
  scanForMap (e :: newer) = keepForMap (scanForMap newer) e.
Proof. unfold scanForMap. simpl. by rewrite foldl_app. Qed.

Lemma keepForMap_kept (acc : list Event * gset string) (e : Event) :
  keptForMap (snd acc) e ->
  exists key, locationKey e = Some key
    /\ keepForMap acc e = (fst acc ++ [e], {[ key ]} ∪ snd acc).
Proof.
  intros (key & Hkey & Hsel). exists key. split; [done|].
  unfold keepForMap. rewrite Hkey.
  destruct Hsel as [Hsize|Hin].
  - by rewrite (bool_decide_eq_true_2 _ Hsize).
  - rewrite (bool_decide_eq_true_2 _ Hin). by rewrite orb_true_r.
Qed.

Lemma keepForMap_dropped (acc : list Event * gset string) (e : Event) :
  ~ keptForMap (snd acc) e -> keepForMap acc e = acc.
Proof.
  intros Hnot. unfold keepForMap.
  destruct (locationKey e) as [key|] eqn:Hkey; [|done].
  destruct (bool_decide (size acc.2 < MAX_MAP_CIRCLES)%nat) eqn:Hsize.
  - exfalso. apply Hnot. exists key. split; [done|]. left.
    by apply bool_decide_eq_true in Hsize.
  - destruct (bool_decide (key ∈ acc.2)) eqn:Hin; [|done].
    exfalso. apply Hnot. exists key. split; [done|]. right.
    by apply bool_decide_eq_true in Hin.
Qed.

Lemma keptForMap_dec (kept : gset string) (e : Event) :
  keptForMap kept e \/ ~ keptForMap kept e.
Proof.
  unfold keptForMap. destruct (locationKey e) as [key|].
  - destruct (decide (size kept < MAX_MAP_CIRCLES)%nat) as [?|Hsize].
    { left. exists key. auto. }
    destruct (decide (key ∈ kept)) as [?|Hin].
    { left. exists key. auto. }
    right. intros (key' & [= <-] & [?|?]); done.
  - right. by intros (key' & ? & _).
Qed.

(** The event in front of [newer] is selected by the test on the keys kept
    from [newer], and placed in front of the events selected from
    [newer]. *)
Lemma mapEvents_cons (e : Event) (newer : list Event) :
  (keptForMap (uniqueLocations newer) e
   /\ mapEvents (e :: newer) = e :: mapEvents newer)
  \/ (~ keptForMap (uniqueLocations newer) e
      /\ mapEvents (e :: newer) = mapEvents newer).
Proof.
  unfold mapEvents, uniqueLocations. rewrite scanForMap_cons.
  destruct (keptForMap_dec (snd (scanForMap newer)) e) as [Hk|Hk].
  - left. split; [done|].
    destruct (keepForMap_kept _ _ Hk) as (key & _ & ->). simpl.
    by rewrite rev_app_distr.
  - right. split; [done|]. by rewrite keepForMap_dropped.
Qed.

Lemma mapEvents_app (older rest : list Event) :
  exists pre, pre `sublist_of` older
              /\ mapEvents (older ++ rest) = pre ++ mapEvents rest.
Proof.
  induction older as [|o older (pre & Hsub & IH)].
  - by exists [].
  - simpl. destruct (mapEvents_cons o (older ++ rest)) as [[_ ->]|[_ ->]];
      rewrite IH.
    + exists (o :: pre). split; [by apply sublist_skip|done].
    + exists pre. split; [by apply sublist_cons|done].
Qed.

Lemma mapEvents_sublist (l : list Event) : mapEvents l `sublist_of` l.
Proof.
  destruct (mapEvents_app l []) as (pre & Hsub & H).
  rewrite app_nil_r in H. rewrite H. change (mapEvents []) with (@nil Event).
  by rewrite app_nil_r.
Qed.

Lemma size_keepForMap (acc : list Event * gset string) (e : Event) :
  (size (snd acc) <= MAX_MAP_CIRCLES)%nat ->
  (size (snd (keepForMap acc e)) <= MAX_MAP_CIRCLES)%nat.
Proof.
  intros Hacc. destruct (keptForMap_dec (snd acc) e) as [Hk|Hk].
  - destruct (keepForMap_kept _ _ Hk) as (key & Hkey & ->). simpl.
    destruct Hk as (key' & Hkey' & Hsel).
    assert (key' = key) as -> by congruence.
    destruct (decide (key ∈ snd acc)) as [Hin|Hnin].
    + by rewrite (subseteq_union_1_L {[key]} (snd acc))
        by by apply singleton_subseteq_l.
    + destruct Hsel as [Hsize|?]; [|done].
      rewrite size_union by set_solver. rewrite size_singleton. lia.
  - by rewrite keepForMap_dropped.
Qed.

Lemma size_uniqueLocations (l : list Event) :
  (size (uniqueLocations l) <= MAX_MAP_CIRCLES)%nat.
Proof.
  unfold uniqueLocations.
  induction l as [|e l IH].
  - unfold scanForMap. cbn [rev foldl snd]. rewrite size_empty.
    unfold MAX_MAP_CIRCLES. lia.
  - rewrite scanForMap_cons. by apply size_keepForMap.
Qed.

Lemma StronglySorted_sublist {A} (R : relation A) (l1 l2 : list A) :
  l1 `sublist_of` l2 -> StronglySorted R l2 -> StronglySorted R l1.
Proof.
  induction 1 as [|x l1 l2 Hsub IH|x l1 l2 Hsub IH]; intros Hs; [done|..].
  - apply StronglySorted_inv in Hs as [Hs Hall].
    constructor; [by apply IH|].
    rewrite Forall_forall in *. intros y Hy. apply Hall.
    by eapply elem_of_sublist.
  - apply StronglySorted_inv in Hs as [Hs _]. by apply IH.
Qed.

End MapRestoration.

(** C8 (as the code has it). The events restored on the map. An event is
    selected exactly when it has a location key and, among the keys kept
    from the newer events, either fewer than 200 are kept or its own key
    is. The key is the coordinate pair when both coordinates are truthy,
    that is present and not 0; otherwise it is the source address, and an
    event without a truthy address either is skipped. The selection keeps
    the order of the cached events, so it is chronological when they are,
    and the set of kept keys never has more than 200 elements. *)
Theorem mapEvents_bounded_uniqueness (older newer : list Event) (e : Event) :
  let cachedEvents := older ++ e :: newer in
  let kept := Dashboard.uniqueLocations newer in
  (exists pre,
     pre `sublist_of` older
     /\ ((Dashboard.keptForMap kept e
          /\ Dashboard.mapEvents cachedEvents
             = pre ++ e :: Dashboard.mapEvents newer)
         \/ (~ Dashboard.keptForMap kept e
             /\ Dashboard.mapEvents cachedEvents
                = pre ++ Dashboard.mapEvents newer)))
  /\ Dashboard.mapEvents cachedEvents `sublist_of` cachedEvents
  /\ (StronglySorted Dashboard.chronological cachedEvents ->
      StronglySorted Dashboard.chronological
        (Dashboard.mapEvents cachedEvents))
  /\ (size (Dashboard.uniqueLocations cachedEvents) <= 200)%nat
  /\ (forall lat lng,
        source_lat e = Some lat -> source_lng e = Some lng ->
        lat <> 0 -> lng <> 0 ->
        Dashboard.locationKey e = Some (pretty lat +:+ "," +:+ pretty lng))
  /\ (source_lat e = None \/ source_lng e = None
      \/ source_lat e = Some 0 \/ source_lng e = Some 0 ->
      Dashboard.locationKey e
      = if Js.truthyS (Js.orS (source_ip e) (ip e))
        then Js.orS (source_ip e) (ip e) else None).
Proof.
  intros cachedEvents kept.
  split; [|split; [|split; [|split; [|split]]]].
  - destruct (mapEvents_app older (e :: newer)) as (pre & Hsub & Happ).
    exists pre. split; [done|]. unfold cachedEvents. rewrite Happ.
    destruct (mapEvents_cons e newer) as [[Hk ->]|[Hk ->]]; [by left|by right].
  - apply mapEvents_sublist.
  - apply StronglySorted_sublist, mapEvents_sublist.
  - apply size_uniqueLocations.
  - intros lat lng Hlat Hlng Hlat0 Hlng0. unfold Dashboard.locationKey.
    rewrite Hlat, Hlng. simpl.
    destruct (Z.eqb_spec lat 0); [done|]. by destruct (Z.eqb_spec lng 0).
  - unfold Dashboard.locationKey.
    by intros [-> | [-> | [-> | ->]]]; rewrite ?andb_false_r.
Qed.

(** Two events from two addresses, in chronological order: both are
    restored, in that order. *)
Lemma mapEvents_bounded_uniqueness_witness :
  let e1 := Scenario.fromAddress 1 in
  let e2 := Scenario.fromAddress 2 in
  StronglySorted Dashboard.chronological (Dashboard.mapEvents [e1; e2])
  /\ Dashboard.locationKey e2 = Some "2".
Proof.
  intros e1 e2.
  destruct (mapEvents_bounded_uniqueness [e1] [] e2)
    as (_ & _ & Hsorted & _ & _ & Hkey).
  split.
  - apply Hsorted. repeat constructor. vm_compute. discriminate.
  - exact (Hkey (or_introl eq_refl)).
Defined.

(** C8 (as stated). An event on the equator has both coordinates, yet its
    key is its address. In front of 200 newer events from 200 addresses,
    its own among them, it is selected, although 200 keys are kept and the
    coordinate pair is not one of them. The message it came from reached
    the dashboard, and the map script keyed the circle of its source by the
    coordinate pair. *)
Lemma locationKey_zero_latitude :
  let e := Scenario.onEquator in
  let newer := List.map Scenario.fromAddress (seq 1 200) in
  source_lat e = Some 0 /\ source_lng e = Some 10
  /\ Dashboard.locationKey e = Some "1"
  /\ size (Dashboard.uniqueLocations newer) = 200%nat
  /\ ("0,10"%string ∉ Dashboard.uniqueLocations newer)
  /\ head (Dashboard.mapEvents (e :: newer)) = Some e
  /\ reachesDashboard e = true
  /\ MapScript.srcKey e = "0,10"%string.
Proof.
  intros e newer.
  split; [done|]. split; [done|]. split; [by vm_compute|].
  split; [by vm_compute|]. split; [|by vm_compute].
  intros Hin. apply (bool_decide_eq_true_2 _) in Hin.
  vm_compute in Hin. discriminate.
Qed.

(** 201 events from 201 addresses, then a second event from the oldest of
    them put at the newest end: the 200 newest keys are kept, so of the
    first 201 events the oldest but one is dropped, while the oldest one is
    restored because its key is kept from the newest event. *)
Example mapEvents_cap :
  let l := List.map Scenario.fromAddress (seq 0 201) ++ [Scenario.fromAddress 0] in
  length (Dashboard.mapEvents l) = 201%nat
  /\ size (Dashboard.uniqueLocations l) = 200%nat
  /\ head (Dashboard.mapEvents l) = Some (Scenario.fromAddress 0)
  /\ Dashboard.mapEvents l !! 1%nat = Some (Scenario.fromAddress 2).
Proof. by vm_compute. Qed.

(** ** Behaviour of the two backends at the limits *)

Lemma storeAll_IndexedDB (calls : list (Z * Event)) (records : list Event) :
  AttackCache.storeAll calls (AttackCache.IndexedDB records)
  = AttackCache.IndexedDB
      (records
       ++ List.map (fun c => AttackCache.eventToStore (fst c) (snd c)) calls).
Proof.
  unfold AttackCache.storeAll. revert records.
  induction calls as [|c calls IH]; intros records; simpl.
  - by rewrite app_nil_r.
  - unfold AttackCache.storeEventIndexedDB. rewrite IH.
    by rewrite <- app_assoc.
Qed.

Lemma burst_recent (n : nat) (now : Z) :
  now - AttackCache.retentionPeriod < Scenario.t0 ->
  Forall (fun e => exists t, timestamp e = Some t
                             /\ now - AttackCache.retentionPeriod < t)
    (List.map (fun c => AttackCache.eventToStore (fst c) (snd c))
       (Scenario.burst n)).
Proof.
  intros Hnow. unfold Scenario.burst. rewrite Forall_forall.
  intros e [c [-> [i [-> Hi]]%list_elem_of_fmap]]%list_elem_of_fmap.
  exists (Scenario.t0 + Z.of_nat i). simpl. split; [|lia].
  unfold Js.orZ. by destruct (Js.truthyZ _).
Qed.

Lemma storeAll_LocalStorage (calls : list (Z * Event))
    (doc : AttackCache.CacheDoc) :
  exists doc', AttackCache.storeAll calls (AttackCache.LocalStorage doc)
               = AttackCache.LocalStorage doc'.
Proof.
  unfold AttackCache.storeAll. revert doc.
  induction calls as [|c l IH]; intros doc; [by exists doc|]. apply IH.
Qed.

Lemma cleanup_after_burst (n : nat) (now : Z) :
  now - AttackCache.retentionPeriod < Scenario.t0 ->
  length (AttackCache.stored
     (AttackCache.cleanup now
        (AttackCache.storeAll (Scenario.burst n) (AttackCache.IndexedDB []))))
  = n
  /\ (length (AttackCache.stored
     (AttackCache.cleanup now
        (AttackCache.storeAll (Scenario.burst n)
           (AttackCache.LocalStorage (AttackCache.emptyCache Scenario.t0)))))
      <= AttackCache.maxEvents)%nat.
Proof.
  intros Hnow. split.
  - rewrite storeAll_IndexedDB.
    unfold AttackCache.cleanup, AttackCache.stored.
    rewrite app_nil_l, cleanupIndexedDB_keeps_recent by by apply burst_recent.
    unfold Scenario.burst. by rewrite !length_map, length_seq.
  - destruct (storeAll_LocalStorage (Scenario.burst n)
                (AttackCache.emptyCache Scenario.t0)) as [doc' ->].
    apply cleanupLocalStorage_cap.
Qed.

(** C1. After 10,001 calls of [storeEvent] with fresh events and a
    [cleanup] twenty seconds later, the indexed backend still holds all
    10,001 records, above [maxEvents]; the fallback backend, given the same
    calls, holds no more than [maxEvents]. *)
Theorem cleanupIndexedDB_exceeds_maxEvents :
  let calls := Scenario.burst (Z.to_nat 10001) in
  let now := Scenario.t0 + 20000 in
  Z.of_nat (length (AttackCache.stored
     (AttackCache.cleanup now
        (AttackCache.storeAll calls (AttackCache.IndexedDB []))))) = 10001
  /\ Z.of_nat AttackCache.maxEvents = 10000
  /\ (length (AttackCache.stored
     (AttackCache.cleanup now
        (AttackCache.storeAll calls
           (AttackCache.LocalStorage (AttackCache.emptyCache Scenario.t0)))))
      <= AttackCache.maxEvents)%nat.
Proof.
  intros calls now.
  assert (now - AttackCache.retentionPeriod < Scenario.t0) as Hnow by done.
  destruct (cleanup_after_burst (Z.to_nat 10001) now Hnow) as [Hidb Hls].
  split; [|split].
  - fold calls in Hidb. rewrite Hidb. apply Z2Nat.id. done.
  - unfold AttackCache.maxEvents. apply Z2Nat.id. done.
  - exact Hls.
Qed.

(** C7. An event whose time is exactly [now - retentionPeriod] is returned
    by the indexed backend, whose key range is closed at the cutoff; the
    fallback backend leaves it out, and [cleanup] on the indexed backend
    deletes it. *)
Theorem getStoredEventsIndexedDB_includes_cutoff :
  let now := Scenario.t0 in
  let e := Scenario.boundaryEvent now in
  AttackCache.getStoredEvents now (AttackCache.IndexedDB [e]) = [e]
  /\ AttackCache.getStoredEvents now
       (AttackCache.LocalStorage (AttackCache.mkDoc [e] None None)) = []
  /\ AttackCache.cleanup now (AttackCache.IndexedDB [e])
     = AttackCache.IndexedDB [].
Proof. repeat split; vm_compute; reflexivity. Qed.

(** ** The dashboard: event objects, the cache gate, replay *)

Section DashboardProperties.

Import Dashboard.

Variable localTZA : Z -> Z.


(** *** What [addAttackEvent] does to the event object *)

Lemma addAttackEvent_objects (now : Z) (r : nat) (d : State) (e : Event) :
  objects d !! r = Some e ->
  objects (Dashboard.addAttackEvent localTZA now r d)
  = <[r := set_timestamp (Some now) e]> (objects d).
Proof.
  intros He. unfold Dashboard.addAttackEvent. by rewrite He.
Qed.

Lemma addAttackEvent_cache (now : Z) (r : nat) (d : State) (e : Event) :
  objects d !! r = Some e ->
  attackCache (Dashboard.addAttackEvent localTZA now r d)
  = if cacheInitialized d && negb (restoringFromCache d)
    then AttackCache.storeEvent now (set_timestamp (Some now) e)
           (attackCache d)
    else attackCache d.
Proof.
  intros He. unfold Dashboard.addAttackEvent. by rewrite He.
Qed.

Lemma addAttackEvent_flags (now : Z) (r : nat) (d : State) :
  restoringFromCache (Dashboard.addAttackEvent localTZA now r d) = restoringFromCache d
  /\ cacheInitialized (Dashboard.addAttackEvent localTZA now r d) = cacheInitialized d
  /\ timelineInterval (Dashboard.addAttackEvent localTZA now r d) = timelineInterval d.
Proof.
  unfold Dashboard.addAttackEvent. by destruct (objects d !! r).
Qed.

Lemma processAttackForDashboard_frame (now : Z) (r : nat) (d : State) :
  let d' := processAttackForDashboard now r d in
  attackCache d' = attackCache d
  /\ restoringFromCache d' = restoringFromCache d
  /\ cacheInitialized d' = cacheInitialized d
  /\ timelineInterval d' = timelineInterval d
  /\ aggregates d' = aggregates d
  /\ exists copies, objects d' = objects d ++ copies.
Proof.
  unfold processAttackForDashboard. destruct (objects d !! r).
  - repeat split; try done. by eexists [_].
  - repeat split; try done. exists []. by rewrite app_nil_r.
Qed.

Lemma Traffic_unfold (now : Z) (msg : Event) (d : State) :
  reachesDashboard msg = true ->
  Dashboard.Traffic localTZA now msg d
  = processAttackForDashboard now (length (objects d))
      (Dashboard.addAttackEvent localTZA now (length (objects d))
         (set_objects (objects d ++ [set_timestamp (Some now) msg]) d)).
Proof. intros H. unfold Dashboard.Traffic. by rewrite H. Qed.

Lemma Traffic_dropped (now : Z) (msg : Event) (d : State) :
  reachesDashboard msg = false -> Dashboard.Traffic localTZA now msg d = d.
Proof. intros H. unfold Dashboard.Traffic. by rewrite H. Qed.

Lemma Traffic_cache (now : Z) (msg : Event) (d : State) :
  attackCache (Dashboard.Traffic localTZA now msg d)
  = if reachesDashboard msg
       && (cacheInitialized d && negb (restoringFromCache d))
    then AttackCache.storeEvent now (set_timestamp (Some now) msg)
           (attackCache d)
    else attackCache d.
Proof.
  destruct (reachesDashboard msg) eqn:Hmsg;
    [|by rewrite Traffic_dropped]. cbn [andb].
  rewrite Traffic_unfold by done.
  destruct (processAttackForDashboard_frame now (length (objects d))
    (Dashboard.addAttackEvent localTZA now (length (objects d))
       (set_objects (objects d ++ [set_timestamp (Some now) msg]) d)))
    as (-> & _).
  rewrite (addAttackEvent_cache _ _ _ (set_timestamp (Some now) msg)).
  - done.
  - cbn. by rewrite list_lookup_middle.
Qed.

Lemma Traffic_flags (now : Z) (msg : Event) (d : State) :
  restoringFromCache (Dashboard.Traffic localTZA now msg d)
  = restoringFromCache d
  /\ cacheInitialized (Dashboard.Traffic localTZA now msg d)
     = cacheInitialized d
  /\ timelineInterval (Dashboard.Traffic localTZA now msg d)
     = timelineInterval d.
Proof.
  destruct (reachesDashboard msg) eqn:Hmsg;
    [|by rewrite Traffic_dropped].
  rewrite Traffic_unfold by done.
  destruct (processAttackForDashboard_frame now (length (objects d))
    (Dashboard.addAttackEvent localTZA now (length (objects d))
       (set_objects (objects d ++ [set_timestamp (Some now) msg]) d)))
    as (_ & -> & -> & -> & _).
  destruct (addAttackEvent_flags now (length (objects d))
    (set_objects (objects d ++ [set_timestamp (Some now) msg]) d))
    as (-> & -> & ->).
  done.
Qed.

(** *** What reaches the cache *)

Lemma stored_storeEvent (now : Z) (e x : Event) (b : AttackCache.Backend) :
  x ∈ AttackCache.stored (AttackCache.storeEvent now e b) ->
  x ∈ AttackCache.stored b \/ x = AttackCache.eventToStore now e.
Proof.
  destruct b as [records|doc]; simpl.
  - unfold AttackCache.storeEventIndexedDB.
    rewrite elem_of_app, list_elem_of_singleton. tauto.
  - intros Hx.
    assert (x ∈ AttackCache.events doc ++ [AttackCache.eventToStore now e])
      as Hin.
    { destruct (decide _); [|done].
      unfold Js.sliceLast in Hx. by apply subseteq_drop in Hx. }
    revert Hin. rewrite elem_of_app, list_elem_of_singleton. tauto.
Qed.

Lemma stored_cleanup (now : Z) (x : Event) (b : AttackCache.Backend) :
  x ∈ AttackCache.stored (AttackCache.cleanup now b) ->
  x ∈ AttackCache.stored b.
Proof.
  destruct b as [records|doc]; simpl.
  - unfold AttackCache.cleanupIndexedDB. rewrite elem_of_filter_bool. tauto.
  - intros Hx.
    assert (x ∈ List.filter
              (AttackCache.withinRetention (now - AttackCache.retentionPeriod))
              (AttackCache.events doc)) as Hin.
    { destruct (decide _); [|done].
      unfold Js.sliceLast in Hx. by apply subseteq_drop in Hx. }
    apply elem_of_filter_bool in Hin. tauto.
Qed.

(** One operation adds nothing to the cache but the copy of its own
    event. *)
Lemma stored_apply (op : Op) (d : State) (x : Event) :
  x ∈ AttackCache.stored (attackCache (Dashboard.apply localTZA op d)) ->
  x ∈ AttackCache.stored (attackCache d)
  \/ x ∈ Dashboard.written localTZA [op] d.
Proof.
  destruct op as [now msg|now event|now cached| |now|now|now]; simpl.
  - rewrite Traffic_cache, app_nil_r.
    destruct (reachesDashboard msg
              && (cacheInitialized d && negb (restoringFromCache d)));
      [|tauto].
    intros [?| ->]%stored_storeEvent; [tauto|].
    right. apply list_elem_of_here.
  - tauto.
  - tauto.
  - tauto.
  - unfold beginRestore. destruct (cachedSorted _ _); tauto.
  - intros ?%stored_cleanup. tauto.
  - tauto.
Qed.

Lemma written_cons (op : Op) (ops : list Op) (d : State) :
  Dashboard.written localTZA (op :: ops) d
  = Dashboard.written localTZA [op] d
    ++ Dashboard.written localTZA ops (Dashboard.apply localTZA op d).
Proof. simpl. by rewrite app_nil_r. Qed.

(** Every record in the cache after a run was there before, or is the copy
    made for a [Traffic] message that arrived with the gate open. *)
Lemma stored_run (ops : list Op) (d : State) (x : Event) :
  x ∈ AttackCache.stored (attackCache (Dashboard.run localTZA ops d)) ->
  x ∈ AttackCache.stored (attackCache d)
  \/ x ∈ Dashboard.written localTZA ops d.
Proof.
  revert d. induction ops as [|op ops IH]; intros d; [tauto|].
  change (Dashboard.run localTZA (op :: ops) d)
    with (Dashboard.run localTZA ops (Dashboard.apply localTZA op d)).
  intros [Hx|Hx]%IH.
  - apply stored_apply in Hx as [?|?]; [tauto|].
    right. rewrite written_cons, elem_of_app. tauto.
  - right. rewrite written_cons, elem_of_app. tauto.
Qed.

(** *** Replay and live ingestion *)

Lemma truthy_timestamp (e : Event) :
  Js.truthyZ (timestamp e) = true ->
  timestamp e = Some (timestampOr0 e).
Proof. unfold Js.truthyZ, timestampOr0. by destruct (timestamp e). Qed.

Lemma set_timestamp_same (e : Event) :
  Js.truthyZ (timestamp e) = true ->
  set_timestamp (Some (timestampOr0 e)) e = e.
Proof.
  intros H. rewrite <- (truthy_timestamp e H). by destruct e.
Qed.

Lemma attackTimeOf_truthy (now : Z) (e : Event) :
  Js.truthyZ (timestamp e) = true ->
  Timeline.attackTimeOf now e = timestampOr0 e.
Proof.
  intros H. unfold Timeline.attackTimeOf, Js.orZ at 1. rewrite H.
  unfold timestampOr0. by destruct (timestamp e).
Qed.

Lemma addAttackToTimeline_truthy (i : Timeline.Interval) (now now' : Z)
    (e : Event) (tl : list Timeline.Point) :
  Js.truthyZ (timestamp e) = true ->
  Timeline.addAttackToTimeline i now e tl
  = Timeline.addAttackToTimeline i now' e tl.
Proof.
  intros H. unfold Timeline.addAttackToTimeline.
  by rewrite !(attackTimeOf_truthy _ e H).
Qed.

Lemma addAttackToHeatmap_truthy (now now' : Z) (e : Event)
    (hm : list Heatmap.Slot) :
  Js.truthyZ (timestamp e) = true ->
  Heatmap.addAttackToHeatmap localTZA now e hm
  = Heatmap.addAttackToHeatmap localTZA now' e hm.
Proof.
  intros H. unfold Heatmap.addAttackToHeatmap, Js.orZ. rewrite H.
  by destruct (timestamp e).
Qed.

Lemma seenAt_truthy (now now' : Z) (e : Event) :
  Js.truthyZ (timestamp e) = true -> seenAt now e = seenAt now' e.
Proof.
  intros H. unfold seenAt. rewrite H. by destruct (timestamp e).
Qed.

Lemma updateIPTracking_truthy (now now' : Z) (addr ctry : option string)
    (e : Event) (stats : list (string * IpStats)) :
  Js.truthyZ (timestamp e) = true ->
  updateIPTracking now addr ctry e stats
  = updateIPTracking now' addr ctry e stats.
Proof.
  intros H. unfold updateIPTracking. by rewrite (seenAt_truthy now now' e H).
Qed.

Lemma updateCountryTracking_truthy (now now' : Z) (ctry : option string)
    (e : Event) (stats : list (string * CountryStats)) :
  Js.truthyZ (timestamp e) = true ->
  updateCountryTracking now ctry e stats
  = updateCountryTracking now' ctry e stats.
Proof.
  intros H. unfold updateCountryTracking.
  by rewrite (seenAt_truthy now now' e H).
Qed.

(** The aggregates after [addAttackEvent] are those of one iteration of the
    replay loop, for an event with a truthy time and an [ip]. *)
Lemma addAttackEvent_replayEvent (now now' : Z) (r : nat) (d1 d2 : State)
    (e : Event) :
  objects d2 !! r = Some e ->
  timestamp e = Some now ->
  now <> 0 ->
  Js.orS (ip e) (source_ip e) = ip e ->
  aggregates d1 = aggregates d2 ->
  timelineInterval d1 = timelineInterval d2 ->
  aggregates (Dashboard.replayEvent localTZA now' d1 e)
  = aggregates (Dashboard.addAttackEvent localTZA now r d2).
Proof.
  intros Hr Hts Hnow Hip Hagg Hint.
  assert (Js.truthyZ (timestamp e) = true) as Htruthy.
  { rewrite Hts. simpl. by destruct (Z.eqb_spec now 0). }
  assert (set_timestamp (Some now) e = e) as Hsame.
  { rewrite <- Hts. by destruct e. }
  unfold Dashboard.addAttackEvent. rewrite Hr, Hsame.
  unfold aggregates in *. injection Hagg as Hi Hc Ht Hh Hp.
  unfold Dashboard.replayEvent, updateLiveAttackDisplay,
    Dashboard.addAttackToTimeline, Dashboard.addAttackToHeatmap.
  cbn [ipStats countryTrackingStats timelineData heatmapData protocolStats
       timelineInterval set_ipStats set_countryTrackingStats
       set_timelineData set_heatmapData set_protocolStats set_attackHistory
       set_attackCache set_objects].
  rewrite Hi, Hc, Ht, Hh, Hp, Hint, Hip.
  rewrite (addAttackToTimeline_truthy _ now' now e _ Htruthy).
  rewrite (addAttackToHeatmap_truthy now' now e _ Htruthy).
  rewrite (updateIPTracking_truthy now' now _ _ e _ Htruthy).
  by rewrite (updateCountryTracking_truthy now' now _ e _ Htruthy).
Qed.

Lemma replayAll_frame (now : Z) (events : list Event) (d : State) :
  let d' := Dashboard.replayAll localTZA now events d in
  objects d' = objects d
  /\ attackHistory d' = attackHistory d
  /\ attackCache d' = attackCache d
  /\ restoringFromCache d' = restoringFromCache d
  /\ timelineInterval d' = timelineInterval d
  /\ restoredOnMap d' = restoredOnMap d.
Proof.
  unfold Dashboard.replayAll. revert d.
  induction events as [|e l IH]; intros d; [done|]. simpl.
  destruct (IH (Dashboard.replayEvent localTZA now d e))
    as (-> & -> & -> & -> & -> & ->).
  done.
Qed.

(** Replay and [addAttackEvent] on the same events leave the same
    aggregates. *)
Lemma replayAll_ingestEach (now : Z) (events : list Event) (d1 d2 : State) :
  Forall (fun e => Js.truthyZ (timestamp e) = true
                   /\ Js.orS (ip e) (source_ip e) = ip e) events ->
  aggregates d1 = aggregates d2 ->
  timelineInterval d1 = timelineInterval d2 ->
  aggregates (Dashboard.replayAll localTZA now events d1)
  = aggregates (Dashboard.ingestEach localTZA events d2).
Proof.
  unfold Dashboard.replayAll, Dashboard.ingestEach.
  intros Hall. revert d1 d2.
  induction Hall as [|e l [Hts Hip] _ IH]; intros d1 d2 Hagg Hint; [done|].
  simpl. apply IH.
  - apply addAttackEvent_replayEvent; try done.
    + cbn. by rewrite list_lookup_middle.
    + by apply truthy_timestamp.
    + apply truthy_timestamp in Hts as Hts'. unfold Js.truthyZ in Hts.
      rewrite Hts' in Hts. by destruct (Z.eqb_spec (timestampOr0 e) 0).
  - by destruct (addAttackEvent_flags (timestampOr0 e) (length (objects d2))
                   (set_objects (objects d2 ++ [e]) d2)) as (_ & _ & ->).
Qed.

(** Replay and live ingestion through the message handler leave the same
    aggregates, for messages that reach the dashboard. *)
Lemma replayAll_ingestLive (now : Z) (events : list Event) (d1 d2 : State) :
  Forall (fun e => Js.truthyZ (timestamp e) = true
                   /\ Js.orS (ip e) (source_ip e) = ip e
                   /\ reachesDashboard e = true) events ->
  aggregates d1 = aggregates d2 ->
  timelineInterval d1 = timelineInterval d2 ->
  aggregates (Dashboard.replayAll localTZA now events d1)
  = aggregates (Dashboard.ingestLive localTZA events d2).
Proof.
  unfold Dashboard.replayAll, Dashboard.ingestLive.
  intros Hall. revert d1 d2.
  induction Hall as [|e l (Hts & Hip & Hmsg) _ IH]; intros d1 d2 Hagg Hint;
    [done|].
  simpl. apply IH.
  - rewrite Traffic_unfold by done.
    destruct (processAttackForDashboard_frame (timestampOr0 e)
      (length (objects d2))
      (Dashboard.addAttackEvent localTZA (timestampOr0 e)
         (length (objects d2))
         (set_objects
            (objects d2 ++ [set_timestamp (Some (timestampOr0 e)) e]) d2)))
      as (_ & _ & _ & _ & -> & _).
    rewrite set_timestamp_same by done.
    apply addAttackEvent_replayEvent; try done.
    + cbn. by rewrite list_lookup_middle.
    + by apply truthy_timestamp.
    + apply truthy_timestamp in Hts as Hts'. unfold Js.truthyZ in Hts.
      rewrite Hts' in Hts. by destruct (Z.eqb_spec (timestampOr0 e) 0).
  - destruct (Traffic_flags (timestampOr0 e) e d2) as (_ & _ & ->).
    done.
Qed.

(** *** The batches of the restore *)

Lemma replayEvent_frame (now : Z) (d : State) (e : Event) :
  let d' := Dashboard.replayEvent localTZA now d e in
  objects d' = objects d
  /\ attackHistory d' = attackHistory d
  /\ attackCache d' = attackCache d
  /\ restoringFromCache d' = restoringFromCache d
  /\ timelineInterval d' = timelineInterval d
  /\ restoredOnMap d' = restoredOnMap d.
Proof. done. Qed.

Lemma replayEvent_truthy (now now' : Z) (d : State) (e : Event) :
  Js.truthyZ (timestamp e) = true ->
  Dashboard.replayEvent localTZA now d e
  = Dashboard.replayEvent localTZA now' d e.
Proof.
  intros H. unfold Dashboard.replayEvent, Dashboard.addAttackToTimeline,
    Dashboard.addAttackToHeatmap.
  cbn [ipStats countryTrackingStats timelineData heatmapData protocolStats
       timelineInterval set_ipStats set_countryTrackingStats
       set_timelineData set_heatmapData set_protocolStats].
  rewrite (addAttackToTimeline_truthy _ now now' e _ H).
  rewrite (addAttackToHeatmap_truthy now now' e _ H).
  rewrite (updateIPTracking_truthy now now' _ _ e _ H).
  by rewrite (updateCountryTracking_truthy now now' _ e _ H).
Qed.

Lemma replayAll_truthy (now now' : Z) (events : list Event) (d : State) :
  Forall (fun e => Js.truthyZ (timestamp e) = true) events ->
  Dashboard.replayAll localTZA now events d
  = Dashboard.replayAll localTZA now' events d.
Proof.
  unfold Dashboard.replayAll. intros Hall. revert d.
  induction Hall as [|e l He _ IH]; intros d; [done|]. simpl.
  by rewrite IH, (replayEvent_truthy now now' d e He).
Qed.

Lemma replayAll_app (now : Z) (l1 l2 : list Event) (d : State) :
  Dashboard.replayAll localTZA now (l1 ++ l2) d
  = Dashboard.replayAll localTZA now l2
      (Dashboard.replayAll localTZA now l1 d).
Proof. unfold Dashboard.replayAll. apply foldl_app. Qed.

Lemma deref_ext (d d' : State) (refs : list nat) :
  objects d' = objects d -> deref d' refs = deref d refs.
Proof. intros H. unfold deref. by rewrite H. Qed.

(** The loop over references is the loop over the objects they name: no
    iteration changes an object. *)
Lemma replayObjects (now : Z) (refs : list nat) (d : State) :
  Forall (fun r => is_Some (objects d !! r)) refs ->
  foldl (Dashboard.replayObject localTZA now) d refs
  = Dashboard.replayAll localTZA now (deref d refs) d.
Proof.
  unfold Dashboard.replayAll. intros Hall. revert d Hall.
  induction refs as [|r refs IH]; intros d Hall; [done|].
  apply Forall_cons in Hall as [[e He] Hall].
  unfold deref. csimpl. rewrite He. csimpl.
  unfold Dashboard.replayObject at 2. rewrite He.
  rewrite IH by done. done.
Qed.

Lemma deref_seq (pre l post : list Event) (d : State) :
  objects d = pre ++ l ++ post ->
  deref d (seq (length pre) (length l)) = l
  /\ Forall (fun r => is_Some (objects d !! r)) (seq (length pre) (length l)).
Proof.
  intros Hobj. unfold deref. rewrite Hobj. clear Hobj. revert pre.
  induction l as [|x l IH]; intros pre; [by split|].
  destruct (IH (pre ++ [x])) as [IH1 IH2].
  rewrite length_app, Nat.add_1_r, <- !app_assoc in IH1, IH2.
  simpl in IH1, IH2. cbn [length seq].
  change ((x :: l) ++ post) with (x :: (l ++ post)). split.
  - csimpl. rewrite list_lookup_middle by done. csimpl. by rewrite IH1.
  - constructor; [|done]. rewrite list_lookup_middle by done. by eexists.
Qed.

Lemma callbacks_nil (d : State) : Dashboard.callbacks localTZA [] d = d.
Proof. done. Qed.

(** When no callback runs between the batches and the animation frames
    keep coming, the batches together are the replay loop over all cached
    events, and [finalizeRestoration] follows at the time of the last
    batch. *)
Lemma runBatches_quiet (frames : list (list Callback * Z)) (now : Z)
    (refs : list nat) (p : nat) (d : State) :
  Forall (fun r => is_Some (objects d !! r)) refs ->
  Forall (fun e => Js.truthyZ (timestamp e) = true) (deref d refs) ->
  Forall (fun f => fst f = []) frames ->
  (length refs - p <= S (length frames) * BATCH_SIZE)%nat ->
  exists t,
    t ∈ now :: List.map snd frames
    /\ Dashboard.runBatches localTZA now refs p frames d
       = finalizeRestoration t (deref d refs)
           (Dashboard.replayAll localTZA now (deref d (drop p refs)) d).
Proof.
  unfold BATCH_SIZE. intros Hrefs Htruthy Hquiet. revert now p d Hrefs Htruthy.
  induction Hquiet as [|f frames Hf _ IH]; intros now p d Hrefs Htruthy Hlen;
    cbn [Dashboard.runBatches]; unfold Dashboard.processBatch, BATCH_SIZE;
    cbn [fst snd].
  - cbn [length] in Hlen. rewrite Nat.min_r by lia.
    destruct (Nat.ltb_spec (length refs) (length refs)); [lia|].
    exists now. split; [apply list_elem_of_here|].
    rewrite take_ge by (rewrite length_drop; lia).
    rewrite replayObjects by by apply Forall_drop.
    destruct (replayAll_frame now (deref d (drop p refs)) d)
      as (Hobj & _).
    by rewrite (deref_ext _ _ _ Hobj).
  - destruct (decide (p + 500 < length refs)%nat) as [Hlt|Hge].
    + rewrite Nat.min_l by lia.
      destruct (Nat.ltb_spec (p + 500) (length refs)); [|lia].
      rewrite Hf, callbacks_nil.
      replace (p + 500 - p)%nat with 500%nat by lia.
      rewrite replayObjects by by apply Forall_take, Forall_drop.
      set (d' := Dashboard.replayAll localTZA now
                   (deref d (take 500 (drop p refs))) d).
      destruct (replayAll_frame now
                  (deref d (take 500 (drop p refs))) d) as (Hobj & _).
      fold d' in Hobj.
      destruct (IH (snd f) (p + 500)%nat d') as (t & Ht & ->).
      * by rewrite Hobj.
      * by rewrite (deref_ext _ _ _ Hobj).
      * cbn [length] in Hlen. lia.
      * exists t. split; [by apply list_elem_of_further|].
        rewrite !(deref_ext _ _ _ Hobj). f_equal.
        assert (Forall (fun e => Js.truthyZ (timestamp e) = true)
                  (deref d (drop (p + 500) refs))) as Htr.
        { rewrite Forall_forall in *. intros e He. apply Htruthy.
          unfold deref in *. apply list_elem_of_omap in He as (r & Hr & He).
          apply list_elem_of_omap. exists r. split; [|done].
          by apply subseteq_drop in Hr. }
        rewrite (replayAll_truthy (snd f) now _ _ Htr). unfold d'.
        rewrite <- replayAll_app. f_equal. unfold deref.
        rewrite <- omap_app. f_equal.
        rewrite <- (drop_drop refs 500 p). by rewrite take_drop.
    + rewrite Nat.min_r by lia.
      destruct (Nat.ltb_spec (length refs) (length refs)); [lia|].
      exists now. split; [apply list_elem_of_here|].
      rewrite take_ge by (rewrite length_drop; lia).
      rewrite replayObjects by by apply Forall_drop.
      destruct (replayAll_frame now (deref d (drop p refs)) d)
        as (Hobj & _).
      by rewrite (deref_ext _ _ _ Hobj).
Qed.

Lemma beginRestore_frame (now : Z) (d : State) :
  let d' := beginRestore now d in
  aggregates d' = aggregates d
  /\ timelineInterval d' = timelineInterval d
  /\ attackCache d' = attackCache d
  /\ restoringFromCache d' = true
  /\ restoredOnMap d' = restoredOnMap d
  /\ exists copies, objects d' = objects d ++ copies.
Proof.
  unfold beginRestore. cbn [cachedSorted attackCache set_restoringFromCache].
  destruct (cachedSorted now _).
  - repeat split; try done. exists []. by rewrite app_nil_r.
  - repeat split; try done. by eexists.
Qed.

(** The objects that the start of a restore creates: the events read, then
    their copies for the history. *)
Lemma beginRestore_objects (now : Z) (d : State) :
  cachedSorted now d <> [] ->
  objects (beginRestore now d)
  = objects d ++ cachedSorted now d
    ++ List.map (set_restored true) (cachedSorted now d).
Proof.
  intros Hne. unfold beginRestore.
  change (cachedSorted now (set_restoringFromCache true d))
    with (cachedSorted now d).
  by destruct (cachedSorted now d).
Qed.

(** Without other callbacks in between, [restoreFromCache] is the replay
    loop over all cached events followed by [finalizeRestoration]. *)
Lemma restoreFromCache_unfold (now : Z) (frames : list (list Callback * Z))
    (d : State) :
  cachedSorted now d <> [] ->
  Forall (fun e => Js.truthyZ (timestamp e) = true) (cachedSorted now d) ->
  Forall (fun f => fst f = []) frames ->
  (length (cachedSorted now d) <= S (length frames) * BATCH_SIZE)%nat ->
  exists t,
    t ∈ now :: List.map snd frames
    /\ Dashboard.restoreFromCache localTZA now frames d
       = finalizeRestoration t (cachedSorted now d)
           (Dashboard.replayAll localTZA now (cachedSorted now d)
              (beginRestore now d)).
Proof.
  intros Hne Htruthy Hquiet Hlen.
  pose proof (beginRestore_objects now d Hne) as Hobj.
  destruct (deref_seq _ _ _ _ Hobj) as [Hderef Hrefs].
  destruct (runBatches_quiet frames now
              (seq (length (objects d)) (length (cachedSorted now d))) 0
              (beginRestore now d)) as (t & Ht & Hrun); try done.
  - by rewrite Hderef.
  - rewrite length_seq. lia.
  - exists t. split; [done|].
    unfold Dashboard.restoreFromCache.
    destruct (cachedSorted now d) as [|e l] eqn:Hl; [done|].
    rewrite Hrun, drop_0. by rewrite Hderef.
Qed.

(** *** The events read back from the cache *)

Lemma getStoredEvents_truthy (now : Z) (b : AttackCache.Backend) (e : Event) :
  AttackCache.retentionPeriod < now ->
  e ∈ AttackCache.getStoredEvents now b ->
  Js.truthyZ (timestamp e) = true.
Proof.
  intros Hnow. destruct b as [records|doc]; simpl.
  - intros (_ & t & Ht & Hle)%getStoredEventsIndexedDB_spec.
    rewrite Ht. simpl. destruct (Z.eqb_spec t 0); [lia|done].
  - intros (_ & t & Ht & Hne & _)%getStoredEventsLocalStorage_spec.
    rewrite Ht. simpl. by destruct (Z.eqb_spec t 0).
Qed.

Lemma insertBy_sorted {A} (key : A -> Z) (x : A) (l : list A) :
  StronglySorted (fun a b => key a <= key b) l ->
  StronglySorted (fun a b => key a <= key b) (Js.insertBy key x l).
Proof.
  induction 1 as [|y l Hs IH Hall]; simpl; [by repeat constructor|].
  destruct (Z.leb_spec (key x) (key y)).
  - constructor; [by constructor|]. constructor; [done|].
    eapply Forall_impl; [exact Hall|]. simpl. lia.
  - constructor; [done|]. rewrite insertBy_Permutation.
    constructor; [lia|done].
Qed.

Lemma sortBy_sorted {A} (key : A -> Z) (l : list A) :
  StronglySorted (fun a b => key a <= key b) (Js.sortBy key l).
Proof.
  induction l as [|x l IH]; [constructor|]. by apply insertBy_sorted.
Qed.

Lemma last_in_sliceLast {A} (n : nat) (l : list A) (x : A) :
  (1 <= n)%nat -> x ∈ Js.sliceLast n (l ++ [x]).
Proof.
  intros Hn. unfold Js.sliceLast. rewrite length_app. simpl.
  rewrite drop_app_le by lia. apply elem_of_app. right.
  apply list_elem_of_here.
Qed.

Lemma storeEvent_stores_copy (now : Z) (e : Event) (b : AttackCache.Backend) :
  AttackCache.eventToStore now e
  ∈ AttackCache.stored (AttackCache.storeEvent now e b).
Proof.
  destruct b as [records|doc]; simpl.
  - unfold AttackCache.storeEventIndexedDB. apply elem_of_app. right.
    apply list_elem_of_here.
  - destruct (decide _).
    + apply last_in_sliceLast. unfold AttackCache.maxEvents. lia.
    + apply elem_of_app. right. apply list_elem_of_here.
Qed.

Lemma limitHistory_keeps_last (history : list nat) (r : nat) :
  r ∈ limitHistory (history ++ [r]).
Proof.
  unfold limitHistory.
  destruct (Nat.ltb_spec 1000 (length (history ++ [r]))) as [Hlt|_].
  - destruct history as [|h history]; simpl.
    + simpl in Hlt. lia.
    + apply elem_of_app. right. apply list_elem_of_here.
  - apply elem_of_app. right. apply list_elem_of_here.
Qed.

(** *** Objects during a restore *)

Lemma Traffic_objects (now : Z) (msg : Event) (d : State) :
  exists created,
    objects (Dashboard.Traffic localTZA now msg d) = objects d ++ created.
Proof.
  destruct (reachesDashboard msg) eqn:Hmsg.
  - rewrite Traffic_unfold by done.
    set (e := set_timestamp (Some now) msg).
    set (d1 := set_objects (objects d ++ [e]) d).
    assert (objects d1 !! length (objects d) = Some e) as Hr.
    { unfold d1. cbn [objects set_objects]. by rewrite list_lookup_middle. }
    destruct (processAttackForDashboard_frame now (length (objects d))
                (Dashboard.addAttackEvent localTZA now (length (objects d))
                   d1)) as (_ & _ & _ & _ & _ & copies & ->).
    rewrite (addAttackEvent_objects now _ d1 e Hr).
    change (set_timestamp (Some now) e) with e.
    rewrite list_insert_id by done. unfold d1. cbn [objects set_objects].
    exists ([e] ++ copies). by rewrite app_assoc.
  - rewrite Traffic_dropped by done. exists []. by rewrite app_nil_r.
Qed.

Lemma call_objects (c : Callback) (d : State) :
  exists created,
    objects (Dashboard.call localTZA c d) = objects d ++ created.
Proof.
  destruct c as [now msg|now|now|now|now]; cbn [Dashboard.call].
  - apply Traffic_objects.
  - exists []. by rewrite app_nil_r.
  - exists []. by rewrite app_nil_r.
  - exists []. by rewrite app_nil_r.
  - exists []. by rewrite app_nil_r.
Qed.

Lemma callbacks_objects (cs : list Callback) (d : State) :
  exists created,
    objects (Dashboard.callbacks localTZA cs d) = objects d ++ created.
Proof.
  unfold Dashboard.callbacks. revert d.
  induction cs as [|c cs IH]; intros d; simpl.
  - exists []. by rewrite app_nil_r.
  - destruct (call_objects c d) as (c1 & H1).
    destruct (IH (Dashboard.call localTZA c d)) as (c2 & ->).
    rewrite H1. exists (c1 ++ c2). by rewrite app_assoc.
Qed.

Lemma replayObject_objects (now : Z) (refs : list nat) (d : State) :
  objects (foldl (Dashboard.replayObject localTZA now) d refs) = objects d.
Proof.
  revert d. induction refs as [|r refs IH]; intros d; [done|]. simpl.
  rewrite IH. unfold Dashboard.replayObject. by destruct (objects d !! r).
Qed.

Lemma runBatches_objects (frames : list (list Callback * Z)) (now : Z)
    (refs : list nat) (p : nat) (d : State) :
  exists created,
    objects (Dashboard.runBatches localTZA now refs p frames d)
    = objects d ++ created.
Proof.
  revert now p d. induction frames as [|f frames IH]; intros now p d;
    cbn [Dashboard.runBatches]; unfold Dashboard.processBatch;
    cbn [fst snd]; destruct (_ <? _)%nat.
  - rewrite replayObject_objects. exists []. by rewrite app_nil_r.
  - cbn. rewrite replayObject_objects. exists []. by rewrite app_nil_r.
  - set (d1 := foldl (Dashboard.replayObject localTZA now) d _).
    destruct (callbacks_objects (fst f) d1) as (c1 & H1).
    destruct (IH (snd f) (Nat.min (p + BATCH_SIZE) (length refs))
                (Dashboard.callbacks localTZA (fst f) d1)) as (c2 & ->).
    rewrite H1. unfold d1. rewrite replayObject_objects.
    exists (c1 ++ c2). by rewrite app_assoc.
  - cbn. rewrite replayObject_objects. exists []. by rewrite app_nil_r.
Qed.

(** A restore, whatever runs between its batches, changes no object: it
    creates the objects of the events it reads, which stay as they were
    read, and after them the copies for the history and the objects of the
    messages that arrive meanwhile. *)
Lemma restoreFromCache_objects (now : Z) (frames : list (list Callback * Z))
    (d : State) :
  exists created,
    objects (Dashboard.restoreFromCache localTZA now frames d)
    = objects d ++ cachedSorted now d ++ created.
Proof.
  unfold Dashboard.restoreFromCache.
  destruct (cachedSorted now d) as [|e l] eqn:Hl.
  - exists []. unfold beginRestore.
    change (cachedSorted now (set_restoringFromCache true d))
      with (cachedSorted now d). by rewrite Hl, app_nil_r.
  - destruct (runBatches_objects frames now
                (seq (length (objects d)) (length (e :: l))) 0
                (beginRestore now d)) as (created & ->).
    rewrite beginRestore_objects by by rewrite Hl.
    rewrite Hl. eexists. by rewrite <- !app_assoc.
Qed.

(** The record of the last [storeEvent] stays in the cache over the next
    one. *)
Lemma storeEvent_keeps_last (now now' : Z) (e e' : Event)
    (b : AttackCache.Backend) :
  AttackCache.eventToStore now e
  ∈ AttackCache.stored
      (AttackCache.storeEvent now' e' (AttackCache.storeEvent now e b)).
Proof.
  assert (forall (l : list Event) (x y : Event) (n : nat),
            (2 <= n)%nat -> x ∈ Js.sliceLast n (l ++ [x; y])) as Hslice.
  { intros l x y n Hn. unfold Js.sliceLast. rewrite length_app. simpl.
    rewrite drop_app_le by lia. apply elem_of_app. right.
    apply list_elem_of_here. }
  assert (forall (l : list Event) (x : Event), exists l',
            (if decide (AttackCache.maxEvents < length (l ++ [x]))%nat
             then Js.sliceLast AttackCache.maxEvents (l ++ [x])
             else l ++ [x]) = l' ++ [x]) as Hlast.
  { intros l x. destruct (decide _); [|by eexists].
    unfold Js.sliceLast. rewrite length_app. simpl.
    exists (drop (length l + 1 - AttackCache.maxEvents) l).
    rewrite drop_app_le; [done|]. unfold AttackCache.maxEvents. lia. }
  destruct b as [records|doc]; simpl.
  - unfold AttackCache.storeEventIndexedDB. rewrite <- app_assoc.
    apply elem_of_app. right. apply list_elem_of_here.
  - destruct (Hlast (AttackCache.events doc) (AttackCache.eventToStore now e))
      as (l' & ->).
    rewrite <- app_assoc. simpl. destruct (decide _).
    + apply Hslice. unfold AttackCache.maxEvents. lia.
    + apply elem_of_app. right. apply list_elem_of_here.
Qed.

End DashboardProperties.

(** C9 (as the code has it). [addAttackEvent] overwrites the [timestamp]
    of the event object it is given with the current time, in place, and
    changes no other property and no other object. The record handed to
    the cache is a copy, with [cached_at] set: the object keeps its own
    [cached_at], and when [addAttackEvent] changes the time of the object
    once more, the record in the cache keeps the time of the first call. A
    restore, whatever runs between its batches, changes no object: on the
    heap there are afterwards the objects there were, the objects of the
    events read from the cache as they were read, and objects created
    since. A [Traffic] message and [processAttackForDashboard] only create
    objects. *)
Theorem addAttackEvent_sets_timestamp_only (localTZA : Z -> Z) (now : Z)
    (r : nat) (d : Dashboard.State) (e : Event) :
  Dashboard.objects d !! r = Some e ->
  let d' := Dashboard.addAttackEvent localTZA now r d in
  Dashboard.objects d'
  = <[r := set_timestamp (Some now) e]> (Dashboard.objects d)
  /\ (forall r' e', r' <> r -> Dashboard.objects d !! r' = Some e' ->
        Dashboard.objects d' !! r' = Some e')
  /\ (Dashboard.cacheInitialized d = true ->
      Dashboard.restoringFromCache d = false ->
      let copy :=
        AttackCache.eventToStore now (set_timestamp (Some now) e) in
      copy ∈ AttackCache.stored (Dashboard.attackCache d')
      /\ cached_at copy = Some now
      /\ timestamp copy = Some now
      /\ cached_at <$> Dashboard.objects d' !! r = Some (cached_at e)
      /\ forall now2,
           let d2 := Dashboard.addAttackEvent localTZA now2 r d' in
           timestamp <$> Dashboard.objects d2 !! r = Some (Some now2)
           /\ copy ∈ AttackCache.stored (Dashboard.attackCache d2))
  /\ (forall now' frames, exists created,
        Dashboard.objects (Dashboard.restoreFromCache localTZA now' frames d)
        = Dashboard.objects d ++ Dashboard.cachedSorted now' d ++ created)
  /\ (forall now' frames r' e',
        Dashboard.objects d !! r' = Some e' ->
        Dashboard.objects (Dashboard.restoreFromCache localTZA now' frames d)
          !! r' = Some e')
  /\ (forall now' frames i ev,
        Dashboard.cachedSorted now' d !! i = Some ev ->
        Dashboard.objects (Dashboard.restoreFromCache localTZA now' frames d)
          !! (length (Dashboard.objects d) + i)%nat = Some ev)
  /\ (forall now' msg, exists created,
        Dashboard.objects (Dashboard.Traffic localTZA now' msg d)
        = Dashboard.objects d ++ created)
  /\ (forall now' r', exists created,
        Dashboard.objects (Dashboard.processAttackForDashboard now' r' d)
        = Dashboard.objects d ++ created).
Proof.
  intros He d'.
  assert (Dashboard.objects d'
          = <[r := set_timestamp (Some now) e]> (Dashboard.objects d)) as Hobj
    by by apply addAttackEvent_objects.
  assert (r < length (Dashboard.objects d))%nat as Hr
    by by eapply lookup_lt_Some.
  split; [done|].
  split; [|split; [|split; [|split; [|split; [|split]]]]].
  - intros r' e' Hne He'. rewrite Hobj. by rewrite list_lookup_insert_ne.
  - intros Hinit Hrest copy.
    assert (Dashboard.attackCache d'
            = AttackCache.storeEvent now (set_timestamp (Some now) e)
                (Dashboard.attackCache d)) as Hcache.
    { unfold d'. rewrite (addAttackEvent_cache localTZA now r d e He).
      by rewrite Hinit, Hrest. }
    split; [rewrite Hcache; apply storeEvent_stores_copy|].
    split; [done|]. split.
    { unfold copy, AttackCache.eventToStore, Js.orZ. simpl.
      by destruct (negb (now =? 0)). }
    split; [by rewrite Hobj, list_lookup_insert_eq by done|].
    intros now2 d2.
    assert (Dashboard.objects d' !! r = Some (set_timestamp (Some now) e))
      as He' by by rewrite Hobj, list_lookup_insert_eq by done.
    split.
    + unfold d2. rewrite (addAttackEvent_objects localTZA now2 r d' _ He').
      rewrite list_lookup_insert_eq; [done|].
      rewrite Hobj, length_insert. done.
    + unfold d2. rewrite (addAttackEvent_cache localTZA now2 r d' _ He').
      destruct (addAttackEvent_flags localTZA now r d) as (Hf1 & Hf2 & _).
      fold d' in Hf1, Hf2. rewrite Hf1, Hf2, Hinit, Hrest. cbn [andb negb].
      rewrite Hcache. apply storeEvent_keeps_last.
  - intros now' frames. apply restoreFromCache_objects.
  - intros now' frames r' e' He'.
    destruct (restoreFromCache_objects localTZA now' frames d)
      as (created & ->).
    by apply lookup_app_l_Some.
  - intros now' frames i ev Hev.
    destruct (restoreFromCache_objects localTZA now' frames d)
      as (created & ->).
    rewrite lookup_app_r by lia.
    replace (length (Dashboard.objects d) + i - length (Dashboard.objects d))%nat
      with i by lia.
    by apply lookup_app_l_Some.
  - intros now' msg. apply Traffic_objects.
  - intros now' r'.
    by destruct (processAttackForDashboard_frame now' r' d)
      as (_ & _ & _ & _ & _ & ?).
Qed.

(** C9 (as stated). The object handed to [addAttackEvent] a millisecond
    after its creation does not keep its [timestamp]. *)
Lemma addAttackEvent_changes_timestamp :
  let d := Dashboard.set_objects [Scenario.attack]
             (Dashboard.initial Scenario.t0 (AttackCache.IndexedDB [])) in
  let d' := Dashboard.addAttackEvent Scenario.utc (Scenario.t0 + 1) 0 d in
  Dashboard.objects d !! 0%nat = Some Scenario.attack
  /\ timestamp <$> Dashboard.objects d !! 0%nat = Some (Some Scenario.t0)
  /\ timestamp <$> Dashboard.objects d' !! 0%nat
     = Some (Some (Scenario.t0 + 1))
  /\ Dashboard.objects d' !! 0%nat <> Dashboard.objects d !! 0%nat.
Proof. repeat split; done. Qed.

(** The object of [attack], handed to [addAttackEvent] a millisecond after
    its creation and again a second later: the object then carries the time
    of the second call, and the cache holds the record of the first call
    with the time of the first call. *)
Lemma addAttackEvent_sets_timestamp_only_witness :
  let d := Dashboard.set_objects [Scenario.attack]
             (Dashboard.initial Scenario.t0 (AttackCache.IndexedDB [])) in
  let d' := Dashboard.addAttackEvent Scenario.utc (Scenario.t0 + 1) 0 d in
  let d2 := Dashboard.addAttackEvent Scenario.utc (Scenario.t0 + 1001) 0 d' in
  Dashboard.objects d'
  = [set_timestamp (Some (Scenario.t0 + 1)) Scenario.attack]
  /\ timestamp <$> Dashboard.objects d2 !! 0%nat
     = Some (Some (Scenario.t0 + 1001))
  /\ AttackCache.eventToStore (Scenario.t0 + 1)
       (set_timestamp (Some (Scenario.t0 + 1)) Scenario.attack)
     ∈ AttackCache.stored (Dashboard.attackCache d2).
Proof.
  intros d d' d2.
  destruct (addAttackEvent_sets_timestamp_only Scenario.utc
              (Scenario.t0 + 1) 0 d Scenario.attack eq_refl)
    as (Hobj & _ & Hcopy & _).
  destruct (Hcopy eq_refl eq_refl) as (_ & _ & _ & _ & Hlater).
  destruct (Hlater (Scenario.t0 + 1001)) as [Htime Hkept].
  split; [exact Hobj|]. split; [exact Htime|exact Hkept].
Defined.

(** C10. While a restore is under way, [addAttackEvent] leaves the cache
    as it is and the flag set, and the event joins the history and the
    aggregates as it would otherwise. Of the operations of the dashboard
    only the end of the restore clears the flag: [finalizeRestoration], or
    the return of [restoreFromCache] when there was nothing to replay.
    Whatever runs later, every record of the cache was in it before the
    event arrived or is the copy made for a later message. *)
Theorem live_event_during_restore_not_persisted (localTZA : Z -> Z)
    (now : Z) (r : nat) (d : Dashboard.State) (msg : Event)
    (later : list Dashboard.Op) :
  Dashboard.restoringFromCache d = true ->
  let d' := Dashboard.addAttackEvent localTZA now r d in
  let arrived := Dashboard.Traffic localTZA now msg d in
  Dashboard.attackCache d' = Dashboard.attackCache d
  /\ Dashboard.restoringFromCache d' = true
  /\ (is_Some (Dashboard.objects d !! r) -> r ∈ Dashboard.attackHistory d')
  /\ Dashboard.aggregates d'
     = Dashboard.aggregates
         (Dashboard.addAttackEvent localTZA now r
            (Dashboard.set_restoringFromCache false d))
  /\ (forall op,
        Dashboard.restoringFromCache (Dashboard.apply localTZA op d) = false ->
        op = Dashboard.RestoreEmpty
        \/ exists now' cachedEvents, op = Dashboard.Finalize now' cachedEvents)
  /\ Dashboard.attackCache arrived = Dashboard.attackCache d
  /\ (forall x,
        x ∈ AttackCache.stored
              (Dashboard.attackCache (Dashboard.run localTZA later arrived)) ->
        x ∈ AttackCache.stored (Dashboard.attackCache d)
        \/ x ∈ Dashboard.written localTZA later arrived).
Proof.
  intros Hflag d' arrived.
  assert (Dashboard.attackCache arrived = Dashboard.attackCache d) as Harr.
  { unfold arrived. rewrite Traffic_cache, Hflag. by rewrite !andb_false_r. }
  split; [|split; [|split; [|split; [|split; [|split]]]]].
  - unfold d', Dashboard.addAttackEvent.
    destruct (Dashboard.objects d !! r); [|done].
    cbn. rewrite Hflag. by rewrite andb_false_r.
  - unfold d'. by destruct (addAttackEvent_flags localTZA now r d) as (-> & _).
  - intros [e He]. unfold d', Dashboard.addAttackEvent. rewrite He. cbn.
    apply limitHistory_keeps_last.
  - unfold d', Dashboard.addAttackEvent. cbn.
    by destruct (Dashboard.objects d !! r).
  - intros op Hop.
    destruct op as [now' m|now' ev|now' cached| |now'|now'|now'].
    + cbn in Hop.
      destruct (Traffic_flags localTZA now' m d) as (Hf & _). congruence.
    + cbn in Hop. congruence.
    + right. by exists now', cached.
    + by left.
    + cbn [Dashboard.apply] in Hop.
      destruct (beginRestore_frame now' d) as (_ & _ & _ & Hf & _). congruence.
    + cbn in Hop. congruence.
    + cbn in Hop. congruence.
  - done.
  - intros x Hx. apply stored_run in Hx. by rewrite Harr in Hx.
Qed.

(** An attack arrives during the restore and is left out of the cache; the
    restore ends; the next attack is stored. *)
Lemma live_event_during_restore_not_persisted_witness :
  let d := Scenario.restoring in
  let later :=
    [Dashboard.Finalize (Scenario.t0 + 1) [];
     Dashboard.LiveEvent (Scenario.t0 + 60000) Scenario.other] in
  Dashboard.attackCache
    (Dashboard.addAttackEvent Scenario.utc Scenario.t0 0 d)
  = AttackCache.IndexedDB []
  /\ AttackCache.stored
       (Dashboard.attackCache
          (Dashboard.run Scenario.utc later
             (Dashboard.Traffic Scenario.utc Scenario.t0 Scenario.attack d)))
     = [AttackCache.eventToStore (Scenario.t0 + 60000) Scenario.other].
Proof.
  intros d later. split.
  - exact (proj1 (live_event_during_restore_not_persisted Scenario.utc
                    Scenario.t0 0 d Scenario.attack later eq_refl)).
  - vm_compute. reflexivity.
Defined.

(** C2 (as the code has it). The events read back from the cache, sorted
    oldest first, all carry a truthy time; when each carries its address
    in [ip], the replay loop of [restoreFromCache] leaves the address and
    country trackers, the timeline, the heatmap and the protocol histogram
    exactly as [addAttackEvent] on the same events, each at its own time
    and in the same order, leaves them, and as live ingestion through the
    message handler leaves them when the events have the coordinates the
    handler needs. [restoreFromCache] runs that loop in batches of 500, one
    for each animation frame. When no callback runs between the batches and
    the frames keep coming, [restoreFromCache] is the loop followed by
    [finalizeRestoration] at the time of the last batch, which keeps the
    trackers, the timeline and the heatmap, replaces the protocol histogram
    by the one [aggregateProtocolStats] counts over the last 15 minutes of
    the restored history, and hands the selected events to the map. *)
Theorem replay_matches_live_ingestion (localTZA : Z -> Z) (now : Z)
    (frames : list (list Dashboard.Callback * Z)) (d : Dashboard.State) :
  AttackCache.retentionPeriod < now ->
  Forall (fun e => Js.orS (ip e) (source_ip e) = ip e)
    (Dashboard.cachedSorted now d) ->
  Forall (fun f => fst f = []) frames ->
  (length (Dashboard.cachedSorted now d)
   <= S (length frames) * Dashboard.BATCH_SIZE)%nat ->
  let cachedEvents := Dashboard.cachedSorted now d in
  let replayed :=
    Dashboard.replayAll localTZA now cachedEvents
      (Dashboard.beginRestore now d) in
  let live := Dashboard.ingestEach localTZA cachedEvents d in
  let restored := Dashboard.restoreFromCache localTZA now frames d in
  StronglySorted Dashboard.chronological cachedEvents
  /\ Dashboard.aggregates replayed = Dashboard.aggregates live
  /\ (Forall (fun e => reachesDashboard e = true) cachedEvents ->
      Dashboard.aggregates replayed
      = Dashboard.aggregates (Dashboard.ingestLive localTZA cachedEvents d))
  /\ Dashboard.ipStats restored = Dashboard.ipStats live
  /\ Dashboard.countryTrackingStats restored
     = Dashboard.countryTrackingStats live
  /\ Dashboard.timelineData restored = Dashboard.timelineData live
  /\ Dashboard.heatmapData restored = Dashboard.heatmapData live
  /\ (cachedEvents <> [] ->
      exists t,
        t ∈ now :: List.map snd frames
        /\ restored = Dashboard.finalizeRestoration t cachedEvents replayed
        /\ Dashboard.protocolStats restored
           = Dashboard.protocolStats
               (Dashboard.aggregateProtocolStats t replayed)
        /\ Dashboard.restoredOnMap restored
           = Dashboard.restoredOnMap d ++ Dashboard.mapEvents cachedEvents)
  /\ (cachedEvents = [] ->
      Dashboard.protocolStats restored = Dashboard.protocolStats live).
Proof.
  intros Hnow Hip Hquiet Hframes cachedEvents replayed live restored.
  assert (Forall (fun e => Js.truthyZ (timestamp e) = true) cachedEvents)
    as Htruthy.
  { rewrite Forall_forall. intros e He.
    apply (getStoredEvents_truthy now (Dashboard.attackCache d) e Hnow).
    by apply elem_of_sortBy in He. }
  assert (Forall (fun e => Js.truthyZ (timestamp e) = true
                           /\ Js.orS (ip e) (source_ip e) = ip e)
            cachedEvents) as Hall.
  { rewrite Forall_forall in *. intros e He. split; [by apply Htruthy|].
    by apply Hip. }
  destruct (beginRestore_frame now d) as (Hagg & Hint & _ & _ & Hmap & _).
  assert (Dashboard.aggregates replayed = Dashboard.aggregates live) as Heq.
  { by apply replayAll_ingestEach. }
  split; [apply sortBy_sorted|]. split; [done|]. split.
  { intros Hmsg. apply replayAll_ingestLive; [|done|done].
    rewrite Forall_forall in *. intros e He.
    destruct (Hall e He). split; [done|]. split; [done|]. by apply Hmsg. }
  destruct (decide (cachedEvents = [])) as [Hnil|Hne].
  - assert (restored = Dashboard.set_restoringFromCache false
                         (Dashboard.beginRestore now d)) as Hres.
    { unfold restored, Dashboard.restoreFromCache. fold cachedEvents.
      by rewrite Hnil. }
    assert (Dashboard.aggregates restored = Dashboard.aggregates live) as Hr.
    { rewrite <- Heq, Hres. unfold replayed. by rewrite Hnil. }
    unfold Dashboard.aggregates in Hr. injection Hr as -> -> -> -> Hp.
    by repeat split.
  - destruct (restoreFromCache_unfold localTZA now frames d Hne Htruthy
                Hquiet Hframes) as (t & Ht & Hres).
    fold cachedEvents replayed restored in Hres.
    unfold Dashboard.aggregates in Heq. injection Heq as Hi Hc Htl Hh Hp.
    rewrite Hres.
    split; [by rewrite <- Hi|]. split; [by rewrite <- Hc|].
    split; [by rewrite <- Htl|]. split; [by rewrite <- Hh|].
    split; [|done]. intros _. exists t.
    split; [done|]. split; [done|]. split; [done|].
    cbn. f_equal.
    destruct (replayAll_frame localTZA now cachedEvents
                (Dashboard.beginRestore now d))
      as (_ & _ & _ & _ & _ & Hm).
    fold replayed in Hm. by rewrite Hm, Hmap.
Qed.

(** The dashboard reloaded two minutes after [t0] with the two attacks in
    its cache: one batch, no frame to wait for. *)
Lemma replay_matches_live_ingestion_witness :
  let now := Scenario.t0 + 120000 in
  let d := Scenario.reloaded now in
  let cachedEvents := Dashboard.cachedSorted now d in
  Dashboard.aggregates
    (Dashboard.replayAll Scenario.utc now cachedEvents
       (Dashboard.beginRestore now d))
  = Dashboard.aggregates (Dashboard.ingestEach Scenario.utc cachedEvents d)
  /\ Dashboard.heatmapData (Dashboard.restoreFromCache Scenario.utc now [] d)
     = Dashboard.heatmapData (Dashboard.ingestEach Scenario.utc cachedEvents d).
Proof.
  intros now d cachedEvents.
  assert (Forall (fun e => Js.orS (ip e) (source_ip e) = ip e)
            (Dashboard.cachedSorted now d)) as Hip.
  { vm_compute. repeat constructor. }
  destruct (replay_matches_live_ingestion Scenario.utc now [] d eq_refl Hip
              ltac:(constructor) ltac:(vm_compute; lia))
    as (_ & Heq & _ & _ & _ & _ & Hheat & _).
  split; [exact Heq|exact Hheat].
Defined.

(** C2 (as stated). The dashboard reloaded twenty minutes after [t0]: the
    restore, in one batch, ends with an empty protocol histogram, as both
    attacks are older than 15 minutes, while live ingestion of the same two
    events counts one attack for each protocol. *)
Lemma restoreFromCache_recounts_protocols :
  let now := Scenario.t0 + 20 * 60 * 1000 in
  let d := Scenario.reloaded now in
  let cachedEvents := Dashboard.cachedSorted now d in
  length cachedEvents = 2%nat
  /\ Dashboard.protocolStats
       (Dashboard.restoreFromCache Scenario.utc now [] d) = []
  /\ Dashboard.protocolStats (Dashboard.ingestEach Scenario.utc cachedEvents d)
     = [("SSH"%string, 1); ("HTTP"%string, 1)]
  /\ Dashboard.protocolStats (Dashboard.ingestLive Scenario.utc cachedEvents d)
     = [("SSH"%string, 1); ("HTTP"%string, 1)]
  /\ Dashboard.protocolStats
       (Dashboard.restoreFromCache Scenario.utc now [] d)
     <> Dashboard.protocolStats
          (Dashboard.ingestEach Scenario.utc cachedEvents d).
Proof. vm_compute. repeat split; discriminate. Qed.

(** 501 events in the cache, so two batches, with one animation frame
    between them. When the delayed rebuild of the charts that [initCharts]
    schedules runs during that frame, it counts the whole history, which
    the restore has already replaced by the 501 events, and the second
    batch then counts its event once more: the heatmap and the timeline
    end with 502 attacks. With nothing between the batches they end with
    501, as live ingestion does. *)
Example restore_interleaved_with_populate :
  let now := Scenario.t0 + 120000 in
  let d :=
    Dashboard.initial now
      (AttackCache.storeAll (Scenario.burst 501) (AttackCache.IndexedDB [])) in
  let cachedEvents := Dashboard.cachedSorted now d in
  let quiet :=
    Dashboard.restoreFromCache Scenario.utc now [([], now + 16)] d in
  let interleaved :=
    Dashboard.restoreFromCache Scenario.utc now
      [([Dashboard.DelayedPopulate (now + 10)], now + 16)] d in
  let live := Dashboard.ingestEach Scenario.utc cachedEvents d in
  length cachedEvents = 501%nat
  /\ totalAttacks (Dashboard.heatmapData live) = 501
  /\ totalCount (Dashboard.timelineData live) = 501
  /\ totalAttacks (Dashboard.heatmapData quiet) = 501
  /\ totalCount (Dashboard.timelineData quiet) = 501
  /\ totalAttacks (Dashboard.heatmapData interleaved) = 502
  /\ totalCount (Dashboard.timelineData interleaved) = 502.
Proof. by vm_compute. Qed.

(** ** Examples *)

Example normalizeProtocol_examples :
  Dashboard.normalizeProtocol (Some "ssh") = "SSH"
  /\ Dashboard.normalizeProtocol (Some "ftp-data") = "FTP-DATA"
  /\ Dashboard.normalizeProtocol (Some "8080") = "OTHER"
  /\ Dashboard.normalizeProtocol (Some "quic") = "OTHER"
  /\ Dashboard.normalizeProtocol (Some "") = "OTHER"
  /\ Dashboard.normalizeProtocol None = "OTHER".
Proof. by vm_compute. Qed.

(** Three attacks from one address within five minutes, with the protocols
    SSH, SSH and HTTP. *)
Example three_attacks_from_one_address :
  let from := fun (proto : string) (t : Z) =>
    Scenario.located 52 13 (plainEvent "1.2.3.4" proto t) in
  let d :=
    Dashboard.ingestLive Scenario.utc
      [from "SSH" Scenario.t0; from "SSH" (Scenario.t0 + 60000);
       from "HTTP" (Scenario.t0 + 120000)]
      (Dashboard.initial Scenario.t0 (AttackCache.IndexedDB [])) in
  Dashboard.protocolStats d = [("SSH"%string, 2); ("HTTP"%string, 1)]
  /\ Dashboard.hits <$> Dashboard.objGet "1.2.3.4" (Dashboard.ipStats d)
     = Some 3
  /\ Dashboard.lastProtocol <$> Dashboard.objGet "1.2.3.4" (Dashboard.ipStats d)
     = Some "HTTP"%string
  /\ length (AttackCache.stored (Dashboard.attackCache d)) = 3%nat
  /\ length (Dashboard.attackHistory d) = 6%nat.
Proof. by vm_compute. Qed.

(** * Further properties

    What the code does beyond the behaviour described above: the statistics
    and the round trips of the cache, protocol names and colours, the
    trackers during a replay and the tables made from them, the history and
    what is rebuilt from it, the honeypot statistics, the labels of ages,
    the reset of the dashboard and the replacement of sockets. *)

(** ** The statistics of the cache *)

Section CacheReads.

Import AttackCache.

Lemma mathMin_Num (x : Z) (ts : list Z) :
  Js.mathMin (Js.Num x) (List.map Js.Num ts) = Js.Num (foldl Z.min x ts).
Proof.
  unfold Js.mathMin. revert x. induction ts as [|t ts IH]; intros x; [done|].
  simpl. apply IH.
Qed.

Lemma mathMax_Num (x : Z) (ts : list Z) :
  Js.mathMax (Js.Num x) (List.map Js.Num ts) = Js.Num (foldl Z.max x ts).
Proof.
  unfold Js.mathMax. revert x. induction ts as [|t ts IH]; intros x; [done|].
  simpl. apply IH.
Qed.

Lemma foldl_min_spec (x : Z) (ts : list Z) :
  let m := foldl Z.min x ts in
  m <= x /\ Forall (fun t => m <= t) ts /\ (m = x \/ m ∈ ts).
Proof.
  revert x. induction ts as [|t ts IH]; intros x; simpl.
  - split; [lia|]. split; [constructor|by left].
  - destruct (IH (Z.min x t)) as (Hle & Hall & Hin).
    split; [lia|]. split; [constructor; [lia|done]|].
    destruct Hin as [->|Hin].
    + destruct (Z.min_spec x t) as [[_ ->]|[_ ->]]; [by left|].
      right. apply list_elem_of_here.
    + right. by apply list_elem_of_further.
Qed.

Lemma foldl_max_spec (x : Z) (ts : list Z) :
  let m := foldl Z.max x ts in
  x <= m /\ Forall (fun t => t <= m) ts /\ (m = x \/ m ∈ ts).
Proof.
  revert x. induction ts as [|t ts IH]; intros x; simpl.
  - split; [lia|]. split; [constructor|by left].
  - destruct (IH (Z.max x t)) as (Hle & Hall & Hin).
    split; [lia|]. split; [constructor; [lia|done]|].
    destruct Hin as [->|Hin].
    + destruct (Z.max_spec x t) as [[_ ->]|[_ ->]]; [|by left].
      right. apply list_elem_of_here.
    + right. by apply list_elem_of_further.
Qed.

(** Every event a read returns carries a time, at or after the cutoff. *)
Lemma getStoredEvents_timed (now : Z) (b : Backend) (e : Event) :
  e ∈ getStoredEvents now b ->
  exists t, timestamp e = Some t /\ now - retentionPeriod <= t.
Proof.
  destruct b as [records|doc]; simpl.
  - intros [_ H]%getStoredEventsIndexedDB_spec. done.
  - intros [_ (t & ? & _ & ?)]%getStoredEventsLocalStorage_spec.
    exists t. split; [done|lia].
Qed.

Lemma times_of_timed (l : list Event) :
  Forall (fun e => is_Some (timestamp e)) l ->
  List.map (fun e => Js.toNumber (timestamp e)) l
  = List.map Js.Num (List.map timestampOr0 l).
Proof.
  induction 1 as [|e l [t Ht] _ IH]; [done|].
  simpl. rewrite IH. unfold timestampOr0. by rewrite Ht.
Qed.

End CacheReads.

(** X1. [getStatistics] counts the events a read returns and reports the
    earliest and the latest of their times, which are numbers inside the
    retention window; with nothing to return it reports [null] for both. *)
Theorem getStatistics_reports_window (now : Z) (b : AttackCache.Backend) :
  let s := AttackCache.getStatistics now b in
  let found := AttackCache.getStoredEvents now b in
  AttackCache.totalEvents s = length found
  /\ match found with
     | [] =>
         AttackCache.oldestEvent s = None /\ AttackCache.newestEvent s = None
     | _ :: _ =>
         exists lo hi,
           AttackCache.oldestEvent s = Some (Js.Num lo)
           /\ AttackCache.newestEvent s = Some (Js.Num hi)
           /\ now - AttackCache.retentionPeriod <= lo <= hi
           /\ Forall (fun e => exists t, timestamp e = Some t /\ lo <= t <= hi)
                found
           /\ (exists e, e ∈ found /\ timestamp e = Some lo)
           /\ (exists e, e ∈ found /\ timestamp e = Some hi)
     end.
Proof.
  intros s found. split; [done|].
  assert (Forall (fun e => exists t, timestamp e = Some t
                     /\ now - AttackCache.retentionPeriod <= t) found) as Hall.
  { rewrite Forall_forall. intros e He. by eapply getStoredEvents_timed. }
  assert (List.map (fun e => Js.toNumber (timestamp e)) found
          = List.map Js.Num (List.map timestampOr0 found)) as Htimes.
  { apply times_of_timed. eapply Forall_impl; [exact Hall|].
    intros e (t & -> & _). by eexists. }
  unfold s, AttackCache.getStatistics. fold found. rewrite Htimes.
  destruct found as [|e rest] eqn:Hfound; [done|].
  cbn [List.map AttackCache.oldestEvent AttackCache.newestEvent].
  rewrite mathMin_Num, mathMax_Num.
  set (x := timestampOr0 e). set (ts := List.map timestampOr0 rest).
  destruct (foldl_min_spec x ts) as (Hlo & Hlos & Hloin).
  destruct (foldl_max_spec x ts) as (Hhi & His & Hhiin).
  set (lo := foldl Z.min x ts) in *. set (hi := foldl Z.max x ts) in *.
  assert (forall e', e' ∈ e :: rest ->
            exists t, timestamp e' = Some t /\ t = timestampOr0 e'
                      /\ now - AttackCache.retentionPeriod <= t
                      /\ lo <= t <= hi) as Hin.
  { intros e' He'. rewrite Forall_forall in Hall.
    destruct (Hall e' He') as (t & Ht & Hcut). exists t.
    assert (t = timestampOr0 e') as Heq
      by (unfold timestampOr0; by rewrite Ht).
    split; [done|]. split; [done|]. split; [done|].
    apply elem_of_cons in He' as [->|He'].
    - fold x in Heq. lia.
    - assert (t ∈ ts) as Hts.
      { rewrite Heq. unfold ts. apply list_elem_of_fmap. by exists e'. }
      rewrite Forall_forall in Hlos, His.
      specialize (Hlos t Hts). specialize (His t Hts). lia. }
  assert (forall m, m = x \/ m ∈ ts ->
            exists e', e' ∈ e :: rest /\ timestamp e' = Some m) as Hatt.
  { intros m [->|Hm].
    - exists e. split; [apply list_elem_of_here|].
      destruct (Hin e) as (t & Ht & Heq & _); [apply list_elem_of_here|].
      fold x in Heq. by rewrite Ht, Heq.
    - unfold ts in Hm. apply list_elem_of_fmap in Hm as (e' & -> & He').
      exists e'. split; [by apply list_elem_of_further|].
      destruct (Hin e') as (t & Ht & Heq & _);
        [by apply list_elem_of_further|].
      by rewrite Ht, Heq. }
  exists lo, hi. split; [done|]. split; [done|]. split.
  { destruct (Hatt lo Hloin) as (e' & He' & Ht').
    destruct (Hin e' He') as (t & Ht & _ & Hcut & Hr).
    rewrite Ht' in Ht. injection Ht as <-. lia. }
  split.
  { rewrite Forall_forall. intros e' He'.
    destruct (Hin e' He') as (t & Ht & _ & _ & Hr). by exists t. }
  split; by apply Hatt.
Qed.

(** ** Writing to the cache and reading back *)

Section CacheWrites.

Import AttackCache.

Lemma sliceLast_all {A} (n : nat) (l : list A) :
  (length l <= n)%nat -> Js.sliceLast n l = l.
Proof.
  intros H. unfold Js.sliceLast.
  replace (length l - n)%nat with 0%nat by lia. done.
Qed.

(** The conditional slice of the fallback backend is the slice. *)
Lemma capped_sliceLast {A} (l : list A) :
  (if decide (maxEvents < length l)%nat then Js.sliceLast maxEvents l else l)
  = Js.sliceLast maxEvents l.
Proof.
  destruct (decide _); [done|]. symmetry. apply sliceLast_all. lia.
Qed.

Lemma sliceLast_snoc {A} (n : nat) (l : list A) (x : A) :
  (0 < n)%nat ->
  Js.sliceLast n (Js.sliceLast n l ++ [x]) = Js.sliceLast n (l ++ [x]).
Proof.
  intros Hn. unfold Js.sliceLast.
  rewrite !length_app, length_drop. simpl.
  destruct (decide (length l <= n)%nat) as [Hle|Hgt].
  - replace (length l - n)%nat with 0%nat by lia. simpl.
    by replace (length l - 0)%nat with (length l) by lia.
  - replace (length l - (length l - n) + 1 - n)%nat with 1%nat by lia.
    rewrite (drop_app_le l [x] (length l + 1 - n)) by lia.
    replace (length l + 1 - n)%nat with (S (length l - n)) by lia.
    assert (exists y l', drop (length l - n) l = y :: l') as (y & l' & Hd).
    { destruct (drop (length l - n) l) as [|y l'] eqn:Hd; [|by eauto].
      apply (f_equal length) in Hd. rewrite length_drop in Hd.
      simpl in Hd. lia. }
    replace (S (length l - n)) with (length l - n + 1)%nat by lia.
    rewrite <- (drop_drop l 1 (length l - n)), Hd. simpl.
    by rewrite !drop_0.
Qed.

Lemma maxEvents_pos : (0 < maxEvents)%nat.
Proof. unfold maxEvents. lia. Qed.

Lemma storeEventLocalStorage_sliceLast (e : Event) (doc : CacheDoc) :
  storeEventLocalStorage e doc
  = mkDoc (Js.sliceLast maxEvents (events doc ++ [e]))
      (lastCleanup doc) (version doc).
Proof. unfold storeEventLocalStorage. by rewrite capped_sliceLast. Qed.

Lemma filter_all {A} (f : A -> bool) (l : list A) :
  Forall (fun x => f x = true) l -> List.filter f l = l.
Proof.
  induction 1 as [|x l Hx _ IH]; [done|]. simpl. by rewrite Hx, IH.
Qed.

Lemma Forall_filter_bool {A} (f : A -> bool) (l : list A) :
  Forall (fun x => f x = true) (List.filter f l).
Proof.
  rewrite Forall_forall. intros x Hx.
  by apply elem_of_filter_bool in Hx as [_ ?].
Qed.

Lemma sublist_filter_bool {A} (f : A -> bool) (l : list A) :
  List.filter f l `sublist_of` l.
Proof.
  induction l as [|x l IH]; [done|]. simpl.
  destruct (f x); [by apply sublist_skip|by apply sublist_cons].
Qed.

Lemma sublist_sliceLast {A} (n : nat) (l : list A) :
  Js.sliceLast n l `sublist_of` l.
Proof. apply sublist_drop. Qed.

Lemma Forall_sliceLast {A} (P : A -> Prop) (n : nat) (l : list A) :
  Forall P l -> Forall P (Js.sliceLast n l).
Proof. apply Forall_drop. Qed.

End CacheWrites.

(** X2. A stored event can be read back: [storeEvent] writes a copy that
    carries the event's own time when it has one, the time of the call
    otherwise, and the time of the call as [cached_at]; a read within one
    retention period of the copy's time returns it, on either backend. *)
Theorem storeEvent_then_getStoredEvents (now now' : Z) (event : Event)
    (b : AttackCache.Backend) :
  let copy := AttackCache.eventToStore now event in
  let t := timestampOr0 copy in
  t <> 0 ->
  now' - AttackCache.retentionPeriod < t ->
  copy ∈ AttackCache.getStoredEvents now' (AttackCache.storeEvent now event b)
  /\ timestamp copy
     = Some (if Js.truthyZ (timestamp event) then timestampOr0 event else now)
  /\ cached_at copy = Some now
  /\ set_cached_at (cached_at event) (set_timestamp (timestamp event) copy)
     = event.
Proof.
  intros copy t Ht0 Hrecent.
  assert (timestamp copy
          = Some (if Js.truthyZ (timestamp event)
                  then timestampOr0 event else now)) as Htime.
  { unfold copy, AttackCache.eventToStore, Js.orZ. simpl.
    destruct (Js.truthyZ (timestamp event)) eqn:Htr; [|done].
    by apply truthy_timestamp. }
  assert (timestamp copy = Some t) as Ht.
  { unfold t, timestampOr0. by rewrite Htime. }
  split; [|split; [exact Htime|split; [reflexivity|by destruct event]]].
  pose proof (storeEvent_stores_copy now event b) as Hin. fold copy in Hin.
  destruct b as [records|doc]; simpl in *.
  - apply getStoredEventsIndexedDB_spec. split; [done|].
    exists t. split; [done|lia].
  - apply getStoredEventsLocalStorage_spec. split; [done|]. by exists t.
Qed.

Lemma storeEvent_then_getStoredEvents_witness :
  let copy := AttackCache.eventToStore (Scenario.t0 + 5) Scenario.attack in
  copy ∈ AttackCache.getStoredEvents (Scenario.t0 + 3600000)
           (AttackCache.storeEvent (Scenario.t0 + 5) Scenario.attack
              (AttackCache.LocalStorage (AttackCache.emptyCache Scenario.t0)))
  /\ timestamp copy = Some Scenario.t0.
Proof.
  intros copy.
  destruct (storeEvent_then_getStoredEvents (Scenario.t0 + 5)
              (Scenario.t0 + 3600000) Scenario.attack
              (AttackCache.LocalStorage (AttackCache.emptyCache Scenario.t0))
              ltac:(vm_compute; discriminate) ltac:(vm_compute; reflexivity))
    as (Hin & Ht & _).
  split; [exact Hin|exact Ht].
Defined.

(** X3. [cleanup] only removes: what it leaves is a sublist of what was
    stored; a second [cleanup] at the same instant changes nothing; and when
    every stored record carries a time, as the copies written by
    [storeEvent] do, a read at that instant returns exactly the records
    that are left. *)
Theorem cleanup_only_removes (now : Z) (b : AttackCache.Backend) :
  AttackCache.stored (AttackCache.cleanup now b)
    `sublist_of` AttackCache.stored b
  /\ AttackCache.cleanup now (AttackCache.cleanup now b)
     = AttackCache.cleanup now b
  /\ (Forall (fun e => is_Some (timestamp e)) (AttackCache.stored b) ->
      AttackCache.getStoredEvents now (AttackCache.cleanup now b)
      ≡ₚ AttackCache.stored (AttackCache.cleanup now b)).
Proof.
  destruct b as [records|doc]; simpl.
  - unfold AttackCache.cleanupIndexedDB.
    set (f := fun e => negb (AttackCache.inUpperBound
                         (now - AttackCache.retentionPeriod) e)).
    split; [apply sublist_filter_bool|]. split.
    + f_equal. apply filter_all, Forall_filter_bool.
    + intros Htimed. unfold AttackCache.getStoredEventsIndexedDB.
      rewrite sortBy_Permutation. rewrite filter_all; [done|].
      rewrite Forall_forall. intros e He.
      apply elem_of_filter_bool in He as [He Hf].
      rewrite Forall_forall in Htimed. destruct (Htimed e He) as [t Ht].
      unfold f, AttackCache.inUpperBound, AttackCache.indexKey in Hf.
      unfold AttackCache.inLowerBound, AttackCache.indexKey.
      rewrite Ht in *. apply negb_true_iff, Z.leb_gt in Hf.
      apply Z.leb_le. lia.
  - unfold AttackCache.cleanupLocalStorage. simpl.
    rewrite capped_sliceLast.
    set (f := AttackCache.withinRetention (now - AttackCache.retentionPeriod)).
    set (kept := Js.sliceLast AttackCache.maxEvents
                   (List.filter f (AttackCache.events doc))).
    assert (Forall (fun e => f e = true) kept) as Hkept
      by apply Forall_sliceLast, Forall_filter_bool.
    split.
    + etrans; [apply sublist_sliceLast|apply sublist_filter_bool].
    + split.
      * rewrite capped_sliceLast, (filter_all f kept Hkept).
        by rewrite (sliceLast_all _ kept) by apply length_sliceLast.
      * intros _. unfold AttackCache.getStoredEventsLocalStorage. simpl.
        fold f. by rewrite (filter_all f kept Hkept).
Qed.

Lemma cleanup_only_removes_witness :
  let b := AttackCache.storeAll [(Scenario.t0, Scenario.attack)]
             (AttackCache.IndexedDB []) in
  AttackCache.getStoredEvents (Scenario.t0 + 60000)
    (AttackCache.cleanup (Scenario.t0 + 60000) b)
  ≡ₚ AttackCache.stored (AttackCache.cleanup (Scenario.t0 + 60000) b).
Proof.
  intros b.
  refine (proj2 (proj2 (cleanup_only_removes (Scenario.t0 + 60000) b)) _).
  vm_compute. repeat constructor. by eexists.
Defined.

(** X4. The fallback backend holds the newest [maxEvents] of everything
    stored: after any run of [storeEvent] calls on a document within the
    limit, its events are the last [maxEvents] of the old events followed
    by the copies, in the order of the calls. *)
Theorem storeAll_LocalStorage_keeps_newest (calls : list (Z * Event))
    (doc : AttackCache.CacheDoc) :
  (length (AttackCache.events doc) <= AttackCache.maxEvents)%nat ->
  let copies :=
    List.map (fun c => AttackCache.eventToStore (fst c) (snd c)) calls in
  AttackCache.storeAll calls (AttackCache.LocalStorage doc)
  = AttackCache.LocalStorage
      (AttackCache.mkDoc
         (Js.sliceLast AttackCache.maxEvents (AttackCache.events doc ++ copies))
         (AttackCache.lastCleanup doc) (AttackCache.version doc))
  /\ length (AttackCache.stored
               (AttackCache.storeAll calls (AttackCache.LocalStorage doc)))
     = Nat.min AttackCache.maxEvents
         (length (AttackCache.events doc) + length calls).
Proof.
  intros Hlen copies.
  assert (AttackCache.storeAll calls (AttackCache.LocalStorage doc)
          = AttackCache.LocalStorage
              (AttackCache.mkDoc
                 (Js.sliceLast AttackCache.maxEvents
                    (AttackCache.events doc ++ copies))
                 (AttackCache.lastCleanup doc) (AttackCache.version doc)))
    as Heq.
  { unfold copies. clear copies. revert Hlen.
    induction calls as [|c calls IH] using rev_ind; intros Hlen.
    - simpl. rewrite app_nil_r, sliceLast_all by done. by destruct doc.
    - unfold AttackCache.storeAll in *. rewrite foldl_app. simpl.
      rewrite IH by done. cbn [foldl AttackCache.storeEvent fst snd].
      rewrite storeEventLocalStorage_sliceLast.
      cbn [AttackCache.events AttackCache.lastCleanup AttackCache.version].
      rewrite sliceLast_snoc by apply maxEvents_pos.
      by rewrite map_app, app_assoc. }
  split; [done|]. rewrite Heq.
  cbn [AttackCache.stored AttackCache.events].
  unfold Js.sliceLast. rewrite length_drop, length_app.
  unfold copies. rewrite length_map.
  generalize AttackCache.maxEvents. lia.
Qed.

Lemma storeAll_LocalStorage_keeps_newest_witness :
  AttackCache.stored
    (AttackCache.storeAll
       [(Scenario.t0, Scenario.attack); (Scenario.t0 + 60000, Scenario.other)]
       (AttackCache.LocalStorage (AttackCache.emptyCache Scenario.t0)))
  = [AttackCache.eventToStore Scenario.t0 Scenario.attack;
     AttackCache.eventToStore (Scenario.t0 + 60000) Scenario.other].
Proof.
  rewrite (proj1 (storeAll_LocalStorage_keeps_newest
                    [(Scenario.t0, Scenario.attack);
                     (Scenario.t0 + 60000, Scenario.other)]
                    (AttackCache.emptyCache Scenario.t0)
                    ltac:(simpl; lia))).
  reflexivity.
Defined.

(** ** Protocol names and colours *)

Section ProtocolNames.

Import Dashboard.

Lemma upper_upper (c : ascii) : upper (upper c) = upper c.
Proof. destruct c as [[] [] [] [] [] [] [] []]; reflexivity. Qed.

Lemma isDigit_upper (c : ascii) : isDigit (upper c) = isDigit c.
Proof. destruct c as [[] [] [] [] [] [] [] []]; reflexivity. Qed.

Lemma toUpperCase_idemp (s : string) :
  toUpperCase (toUpperCase s) = toUpperCase s.
Proof. induction s as [|c s IH]; simpl; [done|]. by rewrite upper_upper, IH. Qed.

Lemma toUpperCase_empty (s : string) :
  String.eqb (toUpperCase s) "" = String.eqb s "".
Proof. by destruct s. Qed.

Lemma isNumeric_toUpperCase (s : string) :
  isNumeric (toUpperCase s) = isNumeric s.
Proof.
  unfold isNumeric. rewrite toUpperCase_empty. f_equal.
  induction s as [|c s IH]; simpl; [done|]. by rewrite isDigit_upper, IH.
Qed.

Lemma existsb_eqb (s : string) (l : list string) :
  existsb (String.eqb s) l = true <-> s ∈ l.
Proof.
  rewrite existsb_exists. split.
  - intros (x & Hx & ->%String.eqb_eq). by apply list_elem_of_In.
  - intros Hs. exists s. split; [by apply list_elem_of_In|].
    apply String.eqb_refl.
Qed.

Lemma normalizeProtocol_known (n : string) :
  n = "OTHER"%string \/ n ∈ knownProtocols -> normalizeProtocol (Some n) = n.
Proof.
  intros [->|Hn]; [done|].
  assert (forallb (fun k => String.eqb (normalizeProtocol (Some k)) k)
            knownProtocols = true) as Hall by (vm_compute; reflexivity).
  rewrite forallb_forall in Hall.
  apply String.eqb_eq, Hall. by apply list_elem_of_In.
Qed.

Lemma normalizeProtocol_cases (protocol : option string) :
  normalizeProtocol protocol = "OTHER"%string
  \/ exists s, protocol = Some s
               /\ normalizeProtocol protocol = toUpperCase s
               /\ toUpperCase s ∈ knownProtocols.
Proof.
  unfold normalizeProtocol.
  destruct (Js.truthyS protocol) eqn:Htr; cbn [negb]; [|by left].
  destruct protocol as [s|]; [|done].
  change (default ""%string (Some s)) with s.
  destruct (isNumeric s); [by left|].
  destruct (existsb (String.eqb (toUpperCase s)) knownProtocols) eqn:Hex;
    [|by left].
  right. exists s. split; [done|]. split; [done|]. by apply existsb_eqb.
Qed.

Lemma normalizeProtocol_toUpperCase (protocol : option string) :
  normalizeProtocol (toUpperCase <$> protocol) = normalizeProtocol protocol.
Proof.
  destruct protocol as [s|]; [|done]. simpl.
  unfold normalizeProtocol, Js.truthyS. simpl.
  by rewrite toUpperCase_empty, isNumeric_toUpperCase, toUpperCase_idemp.
Qed.

Lemma objGet_elem_of {V} (k : string) (o : list (string * V)) (v : V) :
  objGet k o = Some v -> (k, v) ∈ o.
Proof.
  induction o as [|[k' v'] o IH]; simpl; [done|].
  destruct (String.eqb_spec k k') as [->|_].
  - intros [= ->]. apply list_elem_of_here.
  - intros ?. apply list_elem_of_further. by apply IH.
Qed.

(** Every key of the table is [OTHER] or a known protocol; every known
    protocol has an entry; every colour is a non-empty string. *)
Lemma colors_keys (k c : string) :
  objGet k colors = Some c ->
  (k = "OTHER"%string \/ k ∈ knownProtocols)
  /\ Js.truthyS (Some c) = true.
Proof.
  intros H%objGet_elem_of.
  assert (forallb (fun kc => (String.eqb (fst kc) "OTHER"
                              || existsb (String.eqb (fst kc)) knownProtocols)
                             && Js.truthyS (Some (snd kc)))
            colors = true) as Hall by (vm_compute; reflexivity).
  rewrite forallb_forall in Hall.
  specialize (Hall (k, c) ltac:(by apply list_elem_of_In)). simpl in Hall.
  apply andb_true_iff in Hall as [Hk Hc]. split; [|done].
  apply orb_true_iff in Hk as [->%String.eqb_eq|Hk]; [by left|].
  right. by apply existsb_eqb.
Qed.

Lemma colors_known (n : string) :
  n = "OTHER"%string \/ n ∈ knownProtocols ->
  Js.truthyS (objGet n colors) = true.
Proof.
  intros [->|Hn]; [done|].
  assert (forallb (fun k => Js.truthyS (objGet k colors)) knownProtocols
          = true) as Hall by (vm_compute; reflexivity).
  rewrite forallb_forall in Hall. apply Hall. by apply list_elem_of_In.
Qed.

Lemma orS_same (a : option string) : Js.orS a a = a.
Proof. unfold Js.orS. by destruct (Js.truthyS a). Qed.

End ProtocolNames.

(** X5. [normalizeProtocol] returns [OTHER] or one of the fifty known
    protocols, whatever it is given; it returns its own results unchanged,
    does not depend on the case of the letters, and the function of the
    same name in the map script returns the same. *)
Theorem normalizeProtocol_closed (protocol : option string) :
  let n := Dashboard.normalizeProtocol protocol in
  (n = "OTHER"%string \/ n ∈ Dashboard.knownProtocols)
  /\ length Dashboard.knownProtocols = 50%nat
  /\ Dashboard.normalizeProtocol (Some n) = n
  /\ Dashboard.normalizeProtocol (Dashboard.toUpperCase <$> protocol) = n
  /\ MapScript.normalizeProtocol protocol = n.
Proof.
  intros n.
  assert (n = "OTHER"%string \/ n ∈ Dashboard.knownProtocols) as Hn.
  { destruct (normalizeProtocol_cases protocol) as [?|(s & _ & Hs & ?)];
      [by left|right]. unfold n. by rewrite Hs. }
  split; [done|]. split; [done|]. split; [by apply normalizeProtocol_known|].
  split; [|done]. apply normalizeProtocol_toUpperCase.
Qed.

(** X6. The colour of a protocol is the entry of its normalised name in the
    table: [getProtocolColor] of the dashboard and of the map script return
    the same colour for every protocol, never [undefined], and the colour
    of [OTHER] for every name that is not a known protocol. *)
Theorem getProtocolColor_by_normalised_name (protocol : option string) :
  let n := Dashboard.normalizeProtocol protocol in
  Dashboard.getProtocolColor protocol = Dashboard.objGet n Dashboard.colors
  /\ MapScript.getProtocolColor protocol = Dashboard.getProtocolColor protocol
  /\ is_Some (Dashboard.getProtocolColor protocol)
  /\ (n = "OTHER"%string ->
      Dashboard.getProtocolColor protocol = Some "#78909C"%string).
Proof.
  intros n.
  assert (Dashboard.getProtocolColor protocol
          = Dashboard.objGet n Dashboard.colors) as Hd.
  { unfold Dashboard.getProtocolColor.
    set (key := Dashboard.keyOf (Dashboard.toUpperCase <$> protocol)).
    destruct (Dashboard.objGet key Dashboard.colors) as [c|] eqn:Hc.
    - destruct (colors_keys key c Hc) as [Hkey ->].
      assert (n = key) as ->; [|done].
      destruct protocol as [s|]; [|by vm_compute in Hc].
      change key with (Dashboard.toUpperCase s) in *.
      pose proof (normalizeProtocol_known _ Hkey) as Hnk.
      pose proof (normalizeProtocol_toUpperCase (Some s)) as Hup.
      change (Dashboard.toUpperCase <$> Some s)
        with (Some (Dashboard.toUpperCase s)) in Hup.
      unfold n. congruence.
    - simpl.
      destruct (normalizeProtocol_cases protocol) as [Ho|(s & -> & Hs & Hk)].
      + unfold n. by rewrite Ho.
      + change key with (Dashboard.toUpperCase s) in Hc.
        pose proof (colors_known (Dashboard.toUpperCase s) (or_intror Hk))
          as Htr.
        by rewrite Hc in Htr. }
  assert (Js.truthyS (Dashboard.objGet n Dashboard.colors) = true) as Htr.
  { apply colors_known.
    destruct (normalizeProtocol_cases protocol) as [?|(s & _ & Hs & ?)];
      [by left|right]. unfold n. by rewrite Hs. }
  split; [done|]. split; [|split].
  - rewrite Hd. unfold MapScript.getProtocolColor.
    change MapScript.colors with Dashboard.colors.
    change (MapScript.normalizeProtocol protocol) with n.
    unfold Js.orS. by rewrite Htr.
  - rewrite Hd. destruct (Dashboard.objGet n Dashboard.colors); [by eexists|done].
  - intros Hn. by rewrite Hd, Hn.
Qed.

Lemma getProtocolColor_by_normalised_name_witness :
  Dashboard.getProtocolColor (Some "8080"%string) = Some "#78909C"%string.
Proof.
  exact (proj2 (proj2 (proj2
           (getProtocolColor_by_normalised_name (Some "8080"%string))))
           eq_refl).
Defined.

(** ** Objects used as dictionaries *)

Section Dictionaries.

Import Dashboard.

Context {V : Type}.

Lemma objGet_objSet_eq (k : string) (v : V) (o : list (string * V)) :
  objGet k (objSet k v o) = Some v.
Proof.
  induction o as [|[k' v'] o IH]; simpl.
  - by rewrite String.eqb_refl.
  - destruct (String.eqb_spec k k') as [->|Hne]; simpl.
    + by rewrite String.eqb_refl.
    + by destruct (String.eqb_spec k k').
Qed.

Lemma objGet_objSet_ne (k k' : string) (v : V) (o : list (string * V)) :
  k <> k' -> objGet k (objSet k' v o) = objGet k o.
Proof.
  intros Hne. induction o as [|[k0 v0] o IH]; simpl.
  - by destruct (String.eqb_spec k k').
  - destruct (String.eqb_spec k' k0) as [->|Hne0]; simpl.
    + by destruct (String.eqb_spec k k0).
    + by rewrite IH.
Qed.

Lemma objGet_None (k : string) (o : list (string * V)) :
  objGet k o = None <-> k ∉ List.map fst o.
Proof.
  induction o as [|[k' v'] o IH]; simpl.
  - split; [intros _; apply not_elem_of_nil|done].
  - rewrite not_elem_of_cons.
    destruct (String.eqb_spec k k') as [->|Hne]; [split; [done|tauto]|].
    rewrite IH. tauto.
Qed.

Lemma keys_objSet (k : string) (v : V) (o : list (string * V)) :
  List.map fst (objSet k v o)
  = match objGet k o with
    | Some _ => List.map fst o
    | None => List.map fst o ++ [k]
    end.
Proof.
  induction o as [|[k' v'] o IH]; simpl; [done|].
  destruct (String.eqb_spec k k') as [->|Hne]; simpl; [done|].
  rewrite IH. by destruct (objGet k o).
Qed.

Lemma NoDup_objSet (k : string) (v : V) (o : list (string * V)) :
  NoDup (List.map fst o) -> NoDup (List.map fst (objSet k v o)).
Proof.
  intros Hnd. rewrite keys_objSet.
  destruct (objGet k o) eqn:Hk; [done|].
  apply NoDup_app. split; [done|]. split; [|apply NoDup_singleton].
  intros x Hx Hx'%list_elem_of_singleton. subst x.
  by apply objGet_None in Hk.
Qed.

Lemma objGet_Some_elem_of (k : string) (o : list (string * V)) (v : V) :
  objGet k o = Some v -> (k, v) ∈ o.
Proof.
  induction o as [|[k' v'] o IH]; simpl; [done|].
  destruct (String.eqb_spec k k') as [->|_].
  - intros [= ->]. apply list_elem_of_here.
  - intros ?. apply list_elem_of_further. by apply IH.
Qed.

Lemma elem_of_objGet (k : string) (o : list (string * V)) (v : V) :
  NoDup (List.map fst o) -> (k, v) ∈ o -> objGet k o = Some v.
Proof.
  induction o as [|[k' v'] o IH]; simpl.
  - intros _ H. by apply elem_of_nil in H.
  - intros [Hk' Hnd]%NoDup_cons [[= -> ->]|Hin]%elem_of_cons.
    + by rewrite String.eqb_refl.
    + destruct (String.eqb_spec k k') as [->|_]; [|by apply IH].
      exfalso. apply Hk'. apply list_elem_of_fmap. by exists (k', v).
Qed.

Lemma total_objSet (m : V -> Z) (k : string) (v : V) (o : list (string * V)) :
  total m (objSet k v o) = total m o + m v - from_option m 0 (objGet k o).
Proof.
  induction o as [|[k' v'] o IH]; simpl; [lia|].
  destruct (String.eqb_spec k k') as [->|Hne]; simpl; [lia|].
  fold (total m (objSet k v o)). fold (total m o). lia.
Qed.

(** A dictionary updated under the key of each element of a list. *)
Section Keyed.

Context {E : Type} (key : E -> string) (g : E -> option V -> V).

(** The entry of a key is built from the elements of that key alone, in
    their order. *)
Lemma objGet_keyed (k : string) (es : list E) (o : list (string * V)) :
  objGet k (foldl (keyed key g) o es)
  = foldl (fun v e => Some (g e v)) (objGet k o)
      (List.filter (fun e => String.eqb (key e) k) es).
Proof.
  revert o. induction es as [|e es IH]; intros o; simpl; [done|].
  rewrite IH. unfold keyed.
  destruct (String.eqb_spec (key e) k) as [<-|Hne]; simpl.
  - by rewrite objGet_objSet_eq.
  - by rewrite objGet_objSet_ne by done.
Qed.

Lemma NoDup_keyed (es : list E) (o : list (string * V)) :
  NoDup (List.map fst o) -> NoDup (List.map fst (foldl (keyed key g) o es)).
Proof.
  revert o. induction es as [|e es IH]; intros o Hnd; simpl; [done|].
  apply IH. by apply NoDup_objSet.
Qed.

Lemma keys_keyed (es : list E) (o : list (string * V)) (k : string) :
  k ∈ List.map fst (foldl (keyed key g) o es)
  -> k ∈ List.map fst o \/ k ∈ List.map key es.
Proof.
  revert o. induction es as [|e es IH]; intros o; simpl; [tauto|].
  intros [Hk|Hk]%IH.
  - unfold keyed in Hk. rewrite keys_objSet in Hk.
    destruct (objGet (key e) o); [tauto|].
    apply elem_of_app in Hk as [?|Hk%list_elem_of_singleton]; [tauto|].
    right. rewrite Hk. apply list_elem_of_here.
  - right. by apply list_elem_of_further.
Qed.

Lemma total_keyed (m : V -> Z) (es : list E) (o : list (string * V)) :
  (forall e v, m (g e v) = from_option m 0 v + 1) ->
  total m (foldl (keyed key g) o es) = total m o + Z.of_nat (length es).
Proof.
  intros Hm. revert o. induction es as [|e es IH]; intros o; simpl; [lia|].
  rewrite IH. unfold keyed. rewrite total_objSet, Hm. lia.
Qed.

End Keyed.

End Dictionaries.

(** Counting up under a key. *)
Lemma foldl_count_up {E} (l : list E) (v : option Z) :
  foldl (fun v (_ : E) => Some (default 0 v + 1)) v l
  = match l with
    | [] => v
    | _ => Some (default 0 v + Z.of_nat (length l))
    end.
Proof.
  revert v. induction l as [|e l IH]; intros v; [done|].
  simpl foldl. rewrite IH. destruct l; simpl; f_equal; lia.
Qed.

Section Histogram.

Import Dashboard.

Variable localTZA : Z -> Z.

Lemma updateProtocolStats_fold (events : list Event) (o : list (string * Z)) :
  foldl (fun s e => updateProtocolStats (protocol e) s) o events
  = foldl (keyed (fun e => normalizeProtocol (protocol e))
             (fun _ v => default 0 v + 1))
      o (List.filter (fun e => Js.truthyS (protocol e)) events).
Proof.
  revert o. induction events as [|e l IH]; intros o; [done|]. simpl.
  rewrite IH. unfold updateProtocolStats.
  by destruct (Js.truthyS (protocol e)).
Qed.

Lemma filter_filter_bool {A} (f g : A -> bool) (l : list A) :
  List.filter f (List.filter g l) = List.filter (fun x => g x && f x) l.
Proof.
  induction l as [|x l IH]; [done|]. simpl.
  destruct (g x); simpl; [|done]. destruct (f x); by rewrite IH.
Qed.

Lemma objGet_protocol_fold (n : string) (events : list Event)
    (o : list (string * Z)) :
  objGet n (foldl (fun s e => updateProtocolStats (protocol e) s) o events)
  = match List.filter (withProtocol n) events with
    | [] => objGet n o
    | _ =>
        Some (default 0 (objGet n o)
              + Z.of_nat (length (List.filter (withProtocol n) events)))
    end.
Proof.
  rewrite updateProtocolStats_fold, objGet_keyed, filter_filter_bool.
  fold (withProtocol n). apply foldl_count_up.
Qed.

Lemma protocolStats_replayAll (now : Z) (events : list Event) (d : State) :
  protocolStats (Dashboard.replayAll localTZA now events d)
  = foldl (fun s e => updateProtocolStats (protocol e) s) (protocolStats d)
      events.
Proof.
  unfold Dashboard.replayAll. revert d.
  induction events as [|e l IH]; intros d; [done|]. simpl. by rewrite IH.
Qed.

Lemma ipStats_replayAll (now : Z) (events : list Event) (d : State) :
  ipStats (Dashboard.replayAll localTZA now events d)
  = foldl (fun s e => updateIPTracking now (Js.orS (ip e) (source_ip e))
                        (country e) e s) (ipStats d) events.
Proof.
  unfold Dashboard.replayAll. revert d.
  induction events as [|e l IH]; intros d; [done|]. simpl. by rewrite IH.
Qed.

Lemma countryTrackingStats_replayAll (now : Z) (events : list Event)
    (d : State) :
  countryTrackingStats (Dashboard.replayAll localTZA now events d)
  = foldl (fun s e => updateCountryTracking now (country e) e s)
      (countryTrackingStats d) events.
Proof.
  unfold Dashboard.replayAll. revert d.
  induction events as [|e l IH]; intros d; [done|]. simpl. by rewrite IH.
Qed.

End Histogram.

(** ** The protocol histogram during a replay *)

Section Trackers.

Import Dashboard.

Variable localTZA : Z -> Z.

Lemma filter_snoc {A} (f : A -> bool) (l : list A) (x : A) :
  List.filter f (l ++ [x]) = List.filter f l ++ (if f x then [x] else []).
Proof. rewrite List.filter_app. simpl. by destruct (f x). Qed.

Lemma protocol_fold_keys (events : list Event) (k : string) :
  k ∈ List.map fst
        (foldl (fun s e => updateProtocolStats (protocol e) s) [] events) ->
  k = "OTHER"%string \/ k ∈ knownProtocols.
Proof.
  rewrite updateProtocolStats_fold.
  intros [Hk|Hk]%keys_keyed; [by apply elem_of_nil in Hk|].
  apply list_elem_of_fmap in Hk as (e & -> & _).
  destruct (normalizeProtocol_cases (protocol e)) as [?|(s & _ & Hs & ?)];
    [by left|right]. by rewrite Hs.
Qed.

Lemma protocol_fold_NoDup (events : list Event) :
  NoDup (List.map fst
           (foldl (fun s e => updateProtocolStats (protocol e) s) [] events)).
Proof.
  rewrite updateProtocolStats_fold. apply NoDup_keyed. constructor.
Qed.

Lemma protocol_fold_total (events : list Event) :
  total id (foldl (fun s e => updateProtocolStats (protocol e) s) [] events)
  = Z.of_nat (length (List.filter (fun e => Js.truthyS (protocol e)) events)).
Proof.
  rewrite updateProtocolStats_fold, total_keyed; [done|].
  intros e [v|]; simpl; lia.
Qed.

End Trackers.

(** X7. The protocol histogram is exact: the replay loop raises the count
    of a normalised protocol by the number of replayed events that carry a
    protocol of that name. Started from an empty histogram, the histogram
    has one entry for each name that occurred, at most 51 of them ([OTHER]
    and the known protocols), and its counts add up to the number of
    events that carry a protocol. *)
Theorem replay_counts_protocols (localTZA : Z -> Z) (now : Z)
    (events : list Event) (d : Dashboard.State) (n : string) :
  let d' := Dashboard.replayAll localTZA now events d in
  let mine := List.filter (withProtocol n) events in
  default 0 (Dashboard.objGet n (Dashboard.protocolStats d'))
  = default 0 (Dashboard.objGet n (Dashboard.protocolStats d))
    + Z.of_nat (length mine)
  /\ (Dashboard.protocolStats d = [] ->
      (Dashboard.objGet n (Dashboard.protocolStats d') = None <-> mine = [])
      /\ NoDup (List.map fst (Dashboard.protocolStats d'))
      /\ Forall (fun k => k = "OTHER"%string \/ k ∈ Dashboard.knownProtocols)
           (List.map fst (Dashboard.protocolStats d'))
      /\ (length (Dashboard.protocolStats d') <= 51)%nat
      /\ total id (Dashboard.protocolStats d')
         = Z.of_nat
             (length (List.filter (fun e => Js.truthyS (protocol e)) events))).
Proof.
  intros d' mine. unfold d'. rewrite protocolStats_replayAll.
  pose proof (objGet_protocol_fold n events (Dashboard.protocolStats d)) as Hn.
  fold mine in Hn. split.
  { rewrite Hn. destruct mine; simpl; lia. }
  intros Hempty. rewrite Hempty in *.
  assert (Forall (fun k => k = "OTHER"%string \/ k ∈ Dashboard.knownProtocols)
            (List.map fst
               (foldl (fun s e =>
                         Dashboard.updateProtocolStats (protocol e) s)
                  [] events))) as Hkeys.
  { rewrite Forall_forall. intros k. apply protocol_fold_keys. }
  split; [|split; [apply protocol_fold_NoDup|split; [done|split]]].
  - rewrite Hn. by destruct mine.
  - rewrite <- (length_map fst).
    change 51%nat
      with (length ("OTHER"%string :: Dashboard.knownProtocols)).
    apply submseteq_length, NoDup_submseteq; [apply protocol_fold_NoDup|].
    intros k Hk. rewrite Forall_forall in Hkeys.
    destruct (Hkeys k Hk) as [->|?];
      [apply list_elem_of_here|by apply list_elem_of_further].
  - apply protocol_fold_total.
Qed.

Lemma replay_counts_protocols_witness :
  let d :=
    Dashboard.replayAll Scenario.utc (Scenario.t0 + 120000)
      [Scenario.attack; Scenario.other; Scenario.attack]
      (Dashboard.initial Scenario.t0 (AttackCache.IndexedDB [])) in
  default 0 (Dashboard.objGet "SSH" (Dashboard.protocolStats d)) = 2
  /\ total id (Dashboard.protocolStats d) = 3.
Proof.
  intros d.
  destruct (replay_counts_protocols Scenario.utc (Scenario.t0 + 120000)
              [Scenario.attack; Scenario.other; Scenario.attack]
              (Dashboard.initial Scenario.t0 (AttackCache.IndexedDB []))
              "SSH") as (Hn & Hall).
  destruct (Hall eq_refl) as (_ & _ & _ & _ & Htotal).
  split; [exact Hn|exact Htotal].
Defined.

(** ** The address tracker during a replay *)

Section AddressTracker.

Import Dashboard.

Lemma tracksAddress_step (now : Z) (mine : list Event) (e : Event)
    (old : option IpStats) (o : list (string * IpStats)) :
  objGet (addressOf e) o = old ->
  match old with
  | None => mine = []
  | Some s => tracksAddress now mine s
  end ->
  exists s,
    objGet (addressOf e)
      (updateIPTracking now (Js.orS (ip e) (source_ip e)) (country e) e o)
    = Some s
    /\ tracksAddress now (mine ++ [e]) s.
Proof.
  intros Hold Hinv. unfold updateIPTracking.
  fold (addressOf e). rewrite Hold, objGet_objSet_eq.
  eexists. split; [done|].
  destruct old as [s|].
  - destruct Hinv as (Hh & Hle & Hex & (el & Hl & Hc) & (ef & Hf & Hi)).
    unfold tracksAddress. cbn [hits lastSeen i_country i_ip].
    split; [rewrite length_app; simpl; lia|].
    destruct (Z.leb_spec (lastSeen s) (seenAt now e)) as [Hcmp|Hcmp].
    + split.
      { apply Forall_app. split; [|by constructor].
        eapply Forall_impl; [exact Hle|]. simpl. intros; lia. }
      split; [apply Exists_app; right; by constructor|].
      split; [exists e; by rewrite last_snoc|].
      exists ef. split; [|done]. destruct mine; [done|]. done.
    + split.
      { apply Forall_app. split; [done|]. constructor; [lia|done]. }
      split; [apply Exists_app; by left|].
      split; [exists e; by rewrite last_snoc|].
      exists ef. split; [|done]. destruct mine; [done|]. done.
  - subst mine. unfold tracksAddress. cbn [hits lastSeen i_country i_ip].
    rewrite Z.leb_refl. simpl.
    split; [done|]. split; [by constructor|].
    split; [by constructor|]. split; by exists e.
Qed.

Lemma updateIPTracking_other (now : Z) (e : Event) (k : string)
    (o : list (string * IpStats)) :
  addressOf e <> k ->
  objGet k (updateIPTracking now (Js.orS (ip e) (source_ip e)) (country e)
              e o)
  = objGet k o.
Proof.
  intros Hne. unfold updateIPTracking. fold (addressOf e).
  by rewrite objGet_objSet_ne.
Qed.

Lemma total_updateIPTracking (now : Z) (addr ctry : option string)
    (e : Event) (o : list (string * IpStats)) :
  total hits (updateIPTracking now addr ctry e o) = total hits o + 1.
Proof.
  unfold updateIPTracking. rewrite total_objSet.
  destruct (objGet (keyOf addr) o); simpl; lia.
Qed.

Lemma NoDup_updateIPTracking (now : Z) (addr ctry : option string)
    (e : Event) (o : list (string * IpStats)) :
  NoDup (List.map fst o) ->
  NoDup (List.map fst (updateIPTracking now addr ctry e o)).
Proof. apply NoDup_objSet. Qed.

Lemma tracksAddress_fold (now : Z) (events : list Event) (k : string) :
  match objGet k
          (foldl (fun s e =>
                    updateIPTracking now (Js.orS (ip e) (source_ip e))
                      (country e) e s) [] events) with
  | None => List.filter (fun e => String.eqb (addressOf e) k) events = []
  | Some s =>
      tracksAddress now
        (List.filter (fun e => String.eqb (addressOf e) k) events) s
  end.
Proof.
  induction events as [|e events IH] using rev_ind; [done|].
  rewrite foldl_app, filter_snoc. simpl.
  set (o := foldl _ [] events) in *.
  destruct (String.eqb_spec (addressOf e) k) as [<-|Hne].
  - destruct (tracksAddress_step now _ e _ o eq_refl IH) as (s & -> & Hs).
    done.
  - rewrite updateIPTracking_other by done. by rewrite app_nil_r.
Qed.

End AddressTracker.

(** X8. The address tracker is exact: after the replay loop has run over
    a list of events on a dashboard with an empty tracker, an address has
    an entry exactly when an event came from it, and the entry records the
    number of its events as [hits], the latest of their times as
    [lastSeen], the country of the last one and the address of the first
    one. The hits of all entries add up to the number of events. *)
Theorem replay_counts_addresses (localTZA : Z -> Z) (now : Z)
    (events : list Event) (d : Dashboard.State) (k : string) :
  Dashboard.ipStats d = [] ->
  let d' := Dashboard.replayAll localTZA now events d in
  let mine := List.filter (fun e => String.eqb (addressOf e) k) events in
  match Dashboard.objGet k (Dashboard.ipStats d') with
  | None => mine = []
  | Some s => tracksAddress now mine s
  end
  /\ NoDup (List.map fst (Dashboard.ipStats d'))
  /\ total Dashboard.hits (Dashboard.ipStats d')
     = Z.of_nat (length events).
Proof.
  intros Hempty d' mine. unfold d'.
  rewrite ipStats_replayAll, Hempty.
  split; [apply tracksAddress_fold|].
  induction events as [|e events IH] using rev_ind;
    [split; [constructor|done]|].
  rewrite foldl_app, length_app. simpl. destruct IH as [Hnd Htotal].
  split; [by apply NoDup_updateIPTracking|].
  rewrite total_updateIPTracking, Htotal. lia.
Qed.

Lemma replay_counts_addresses_witness :
  let d :=
    Dashboard.replayAll Scenario.utc (Scenario.t0 + 120000)
      [Scenario.attack; Scenario.other; Scenario.attack]
      (Dashboard.initial Scenario.t0 (AttackCache.IndexedDB [])) in
  total Dashboard.hits (Dashboard.ipStats d) = 3
  /\ Dashboard.hits <$> Dashboard.objGet "198.51.100.7" (Dashboard.ipStats d)
     = Some 2.
Proof.
  intros d.
  destruct (replay_counts_addresses Scenario.utc (Scenario.t0 + 120000)
              [Scenario.attack; Scenario.other; Scenario.attack]
              (Dashboard.initial Scenario.t0 (AttackCache.IndexedDB []))
              "198.51.100.7" eq_refl) as (Hk & _ & Htotal).
  split; [exact Htotal|].
  fold d in Hk.
  destruct (Dashboard.objGet "198.51.100.7" (Dashboard.ipStats d)) as [s|];
    [|discriminate Hk].
  destruct Hk as (Hh & _). simpl. f_equal. exact Hh.
Defined.

(** ** The country tracker during a replay *)

Section CountryTracker.

Import Dashboard.

(** The loop of [pickTopProtocol] on a pair of the largest count so far and
    its protocol. *)
Lemma pickTop_fold (counts : list (string * Z)) (m : Z) (t : string) :
  let r := foldl (fun acc kv =>
                    if fst acc <? snd kv then (snd kv, fst kv) else acc)
             (m, t) counts in
  m <= fst r
  /\ Forall (fun kv => snd kv <= fst r) counts
  /\ (r = (m, t) \/ (snd r, fst r) ∈ counts).
Proof.
  revert m t. induction counts as [|[k c] counts IH]; intros m t; simpl.
  - split; [lia|]. split; [constructor|by left].
  - destruct (Z.ltb_spec m c) as [Hlt|Hge].
    + destruct (IH c k) as (Hle & Hall & Hin).
      split; [lia|]. split; [by constructor|].
      right. destruct Hin as [->|Hin];
        [apply list_elem_of_here|by apply list_elem_of_further].
    + destruct (IH m t) as (Hle & Hall & Hin).
      split; [done|]. split; [constructor; [simpl; lia|done]|].
      destruct Hin as [?|Hin]; [by left|].
      right. by apply list_elem_of_further.
Qed.

(** [pickTopProtocol] picks an entry with the largest count. *)
Lemma pickTopProtocol_largest (counts : list (string * Z)) :
  counts <> [] ->
  Forall (fun kv => 0 < snd kv) counts ->
  exists c, (pickTopProtocol counts, c) ∈ counts
            /\ Forall (fun kv => snd kv <= c) counts.
Proof.
  intros Hne Hpos. unfold pickTopProtocol.
  destruct (pickTop_fold counts 0 "Unknown") as (Hle & Hall & Hin).
  set (r := foldl _ _ counts) in *.
  destruct Hin as [Heq|Hin].
  - exfalso. destruct counts as [|[k c] counts]; [done|].
    apply Forall_cons in Hpos as [Hc _]. apply Forall_cons in Hall as [Hc' _].
    rewrite Heq in Hc'. simpl in *. lia.
  - exists (fst r). by split.
Qed.

Lemma updateProtocolStats_unfold (e : Event) (o : list (string * Z)) :
  (if Js.truthyS (protocol e)
   then let n := normalizeProtocol (protocol e) in
        objSet n (default 0 (objGet n o) + 1) o
   else o)
  = updateProtocolStats (protocol e) o.
Proof. unfold updateProtocolStats. by destruct (Js.truthyS (protocol e)). Qed.

Lemma addressesOf_snoc (mine : list Event) (e : Event) :
  addressesOf (mine ++ [e])
  = (if Js.truthyS (ip e) then {[ default "" (ip e) ]} ∪ addressesOf mine
     else addressesOf mine).
Proof.
  unfold addressesOf. rewrite omap_app, list_to_set_app_L. simpl.
  destruct (Js.truthyS (ip e)) eqn:Htr.
  - destruct (ip e) as [a|]; [|done]. simpl.
    rewrite (right_id_L ∅ (∪)). apply (comm_L (∪)).
  - simpl. apply (right_id_L ∅ (∪)).
Qed.

Lemma tracksCountry_step (now : Z) (mine : list Event) (e : Event)
    (old : option CountryStats) (o : list (string * CountryStats)) :
  objGet (keyOf (country e)) o = old ->
  match old with
  | None => mine = []
  | Some s => tracksCountry mine s
  end ->
  exists s,
    objGet (keyOf (country e)) (updateCountryTracking now (country e) e o)
    = Some s
    /\ tracksCountry (mine ++ [e]) s.
Proof.
  intros Hold Hinv. unfold updateCountryTracking.
  rewrite Hold, objGet_objSet_eq. eexists. split; [done|].
  assert (exists s0,
            match old with
            | Some s => s
            | None => mkCountryStats 0 (country e) (seenAt now e) "Unknown"
                        [] ∅ "Unknown" "XX"
            end = s0 /\ tracksCountry mine s0) as (s0 & -> & Hs0).
  { destruct old as [s|]; [by exists s|]. subst mine. by eexists. }
  destruct Hs0 as (Hh & Hc & Ht & Hu).
  unfold tracksCountry.
  cbn [c_hits protocolCounts topProtocol uniqueIPs].
  rewrite foldl_app, addressesOf_snoc, <- Hc, <- Hu. simpl foldl.
  rewrite <- updateProtocolStats_unfold.
  split; [rewrite length_app; simpl; lia|]. split; [done|].
  split; [|done].
  destruct (Js.truthyS (protocol e)); [done|exact Ht].
Qed.

Lemma updateCountryTracking_other (now : Z) (e : Event) (k : string)
    (o : list (string * CountryStats)) :
  keyOf (country e) <> k ->
  objGet k (updateCountryTracking now (country e) e o) = objGet k o.
Proof.
  intros Hne. unfold updateCountryTracking. by rewrite objGet_objSet_ne.
Qed.

Lemma tracksCountry_fold (now : Z) (events : list Event) (k : string) :
  match objGet k
          (foldl (fun s e => updateCountryTracking now (country e) e s)
             [] events) with
  | None =>
      List.filter (fun e => String.eqb (keyOf (country e)) k) events = []
  | Some s =>
      tracksCountry
        (List.filter (fun e => String.eqb (keyOf (country e)) k) events) s
  end.
Proof.
  induction events as [|e events IH] using rev_ind; [done|].
  rewrite foldl_app, filter_snoc. simpl.
  set (o := foldl _ [] events) in *.
  destruct (String.eqb_spec (keyOf (country e)) k) as [<-|Hne].
  - destruct (tracksCountry_step now _ e _ o eq_refl IH) as (s & -> & Hs).
    done.
  - rewrite updateCountryTracking_other by done. by rewrite app_nil_r.
Qed.

Lemma size_addressesOf (mine : list Event) :
  (size (addressesOf mine) <= length mine)%nat.
Proof.
  induction mine as [|e mine IH] using rev_ind; [done|].
  rewrite addressesOf_snoc, length_app. simpl.
  destruct (Js.truthyS (ip e)); [|lia].
  pose proof (size_union_alt ({[default ""%string (ip e)]} : gset string)
                (addressesOf mine)) as Hs.
  rewrite Hs, size_singleton.
  pose proof (subseteq_size (addressesOf mine ∖ {[default ""%string (ip e)]})
                (addressesOf mine) (subseteq_difference_l _ _ _ (reflexivity _))).
  lia.
Qed.

Lemma protocol_fold_positive (events : list Event) :
  Forall (fun kv => 0 < snd kv)
    (foldl (fun s e => updateProtocolStats (protocol e) s) [] events).
Proof.
  rewrite Forall_forall. intros [n c] Hin.
  apply elem_of_objGet in Hin; [|apply protocol_fold_NoDup].
  rewrite objGet_protocol_fold in Hin. simpl in *.
  destruct (List.filter (withProtocol n) events) as [|e l] eqn:Hf; [done|].
  injection Hin as <-. simpl. lia.
Qed.

End CountryTracker.

(** X9. The country tracker is exact: after the replay loop has run over
    a list of events on a dashboard with an empty tracker, the entry of a
    country records the number of its events as [hits]; its protocol
    counts are the histogram of the protocols of those events; its
    [topProtocol] is a protocol with the largest count as soon as one of
    the events carries a protocol; and its [uniqueIPs] are the addresses of
    those events, never more than the hits. *)
Theorem replay_tracks_countries (localTZA : Z -> Z) (now : Z)
    (events : list Event) (d : Dashboard.State) (k : string) :
  Dashboard.countryTrackingStats d = [] ->
  let d' := Dashboard.replayAll localTZA now events d in
  let mine :=
    List.filter (fun e => String.eqb (Dashboard.keyOf (country e)) k) events in
  match Dashboard.objGet k (Dashboard.countryTrackingStats d') with
  | None => mine = []
  | Some s =>
      Dashboard.c_hits s = Z.of_nat (length mine)
      /\ (forall p,
            default 0 (Dashboard.objGet p (Dashboard.protocolCounts s))
            = Z.of_nat (length (List.filter (withProtocol p) mine)))
      /\ Dashboard.topProtocol s
         = Dashboard.pickTopProtocol (Dashboard.protocolCounts s)
      /\ (Exists (fun e => Js.truthyS (protocol e) = true) mine ->
          exists c,
            Dashboard.objGet (Dashboard.topProtocol s)
              (Dashboard.protocolCounts s) = Some c
            /\ forall p c',
                 Dashboard.objGet p (Dashboard.protocolCounts s) = Some c' ->
                 c' <= c)
      /\ Dashboard.uniqueIPs s = addressesOf mine
      /\ Z.of_nat (size (Dashboard.uniqueIPs s)) <= Dashboard.c_hits s
  end.
Proof.
  intros Hempty d' mine. unfold d'.
  rewrite countryTrackingStats_replayAll, Hempty.
  pose proof (tracksCountry_fold now events k) as H. fold mine in H.
  destruct (Dashboard.objGet k _) as [s|]; [|done].
  destruct H as (Hh & Hc & Ht & Hu).
  split; [done|]. split; [|split; [done|split; [|split; [done|]]]].
  - intros p. rewrite Hc, objGet_protocol_fold.
    by destruct (List.filter (withProtocol p) mine).
  - intros Hex.
    destruct (pickTopProtocol_largest (Dashboard.protocolCounts s))
      as (c & Hin & Hmax).
    + rewrite Hc. apply Exists_exists in Hex as (e & He & Htr).
      intros Hnil.
      pose proof (objGet_protocol_fold
                    (Dashboard.normalizeProtocol (protocol e)) mine []) as Hg.
      rewrite Hnil in Hg.
      destruct (List.filter _ mine) as [|e' l] eqn:Hf; [|done].
      assert (e ∈ List.filter
                (withProtocol (Dashboard.normalizeProtocol (protocol e))) mine)
        as Hin.
      { apply elem_of_filter_bool. split; [done|].
        unfold withProtocol. by rewrite Htr, String.eqb_refl. }
      rewrite Hf in Hin. by apply elem_of_nil in Hin.
    + rewrite Hc. apply protocol_fold_positive.
    + exists c. rewrite <- Ht in Hin. split.
      * apply elem_of_objGet; [|done]. rewrite Hc. apply protocol_fold_NoDup.
      * intros p c' Hp%objGet_Some_elem_of.
        rewrite Forall_forall in Hmax. by apply (Hmax (p, c')).
  - rewrite Hu, Hh. pose proof (size_addressesOf mine). lia.
Qed.

Lemma replay_tracks_countries_witness :
  let from := fun c p a =>
    mkEvent (Some a) (Some a) None (Some c) None None (Some p) None
      None None None None (Some Scenario.t0) None None None false in
  let d :=
    Dashboard.replayAll Scenario.utc (Scenario.t0 + 120000)
      [from "Norway" "ssh" "198.51.100.7"; from "Norway" "http" "198.51.100.7";
       from "Norway" "HTTP" "203.0.113.9"]%string
      (Dashboard.initial Scenario.t0 (AttackCache.IndexedDB [])) in
  exists s,
    Dashboard.objGet "Norway" (Dashboard.countryTrackingStats d) = Some s
    /\ Dashboard.c_hits s = 3
    /\ Dashboard.topProtocol s = "HTTP"%string
    /\ size (Dashboard.uniqueIPs s) = 2%nat.
Proof.
  intros from d.
  pose proof (replay_tracks_countries Scenario.utc (Scenario.t0 + 120000)
                [from "Norway" "ssh" "198.51.100.7";
                 from "Norway" "http" "198.51.100.7";
                 from "Norway" "HTTP" "203.0.113.9"]%string
                (Dashboard.initial Scenario.t0 (AttackCache.IndexedDB []))
                "Norway" eq_refl) as H.
  cbv zeta in H. fold d in H.
  destruct (Dashboard.objGet "Norway" (Dashboard.countryTrackingStats d))
    as [s|] eqn:Hs; [|by vm_compute in H].
  exists s. split; [reflexivity|].
  destruct H as (Hh & _ & _ & _ & _ & _).
  split; [exact Hh|].
  vm_compute in Hs. injection Hs as <-. split; reflexivity.
Defined.

(** ** The tables of the top addresses and countries *)

Section Ranking.

Context {A : Type} (key : A -> Z).

Lemma filter_insertBy (c : Z) (x : A) (l : list A) :
  List.filter (fun a => key a =? c) (Js.insertBy key x l)
  = if key x =? c then x :: List.filter (fun a => key a =? c) l
    else List.filter (fun a => key a =? c) l.
Proof.
  induction l as [|y l IH]; simpl; [done|].
  destruct (Z.leb_spec (key x) (key y)) as [Hle|Hgt]; simpl; [done|].
  rewrite IH.
  destruct (Z.eqb_spec (key y) c) as [Hy|Hy];
    destruct (Z.eqb_spec (key x) c) as [Hx|Hx]; try done. lia.
Qed.

(** The sort is stable. *)
Lemma filter_sortBy (c : Z) (l : list A) :
  List.filter (fun a => key a =? c) (Js.sortBy key l)
  = List.filter (fun a => key a =? c) l.
Proof.
  induction l as [|x l IH]; [done|].
  change (Js.sortBy key (x :: l)) with (Js.insertBy key x (Js.sortBy key l)).
  rewrite filter_insertBy, IH. simpl. by destruct (key x =? c).
Qed.

Lemma filter_take_prefix (f : A -> bool) (n : nat) (l : list A) :
  List.filter f (take n l) `prefix_of` List.filter f l.
Proof.
  exists (List.filter f (drop n l)).
  by rewrite <- List.filter_app, take_drop.
Qed.

Lemma StronglySorted_app_inv (R : relation A) (l1 l2 : list A) :
  StronglySorted R (l1 ++ l2) ->
  StronglySorted R l1
  /\ Forall (fun b => Forall (fun a => R a b) l1) l2.
Proof.
  induction l1 as [|x l1 IH]; simpl.
  - intros _. split; [constructor|].
    rewrite Forall_forall. intros; constructor.
  - intros [Hs Hall]%StronglySorted_inv.
    destruct (IH Hs) as [Hs1 H12].
    apply Forall_app in Hall as [Hx1 Hx2]. split; [by constructor|].
    rewrite Forall_forall in *. intros b Hb. constructor; [by apply Hx2|].
    by apply H12.
Qed.

Lemma StronglySorted_flip (l : list A) :
  StronglySorted (fun a b => - key a <= - key b) l ->
  StronglySorted (fun a b => key b <= key a) l.
Proof.
  induction 1 as [|x l _ IH Hall]; constructor; [done|].
  eapply Forall_impl; [exact Hall|]. simpl. lia.
Qed.

End Ranking.

Lemma ranking_take_sortBy {A} (key : A -> Z) (all : list A) :
  ranking key all (take 100 (Js.sortBy (fun s => - key s) all)).
Proof.
  set (sorted := Js.sortBy (fun s => - key s) all).
  assert (StronglySorted (fun a b => - key a <= - key b)
            (take 100 sorted ++ drop 100 sorted)) as Hs.
  { rewrite take_drop. apply sortBy_sorted. }
  apply StronglySorted_app_inv in Hs as [Htop Hrest].
  split; [|split; [|split]].
  - rewrite length_take. unfold sorted.
    by rewrite (Permutation_length (sortBy_Permutation _ all)).
  - by apply StronglySorted_flip.
  - exists (drop 100 sorted). split.
    + rewrite take_drop. apply sortBy_Permutation.
    + eapply Forall_impl; [exact Hrest|]. simpl. intros r Hr.
      eapply Forall_impl; [exact Hr|]. simpl. lia.
  - intros h.
    assert (forall l : list A,
              List.filter (fun s => key s =? h) l
              = List.filter (fun s => - key s =? - h) l) as Hf.
    { intros l. apply List.filter_ext. intros a.
      destruct (Z.eqb_spec (key a) h), (Z.eqb_spec (- key a) (- h)); lia. }
    rewrite !Hf. unfold sorted.
    rewrite <- (filter_sortBy (fun s => - key s) (- h) all).
    apply filter_take_prefix.
Qed.

(** X10. The tables of the top addresses and the top countries list at most
    a hundred entries, by hits in descending order; an entry that is left
    out has no more hits than any that is listed; and entries with equal
    hits keep the order they have among the entries of the object. *)
Theorem tables_rank_by_hits (ipStats : list (string * Dashboard.IpStats))
    (stats : list (string * Dashboard.CountryStats)) :
  ranking Dashboard.hits (List.map snd ipStats) (Dashboard.sortedIPs ipStats)
  /\ ranking Dashboard.c_hits (List.map snd stats)
       (Dashboard.sortedCountries stats).
Proof. split; apply ranking_take_sortBy. Qed.

(** ** The history of attacks *)

Section History.

Import Dashboard.

Variable localTZA : Z -> Z.

Lemma set_timestamp_twice (t : option Z) (e : Event) :
  set_timestamp t (set_timestamp t e) = set_timestamp t e.
Proof. done. Qed.

Lemma addAttackEvent_history (now : Z) (r : nat) (d : State) (e : Event) :
  objects d !! r = Some e ->
  attackHistory (Dashboard.addAttackEvent localTZA now r d)
  = limitHistory (attackHistory d ++ [r]).
Proof. intros He. unfold Dashboard.addAttackEvent. by rewrite He. Qed.

Lemma processAttackForDashboard_unfold (now : Z) (r : nat) (d : State)
    (e : Event) :
  objects d !! r = Some e ->
  objects (processAttackForDashboard now r d)
  = objects d ++ [set_timestamp (Js.orZ (timestamp e) (Some now)) e]
  /\ attackHistory (processAttackForDashboard now r d)
     = Js.sliceLast AttackCache.maxEvents
         (attackHistory d ++ [length (objects d)]).
Proof.
  intros He. unfold processAttackForDashboard. rewrite He.
  split; [done|].
  cbn [attackHistory set_attackHistory]. apply capped_sliceLast.
Qed.

(** What a [Traffic] message that reaches the dashboard does to the heap
    of objects and to the history: the object of the message and a copy of
    it, both with the time of arrival, and a reference to each. *)
Lemma Traffic_history (now : Z) (msg : Event) (d : State) :
  reachesDashboard msg = true ->
  let e := set_timestamp (Some now) msg in
  let r := length (objects d) in
  objects (Dashboard.Traffic localTZA now msg d) = objects d ++ [e; e]
  /\ attackHistory (Dashboard.Traffic localTZA now msg d)
     = Js.sliceLast AttackCache.maxEvents
         (limitHistory (attackHistory d ++ [r]) ++ [S r]).
Proof.
  intros Hmsg e r. rewrite Traffic_unfold by done. fold r. fold e.
  set (d1 := set_objects (objects d ++ [e]) d).
  assert (objects d1 !! r = Some e) as Hr.
  { unfold d1. cbn [objects set_objects]. by rewrite list_lookup_middle. }
  pose proof (addAttackEvent_objects localTZA now r d1 e Hr) as Hobj.
  pose proof (addAttackEvent_history now r d1 e Hr) as Hhist.
  change (set_timestamp (Some now) e) with e in Hobj.
  assert (objects (Dashboard.addAttackEvent localTZA now r d1)
          = objects d ++ [e]) as Hobj'.
  { rewrite Hobj. unfold d1. cbn [objects set_objects].
    rewrite list_insert_id; [done|]. by rewrite list_lookup_middle. }
  set (d2 := Dashboard.addAttackEvent localTZA now r d1) in *.
  assert (objects d2 !! r = Some e) as Hr2.
  { rewrite Hobj'. by rewrite list_lookup_middle. }
  destruct (processAttackForDashboard_unfold now r d2 e Hr2) as [-> ->].
  rewrite Hobj', Hhist. unfold d1. cbn [attackHistory set_objects].
  rewrite length_app. simpl length.
  replace (length (objects d) + 1)%nat with (S r) by (unfold r; lia).
  split; [|done].
  assert (set_timestamp (Js.orZ (timestamp e) (Some now)) e = e) as ->.
  { unfold e, Js.orZ. simpl. by destruct (negb (now =? 0)). }
  by rewrite <- app_assoc.
Qed.

Lemma limitHistory_length (h : list nat) :
  length (limitHistory h)
  = if (1000 <? length h)%nat then (length h - 1)%nat else length h.
Proof.
  unfold limitHistory. destruct (1000 <? length h)%nat; [|done].
  destruct h; simpl; lia.
Qed.

Lemma historyEvents_app (objs extra : list Event) (h : list nat) :
  Forall (fun r => (r < length objs)%nat) h ->
  omap (fun r => (objs ++ extra) !! r) h = omap (fun r => objs !! r) h.
Proof.
  induction 1 as [|r h Hr _ IH]; [done|]. csimpl.
  by rewrite IH, lookup_app_l.
Qed.

End History.

Section Rescans.

Import Dashboard.

Variable localTZA : Z -> Z.

Lemma Traffic_protocolStats (now : Z) (msg : Event) (d : State) :
  reachesDashboard msg = true ->
  protocolStats (Dashboard.Traffic localTZA now msg d)
  = updateProtocolStats (protocol msg) (protocolStats d).
Proof.
  intros Hmsg. rewrite Traffic_unfold by done.
  set (d1 := set_objects _ d).
  destruct (processAttackForDashboard_frame now (length (objects d))
              (Dashboard.addAttackEvent localTZA now (length (objects d)) d1))
    as (_ & _ & _ & _ & Hagg & _).
  unfold aggregates in Hagg. injection Hagg as _ _ _ _ ->.
  unfold Dashboard.addAttackEvent.
  assert (objects d1 !! length (objects d)
          = Some (set_timestamp (Some now) msg)) as ->.
  { unfold d1. cbn [objects set_objects]. by rewrite list_lookup_middle. }
  done.
Qed.

Lemma aggregate_snoc (now : Z) (l : list Event) (e : Event) (t : Z) :
  timestamp e = Some t -> now - t < 15 * 60 * 1000 ->
  let count := fun l =>
    foldl (fun stats attack =>
             let n := normalizeProtocol (protocol attack) in
             objSet n (default 0 (objGet n stats) + 1) stats)
      []
      (List.filter (fun attack => match timestamp attack with
                                  | Some t => now - t <? 15 * 60 * 1000
                                  | None => false
                                  end) l) in
  default 0 (objGet (normalizeProtocol (protocol e)) (count (l ++ [e])))
  = default 0 (objGet (normalizeProtocol (protocol e)) (count l)) + 1.
Proof.
  intros Ht Hlt count. unfold count. rewrite filter_snoc, Ht.
  destruct (Z.ltb_spec (now - t) (15 * 60 * 1000)); [|lia].
  rewrite foldl_app. simpl. by rewrite objGet_objSet_eq.
Qed.

End Rescans.

(** X11. A [Traffic] message that has the four coordinates without which
    its handler throws enters the history twice: [addAttackEvent] pushes
    the object of the message and [processAttackForDashboard] pushes a copy
    of it. The incremental protocol histogram counts the message once, and
    the rescans of the history count it twice: the 15-minute count of
    [aggregateProtocolStats] and the count of the current step of the
    timeline both rise by two. *)
Theorem Traffic_enters_history_twice (localTZA : Z -> Z) (now : Z)
    (msg : Event) (d : Dashboard.State) :
  reachesDashboard msg = true ->
  Forall (fun r => (r < length (Dashboard.objects d))%nat)
    (Dashboard.attackHistory d) ->
  (length (Dashboard.attackHistory d) < 1000)%nat ->
  let d' := Dashboard.Traffic localTZA now msg d in
  let e := set_timestamp (Some now) msg in
  let n := Dashboard.normalizeProtocol (protocol msg) in
  Dashboard.historyEvents d' = Dashboard.historyEvents d ++ [e; e]
  /\ (Js.truthyS (protocol msg) = true ->
      default 0 (Dashboard.objGet n (Dashboard.protocolStats d'))
      = default 0 (Dashboard.objGet n (Dashboard.protocolStats d)) + 1)
  /\ default 0
       (Dashboard.objGet n
          (Dashboard.protocolStats (Dashboard.aggregateProtocolStats now d')))
     = default 0
         (Dashboard.objGet n
            (Dashboard.protocolStats (Dashboard.aggregateProtocolStats now d)))
       + 2
  /\ Dashboard.getAttackCountForCurrentInterval now d'
     = Dashboard.getAttackCountForCurrentInterval now d + 2.
Proof.
  intros Hmsg Hvalid Hlen d' e n.
  destruct (Traffic_history localTZA now msg d Hmsg) as [Hobj Hhist].
  fold d' e in Hobj, Hhist.
  assert (Dashboard.historyEvents d' = Dashboard.historyEvents d ++ [e; e])
    as Hev.
  { unfold Dashboard.historyEvents. rewrite Hobj, Hhist.
    assert (Dashboard.limitHistory
              (Dashboard.attackHistory d ++ [length (Dashboard.objects d)])
            = Dashboard.attackHistory d ++ [length (Dashboard.objects d)])
      as ->.
    { unfold Dashboard.limitHistory. rewrite length_app. simpl.
      destruct (Nat.ltb_spec 1000 (length (Dashboard.attackHistory d) + 1));
        [lia|done]. }
    rewrite sliceLast_all.
    2:{ rewrite !length_app. simpl. pose proof maxEvents_pos.
        unfold AttackCache.maxEvents in *. lia. }
    rewrite <- app_assoc, omap_app. simpl.
    rewrite historyEvents_app by done. f_equal.
    rewrite (list_lookup_middle _ [e] e (length (Dashboard.objects d)))
      by done.
    replace (Dashboard.objects d ++ [e; e])
      with ((Dashboard.objects d ++ [e]) ++ [e]) by by rewrite <- app_assoc.
    rewrite (list_lookup_middle _ [] e (S (length (Dashboard.objects d)))).
    - done.
    - rewrite length_app. simpl. lia. }
  split; [done|]. split; [|split].
  - intros Htr. unfold d'. rewrite Traffic_protocolStats by done.
    unfold Dashboard.updateProtocolStats. rewrite Htr. simpl.
    fold n. by rewrite objGet_objSet_eq.
  - unfold Dashboard.aggregateProtocolStats.
    cbn [Dashboard.protocolStats Dashboard.set_protocolStats].
    rewrite Hev.
    change (Dashboard.historyEvents d ++ [e; e])
      with (Dashboard.historyEvents d ++ [e] ++ [e]).
    rewrite app_assoc.
    pose proof (aggregate_snoc now (Dashboard.historyEvents d ++ [e]) e now
                  eq_refl ltac:(lia)) as H2.
    pose proof (aggregate_snoc now (Dashboard.historyEvents d) e now
                  eq_refl ltac:(lia)) as H1.
    cbv zeta in H1, H2. change (protocol e) with (protocol msg) in H1, H2.
    fold n in H1, H2. rewrite H2, H1. lia.
  - unfold Dashboard.getAttackCountForCurrentInterval.
    destruct (Traffic_flags localTZA now msg d) as (_ & _ & Hint).
    fold d' in Hint. rewrite Hint, Hev.
    set (start := match Dashboard.timelineInterval d with
                  | Timeline.I1m => _ | Timeline.I1h => _
                  | Timeline.I24h => _ end).
    assert (start <= now) as Hstart.
    { unfold start. destruct (Dashboard.timelineInterval d);
        rewrite Z.mul_comm; apply Z.mul_div_le; lia. }
    rewrite List.filter_app, length_app. simpl.
    destruct (Z.leb_spec start now); [|lia]. simpl. lia.
Qed.

Lemma Traffic_enters_history_twice_witness :
  let d := Dashboard.initial Scenario.t0 (AttackCache.IndexedDB []) in
  let d' := Dashboard.Traffic Scenario.utc Scenario.t0 Scenario.attack d in
  Dashboard.historyEvents d' = [Scenario.attack; Scenario.attack]
  /\ Dashboard.protocolStats d' = [("SSH"%string, 1)]
  /\ Dashboard.protocolStats
       (Dashboard.aggregateProtocolStats Scenario.t0 d')
     = [("SSH"%string, 2)].
Proof.
  intros d d'.
  destruct (Traffic_enters_history_twice Scenario.utc Scenario.t0
              Scenario.attack d eq_refl ltac:(constructor)
              ltac:(simpl; lia))
    as (Hev & Hinc & Hagg & _).
  split; [exact Hev|]. split.
  - specialize (Hinc eq_refl). vm_compute in Hinc. vm_compute.
    reflexivity.
  - reflexivity.
Defined.

(** X12. The history is bounded by [maxEvents], not by the limit of 1000
    that [addAttackEvent] applies: a [Traffic] message that has the four
    coordinates without which its handler throws adds two references while
    the history holds fewer than 1000 and one from then on, until
    [processAttackForDashboard] cuts the history to its last [maxEvents]
    references, as [optimizeMemoryUsage] does. A message that lacks a
    coordinate leaves the dashboard as it is. *)
Theorem attackHistory_bounded (localTZA : Z -> Z) (now : Z) (msg : Event)
    (d : Dashboard.State) :
  let len := length (Dashboard.attackHistory d) in
  let d' := Dashboard.Traffic localTZA now msg d in
  (if reachesDashboard msg
   then length (Dashboard.attackHistory d')
        = Nat.min AttackCache.maxEvents
            (if (1000 <=? len)%nat then len + 1 else len + 2)%nat
   else d' = d)
  /\ (length (Dashboard.attackHistory (Dashboard.optimizeMemoryUsage d))
      <= AttackCache.maxEvents)%nat
  /\ Dashboard.attackHistory (Dashboard.optimizeMemoryUsage d)
       `suffix_of` Dashboard.attackHistory d.
Proof.
  intros len d'. split; [|split].
  - destruct (reachesDashboard msg) eqn:Hmsg;
      [|by apply Traffic_dropped].
    destruct (Traffic_history localTZA now msg d Hmsg) as [_ Hhist].
    fold d' in Hhist. rewrite Hhist. unfold Js.sliceLast.
    rewrite length_drop, length_app, limitHistory_length, length_app.
    fold len. cbn [length].
    destruct (Nat.ltb_spec 1000 (len + 1)), (Nat.leb_spec 1000 len);
      try lia; generalize AttackCache.maxEvents; lia.
  - unfold Dashboard.optimizeMemoryUsage. destruct (decide _) as [Hlt|Hge].
    + apply length_sliceLast.
    + lia.
  - unfold Dashboard.optimizeMemoryUsage. destruct (decide _) as [Hlt|Hge].
    + apply suffix_drop.
    + done.
Qed.

(** ** The timeline and the history *)

Section Window.

Import Timeline.

Lemma addToExisting_contiguous (d t s : Z) (tl : list Point) :
  0 < d ->
  contiguousFrom d s tl = true ->
  s <= t < s + Z.of_nat (length tl) * d ->
  addToExisting d t tl = Some (alter bump (Z.to_nat ((t - s) / d)) tl)
  /\ exists p, tl !! Z.to_nat ((t - s) / d) = Some p
               /\ p_timestamp p <= t < p_timestamp p + d.
Proof.
  intros Hd. revert s. induction tl as [|p tl IH]; intros s Hc Ht.
  - simpl in Ht. lia.
  - simpl in Hc. apply andb_true_iff in Hc as [Hp%Z.eqb_eq Hc].
    simpl. unfold inBucket. rewrite Hp.
    destruct (Z.leb_spec s t) as [_|]; [|lia].
    destruct (Z.ltb_spec t (s + d)) as [Hin|Hout]; simpl.
    + assert ((t - s) / d = 0) as -> by (apply Z.div_small; lia).
      simpl. split; [done|]. exists p. split; [done|lia].
    + assert ((t - s) / d = (t - (s + d)) / d + 1) as Hj.
      { replace (t - s) with (t - (s + d) + 1 * d) by lia.
        by rewrite Z.div_add by lia. }
      assert (0 <= (t - (s + d)) / d) by (apply Z.div_pos; lia).
      rewrite Hj, Z2Nat.inj_add by lia.
      replace (Z.to_nat ((t - (s + d)) / d) + Z.to_nat 1)%nat
        with (S (Z.to_nat ((t - (s + d)) / d))) by lia.
      destruct (IH (s + d) Hc) as (-> & q & Hq & Hrange).
      { rewrite length_cons in Ht. lia. }
      simpl. split; [done|]. by exists q.
Qed.

Lemma count_split (f : Event -> Z) (a b c : Z) (h : list Event) :
  a <= b <= c ->
  Nat.add (length (List.filter (fun e => (a <=? f e) && (f e <? b)) h))
    (length (List.filter (fun e => (b <=? f e) && (f e <? c)) h))
  = length (List.filter (fun e => (a <=? f e) && (f e <? c)) h).
Proof.
  intros Habc. induction h as [|e h IH]; [done|]. simpl.
  destruct (Z.leb_spec a (f e)), (Z.ltb_spec (f e) b),
    (Z.leb_spec b (f e)), (Z.ltb_spec (f e) c); simpl; lia.
Qed.

Lemma totalCount_populated (d s : Z) (f : Event -> Z) (h : list Event)
    (tl : list Point) :
  0 < d ->
  contiguousFrom d s tl = true ->
  totalCount
    (List.map
       (fun p =>
          mkPoint (p_timestamp p)
            (Z.of_nat (length (List.filter (fun a => inBucket d (f a) p) h)))
            (p_unit p)) tl)
  = Z.of_nat
      (length
         (List.filter
            (fun a => (s <=? f a) && (f a <? s + Z.of_nat (length tl) * d))
            h)).
Proof.
  intros Hd. revert s. induction tl as [|p tl IH]; intros s Hc.
  - simpl. rewrite Z.add_0_r.
    assert (List.filter (fun a => (s <=? f a) && (f a <? s)) h = []) as ->;
      [|done].
    induction h as [|e h IHh]; [done|]. simpl.
    destruct (Z.leb_spec s (f e)), (Z.ltb_spec (f e) s); simpl; try done; lia.
  - simpl in Hc. apply andb_true_iff in Hc as [Hp%Z.eqb_eq Hc].
    simpl map. unfold totalCount in *. simpl foldr.
    rewrite (IH (s + d) Hc). unfold inBucket. rewrite Hp.
    rewrite length_cons.
    replace (s + Z.of_nat (S (length tl)) * d)
      with (s + d + Z.of_nat (length tl) * d) by lia.
    rewrite <- Nat2Z.inj_add. f_equal.
    apply (count_split f s (s + d)). nia.
Qed.

Lemma totalCount_bump (j : nat) (l : list Point) :
  is_Some (l !! j) -> totalCount (alter bump j l) = totalCount l + 1.
Proof.
  revert j. induction l as [|x l IH]; intros j [q Hj]; [done|].
  destruct j as [|j].
  - unfold totalCount. simpl. lia.
  - change (totalCount (x :: alter bump j l) = totalCount (x :: l) + 1).
    unfold totalCount in *. simpl. rewrite IH by by exists q. lia.
Qed.

End Window.

(** X13. An attack whose time lies inside the window of a timeline without
    gaps is counted in the bucket that contains its time, and in no other:
    that bucket counts one more and nothing else changes. *)
Theorem addAttackToTimeline_in_window (i : Timeline.Interval) (now : Z)
    (attack : Event) (tl : list Timeline.Point) (s L : Z) :
  let d := Timeline.getDurationForInterval i in
  let t := Timeline.attackTimeOf now attack in
  Timeline.contiguous d tl = true ->
  Timeline.windowStart tl = Some s ->
  Timeline.lastEnd d tl = Some L ->
  s <= t < L ->
  let j := Z.to_nat ((t - s) / d) in
  Timeline.addAttackToTimeline i now attack tl = alter Timeline.bump j tl
  /\ (exists p, tl !! j = Some p
                /\ Timeline.p_timestamp p <= t < Timeline.p_timestamp p + d)
  /\ totalCount (Timeline.addAttackToTimeline i now attack tl)
     = totalCount tl + 1.
Proof.
  intros d t Hc Hs HL Ht j.
  pose proof (duration_pos i) as Hd. fold d in Hd.
  destruct tl as [|p tl]; [done|].
  apply contiguous_inv in Hc as [_ Hc].
  simpl in Hs. injection Hs as Hs. rewrite Hs in Hc.
  assert (L = s + Z.of_nat (length (p :: tl)) * d) as HL'.
  { unfold Timeline.lastEnd in HL.
    destruct (last (p :: tl)) as [lp|] eqn:Hlast; [|done].
    simpl in HL. injection HL as <-.
    by apply contiguousFrom_last. }
  destruct (addToExisting_contiguous d t s (p :: tl) Hd Hc ltac:(lia))
    as (Hadd & q & Hq & Hrange).
  fold j in Hadd, Hq.
  assert (Timeline.addAttackToTimeline i now attack (p :: tl)
          = alter Timeline.bump j (p :: tl)) as Heq.
  { unfold Timeline.addAttackToTimeline. fold t d. by rewrite Hadd. }
  split; [done|]. split; [by exists q|].
  rewrite Heq. by eapply totalCount_bump.
Qed.

Lemma addAttackToTimeline_in_window_witness :
  let tl := Timeline.generateTimelineData Timeline.I24h Scenario.t0 in
  let early :=
    plainEvent "198.51.100.7" "SSH" (Scenario.t0 - 2 * 3600000) in
  Timeline.addAttackToTimeline Timeline.I24h Scenario.t0 early tl
  = alter Timeline.bump 21%nat tl.
Proof.
  intros tl early.
  exact (proj1 (addAttackToTimeline_in_window Timeline.I24h Scenario.t0
                  early tl 1699916400000 1700002800000
                  eq_refl eq_refl eq_refl
                  ltac:(split; [vm_compute; discriminate|reflexivity]))).
Defined.

(** X14. A change of interval counts the history anew, every entry once:
    the new timeline ends with the step that contains the present, and
    its counts add up to the number of attacks of the history whose time
    lies inside its window. *)
Theorem changeTimelineInterval_counts_window (newInterval : Timeline.Interval)
    (now : Z) (history : list Event) :
  let d := Timeline.getDurationForInterval newInterval in
  let tl := snd (Timeline.changeTimelineInterval newInterval now history) in
  let L := Timeline.roundDown d now + d in
  let s := L - Z.of_nat (Timeline.points newInterval) * d in
  Timeline.windowStart tl = Some s
  /\ Timeline.lastEnd d tl = Some L
  /\ L - d <= now < L
  /\ totalCount tl
     = Z.of_nat
         (length
            (List.filter
               (fun a => (s <=? Timeline.attackTimeOf now a)
                         && (Timeline.attackTimeOf now a <? L))
               history)).
Proof.
  intros d tl L s.
  pose proof (duration_pos newInterval) as Hd. fold d in Hd.
  set (g := Timeline.generateTimelineData newInterval now).
  pose proof (contiguous_generateTimelineData newInterval now) as Hc.
  pose proof (length_generateTimelineData newInterval now) as Hlen.
  fold d g in Hc, Hlen.
  assert (Timeline.windowStart g = Some s /\ Timeline.lastEnd d g = Some L)
    as [Hs HL].
  { assert (exists lp, last g = Some lp
                       /\ Timeline.p_timestamp lp = Timeline.roundDown d now)
      as (lp & Hlast & Hlp).
    { unfold g, Timeline.generateTimelineData. fold d.
      assert (exists n, Timeline.points newInterval = S n) as [n ->]
        by (destruct newInterval; by eexists).
      cbn [seq rev]. rewrite map_app. cbn [List.map]. rewrite last_snoc.
      eexists. split; [done|].
      cbn [Timeline.p_timestamp]. f_equal. lia. }
    destruct g as [|p g'] eqn:Hg; [done|].
    apply contiguous_inv in Hc as [_ Hc].
    pose proof (contiguousFrom_last d _ _ lp Hc Hlast) as Hend.
    unfold Timeline.lastEnd. rewrite Hlast.
    split; [|simpl; by rewrite Hlp].
    change (Timeline.windowStart (p :: g'))
      with (Some (Timeline.p_timestamp p)).
    f_equal. unfold s, L. rewrite <- Hlen. lia. }
  assert (List.map Timeline.p_timestamp tl = List.map Timeline.p_timestamp g)
    as Hts by apply timestamps_populate.
  assert (Timeline.windowStart tl = Some s) as Hs'.
  { unfold Timeline.windowStart in *.
    destruct tl, g; try done. simpl in *. congruence. }
  assert (Timeline.lastEnd d tl = Some L) as HL'.
  { unfold Timeline.lastEnd in *.
    assert (Timeline.p_timestamp <$> last tl
            = Timeline.p_timestamp <$> last g) as Hl.
    { rewrite <- !fmap_last.
      change (last (List.map Timeline.p_timestamp tl)
              = last (List.map Timeline.p_timestamp g)).
      by rewrite Hts. }
    destruct (last tl), (last g); simpl in *; try done. congruence. }
  split; [done|]. split; [done|]. split.
  { unfold L, Timeline.roundDown.
    pose proof (Z.mul_div_le now d Hd).
    pose proof (Z.mul_succ_div_gt now d Hd). lia. }
  unfold tl, Timeline.changeTimelineInterval. cbn [snd]. fold g.
  destruct history as [|a history].
  - simpl. unfold g, Timeline.generateTimelineData.
    generalize (rev (seq 0 (Timeline.points newInterval))).
    intros l. induction l as [|x l IH]; [done|].
    unfold totalCount in *. simpl. by rewrite IH.
  - unfold Timeline.populateTimelineFromHistory. fold d.
    destruct g as [|p g'] eqn:Hg; [done|].
    apply contiguous_inv in Hc as [_ Hc].
    rewrite (totalCount_populated d (Timeline.p_timestamp p)
               (Timeline.attackTimeOf now) (a :: history) (p :: g') Hd Hc).
    simpl in Hs. injection Hs as Hs. rewrite Hs.
    do 2 f_equal. apply List.filter_ext. intros e.
    replace (s + Z.of_nat (length (p :: g')) * d) with L; [done|].
    unfold s. rewrite Hlen. lia.
Qed.

(** ** The heatmap and the history *)

Section Rebuild.

Import Heatmap.

Variable localTZA : Z -> Z.

Lemma recalc_ext (x y : list Slot) :
  List.map h_hour x = List.map h_hour y ->
  List.map h_attacks x = List.map h_attacks y ->
  recalc x = recalc y.
Proof.
  intros Hh Ha. unfold recalc, maxAttacks. rewrite Ha.
  generalize (foldr Z.max 1 (List.map h_attacks y)). intros m.
  revert y Hh Ha. induction x as [|s x IH]; intros [|s' y] Hh Ha; try done.
  simpl in *. injection Hh as Hh1 Hh. injection Ha as Ha1 Ha.
  rewrite Hh1, Ha1. f_equal. by apply IH.
Qed.

Lemma hours_recalc (hm : list Slot) :
  List.map h_hour (recalc hm) = List.map h_hour hm.
Proof. unfold recalc. by rewrite List.map_map. Qed.

Lemma map_alter {B} (f : Slot -> B) (g : Slot -> Slot) (h : B -> B)
    (i : nat) (l : list Slot) :
  (forall s, f (g s) = h (f s)) ->
  List.map f (alter g i l) = alter h i (List.map f l).
Proof.
  intros Hf. revert i. induction l as [|s l IH]; intros [|i]; simpl;
    [done|done|by rewrite Hf|f_equal; apply IH].
Qed.

(** The intensities that [recalc] writes do not matter for the next
    ingest. *)
Lemma recalc_absorb (h : nat) (hm : list Slot) :
  recalc (alter countUp h (recalc hm)) = recalc (alter countUp h hm).
Proof.
  apply recalc_ext.
  - rewrite !(map_alter h_hour countUp id) by done. by rewrite hours_recalc.
  - rewrite !(map_alter h_attacks countUp Z.succ) by (intros; simpl; lia).
    by rewrite attacks_recalc.
Qed.

Lemma recalc_resetCounts (hm : list Slot) :
  recalc (resetCounts hm) = resetCounts hm.
Proof.
  unfold recalc, resetCounts.
  assert (maxAttacks (List.map (fun s => mkSlot (h_hour s) 0%float 0) hm)
          = 1) as ->.
  { unfold maxAttacks. induction hm as [|s hm IH]; [done|]. simpl.
    simpl in IH. rewrite IH. done. }
  rewrite List.map_map. done.
Qed.

Lemma totalAttacks_map (hm : list Slot) :
  totalAttacks hm = foldr Z.add 0 (List.map h_attacks hm).
Proof.
  unfold totalAttacks. induction hm as [|s hm IH]; [done|].
  simpl. by rewrite IH.
Qed.

Lemma totalAttacks_recalc (hm : list Slot) :
  totalAttacks (recalc hm) = totalAttacks hm.
Proof. by rewrite !totalAttacks_map, attacks_recalc. Qed.

Lemma totalAttacks_countUp (h : nat) (hm : list Slot) :
  (h < length hm)%nat ->
  totalAttacks (alter countUp h hm) = totalAttacks hm + 1.
Proof.
  revert h. induction hm as [|s hm IH]; intros [|h] Hh;
    [simpl in Hh; lia|simpl in Hh; lia|..].
  - unfold totalAttacks. simpl. lia.
  - change (totalAttacks (s :: alter countUp h hm)
            = totalAttacks (s :: hm) + 1).
    unfold totalAttacks in *. simpl. simpl in Hh. rewrite IH by lia. lia.
Qed.

Lemma totalAttacks_resetCounts (hm : list Slot) :
  totalAttacks (resetCounts hm) = 0.
Proof.
  unfold totalAttacks, resetCounts. induction hm as [|s hm IH]; [done|].
  simpl. by rewrite IH.
Qed.

(** The loop of [populateHeatmapFromHistory] over the recent attacks. *)
Lemma ingestAll_recent (now now' : Z) (recent : list Event)
    (hm : list Slot) :
  Forall (fun a => Js.truthyZ (timestamp a) = true) recent ->
  ingestAll localTZA (List.map (fun a => (now', a)) recent) (resetCounts hm)
  = recalc
      (foldl (fun acc a =>
                let hour := getHours localTZA (default 0 (timestamp a)) in
                if validHour hour
                then alter countUp (Z.to_nat (default 0 hour)) acc
                else acc)
         (resetCounts hm) recent)
  /\ length (ingestAll localTZA (List.map (fun a => (now', a)) recent)
               (resetCounts hm)) = length hm
  /\ (length hm = 24%nat ->
      totalAttacks
        (ingestAll localTZA (List.map (fun a => (now', a)) recent)
           (resetCounts hm))
      = Z.of_nat (length (List.filter validDate recent))).
Proof.
  induction recent as [|a recent IH] using rev_ind; intros Htr.
  - simpl. rewrite recalc_resetCounts. split; [done|].
    unfold resetCounts. rewrite length_map. split; [done|].
    intros _. apply totalAttacks_resetCounts.
  - apply Forall_app in Htr as [Htr Ha]. apply Forall_cons in Ha as [Ha _].
    destruct (IH Htr) as (IHeq & IHlen & IHtotal).
    rewrite map_app. unfold ingestAll in *. rewrite !foldl_app.
    cbn [List.map foldl fst snd]. rewrite List.filter_app, length_app.
    assert (default now' (Js.orZ (timestamp a) (Some now'))
            = default 0 (timestamp a)) as Htime.
    { unfold Js.orZ. rewrite Ha. by destruct (timestamp a). }
    assert (validDate a
            = bool_decide
                (is_Some (getHours localTZA (default 0 (timestamp a)))))
      as Hvalid.
    { unfold validDate, getHours. unfold Js.truthyZ in Ha.
      destruct (timestamp a) as [t|]; [|done]. simpl.
      destruct (_ && _).
      - by rewrite bool_decide_eq_true_2 by by eexists.
      - rewrite bool_decide_eq_false_2; [done|]. by intros [? ?]. }
    destruct (getHours localTZA (default 0 (timestamp a))) as [hour|] eqn:Hh.
    + rewrite (addAttackToHeatmap_unfold _ _ _ _ hour)
        by by rewrite Htime.
      pose proof (getHours_range localTZA _ _ Hh) as Hr.
      cbn [validHour default].
      destruct (Z.leb_spec 0 hour), (Z.leb_spec hour 23); try lia.
      cbn [andb]. split; [|split].
      * rewrite IHeq. apply recalc_absorb.
      * unfold recalc. by rewrite length_map, length_alter.
      * intros H24. rewrite totalAttacks_recalc, totalAttacks_countUp.
        -- rewrite IHtotal by done. cbn [List.filter]. rewrite Hvalid.
           rewrite bool_decide_eq_true_2 by by eexists. simpl. lia.
        -- rewrite IHlen. lia.
    + rewrite addAttackToHeatmap_skipped by by rewrite Htime.
      cbn [validHour]. split; [done|]. split; [done|].
      intros H24. rewrite IHtotal by done. cbn [List.filter].
      rewrite Hvalid. rewrite bool_decide_eq_false_2 by by intros [? ?].
      simpl. lia.
Qed.

Lemma inLast24Hours_truthy (now : Z) (history : list Event) :
  24 * 60 * 60 * 1000 < now ->
  Forall (fun a => Js.truthyZ (timestamp a) = true)
    (List.filter (inLast24Hours now) history).
Proof.
  intros Hnow. rewrite Forall_forall. intros a Ha.
  apply elem_of_filter_bool in Ha as [_ Ha]. unfold inLast24Hours in Ha.
  destruct (timestamp a) as [t|]; [|done]. simpl.
  apply Z.leb_le in Ha. destruct (Z.eqb_spec t 0); [lia|done].
Qed.

End Rebuild.

(** X15. Filling the heatmap from the history gives what ingesting the
    attacks of the last 24 hours one by one into the emptied heatmap
    gives: the same counts and the same intensities; and the counts of the
    24 slots add up to the number of those attacks whose time is a valid
    [Date], which are all of them unless a time lies more than 100,000,000
    days from the epoch. *)
Theorem populateHeatmapFromHistory_as_ingest (localTZA : Z -> Z)
    (now now' : Z) (history : list Event) (hm : list Heatmap.Slot) :
  24 * 60 * 60 * 1000 < now ->
  history <> [] ->
  let recent := List.filter (inLast24Hours now) history in
  Heatmap.populateHeatmapFromHistory localTZA now history hm
  = Heatmap.ingestAll localTZA (List.map (fun a => (now', a)) recent)
      (resetCounts hm)
  /\ (length hm = 24%nat ->
      totalAttacks (Heatmap.populateHeatmapFromHistory localTZA now history hm)
      = Z.of_nat (length (List.filter validDate recent)))
  /\ (Forall (fun a => timestampOr0 a <= Heatmap.maxDate) recent ->
      List.filter validDate recent = recent).
Proof.
  intros Hnow Hne recent.
  destruct (ingestAll_recent localTZA now now' recent hm
              (inLast24Hours_truthy now history Hnow))
    as (Heq & _ & Htotal).
  assert (Heatmap.populateHeatmapFromHistory localTZA now history hm
          = Heatmap.ingestAll localTZA (List.map (fun a => (now', a)) recent)
              (resetCounts hm)) as H.
  { rewrite Heq. unfold Heatmap.populateHeatmapFromHistory.
    by destruct history. }
  split; [done|]. split; [intros H24; rewrite H; by apply Htotal|].
  intros Hmax. apply filter_all. rewrite Forall_forall in *.
  intros a Ha. specialize (Hmax a Ha).
  apply elem_of_filter_bool in Ha as [_ Ha].
  unfold inLast24Hours in Ha. unfold validDate, timestampOr0 in *.
  destruct (timestamp a) as [t|]; [|done]. simpl in *.
  apply Z.leb_le in Ha. unfold Heatmap.maxDate in *.
  destruct (Z.leb_spec (-8640000000000000) t), (Z.leb_spec t 8640000000000000);
    try done; lia.
Qed.

Lemma populateHeatmapFromHistory_as_ingest_witness :
  let history :=
    [Scenario.attack; plainEvent "203.0.113.9" "HTTP"
                        (Scenario.t0 - 2 * 24 * 60 * 60 * 1000)] in
  Heatmap.populateHeatmapFromHistory Scenario.utc (Scenario.t0 + 60000)
    history Heatmap.setupHeatmapData
  = Heatmap.ingestAll Scenario.utc [(Scenario.t0, Scenario.attack)]
      Heatmap.setupHeatmapData
  /\ totalAttacks
       (Heatmap.populateHeatmapFromHistory Scenario.utc (Scenario.t0 + 60000)
          history Heatmap.setupHeatmapData) = 1.
Proof.
  intros history.
  destruct (populateHeatmapFromHistory_as_ingest Scenario.utc
              (Scenario.t0 + 60000) Scenario.t0 history
              Heatmap.setupHeatmapData eq_refl ltac:(discriminate))
    as (Heq & Htotal & _).
  split; [exact Heq|exact (Htotal eq_refl)].
Defined.

(** ** The honeypot statistics *)

Section HoneypotStatistics.

Import Dashboard Honeypot.

Lemma objGet_mapDelete_eq (k : string) (data : Data) :
  objGet k (mapDelete k data) = None.
Proof.
  unfold mapDelete. induction data as [|[k' v] data IH]; simpl; [done|].
  destruct (String.eqb_spec k k') as [->|Hne]; simpl; [done|].
  by destruct (String.eqb_spec k k').
Qed.

Lemma objGet_mapDelete_ne (k k' : string) (data : Data) :
  k <> k' -> objGet k (mapDelete k' data) = objGet k data.
Proof.
  intros Hne. unfold mapDelete.
  induction data as [|[k0 v] data IH]; simpl; [done|].
  destruct (String.eqb_spec k' k0) as [->|Hne0]; simpl.
  - by destruct (String.eqb_spec k k0).
  - by rewrite IH.
Qed.

Lemma tidy_mapDelete (k : string) (data : Data) :
  tidy data -> tidy (mapDelete k data).
Proof.
  intros [Hnd Hne]. unfold mapDelete. split.
  - eapply sublist_NoDup; [exact Hnd|].
    apply (fmap_sublist fst), sublist_filter_bool.
  - rewrite Forall_forall in *. intros kv Hkv. apply Hne.
    eapply elem_of_sublist; [|apply sublist_filter_bool]. done.
Qed.

Lemma Forall_objSet {V} (P : string * V -> Prop) (k : string) (v : V)
    (o : list (string * V)) :
  P (k, v) -> Forall P o -> Forall P (objSet k v o).
Proof.
  intros Hv. induction 1 as [|[k' v'] o Hx Ho IH]; simpl.
  - by constructor.
  - destruct (String.eqb k k'); by constructor.
Qed.

Lemma tidy_objSet (k : string) (v : list Z) (data : Data) :
  v <> [] -> tidy data -> tidy (objSet k v data).
Proof.
  intros Hv [Hnd Hne]. split; [by apply NoDup_objSet|].
  by apply Forall_objSet.
Qed.

(** What [cleanupHoneypotData] leaves under each name. *)
Lemma objGet_cleanupHoneypotData (now : Z) (h k : string)
    (cutoff : option Z) (data : Data) :
  let c := if Js.truthyZ cutoff then default 0 cutoff
           else now - retention in
  objGet k (cleanupHoneypotData now h cutoff data)
  = if String.eqb k h then
      match objGet h data with
      | None => None
      | Some timestamps =>
          match List.filter (fun ts => c <? ts) timestamps with
          | [] => None
          | kept => Some kept
          end
      end
    else objGet k data.
Proof.
  intros c. unfold cleanupHoneypotData. fold c.
  destruct (String.eqb_spec k h) as [->|Hne].
  - destruct (objGet h data) as [timestamps|] eqn:Hh; [|done].
    destruct (List.filter _ timestamps) as [|t kept] eqn:Hf.
    + apply objGet_mapDelete_eq.
    + apply objGet_objSet_eq.
  - destruct (objGet h data) as [timestamps|]; [|done].
    destruct (List.filter _ timestamps).
    + by apply objGet_mapDelete_ne.
    + by apply objGet_objSet_ne.
Qed.

Lemma tidy_cleanupHoneypotData (now : Z) (h : string) (cutoff : option Z)
    (data : Data) :
  tidy data -> tidy (cleanupHoneypotData now h cutoff data).
Proof.
  intros Ht. unfold cleanupHoneypotData.
  destruct (objGet h data); [|done].
  destruct (List.filter _ _) eqn:Hf; [by apply tidy_mapDelete|].
  by apply tidy_objSet.
Qed.

Lemma NoDup_cleanupHoneypotData (now : Z) (h : string) (cutoff : option Z)
    (data : Data) :
  NoDup (List.map fst data) ->
  NoDup (List.map fst (cleanupHoneypotData now h cutoff data)).
Proof.
  intros Hnd. unfold cleanupHoneypotData.
  destruct (objGet h data); [|done].
  destruct (List.filter _ _) eqn:Hf; [|by apply NoDup_objSet].
  unfold mapDelete. eapply sublist_NoDup; [exact Hnd|].
  apply (fmap_sublist fst), sublist_filter_bool.
Qed.

(** What [trackHoneypotAttack] leaves under each name. *)
Lemma objGet_trackHoneypotAttack (now : Z) (h : string) (ts : option Z)
    (data : Data) (k : string) :
  h <> ""%string ->
  objGet k (trackHoneypotAttack now (Some h) ts data)
  = if String.eqb k (Js.trim h) then
      match recentAt now (default [] (objGet (Js.trim h) data)
                          ++ [default now ts]) with
      | [] => None
      | kept => Some kept
      end
    else objGet k data.
Proof.
  intros Hh. unfold trackHoneypotAttack.
  assert (Js.truthyS (Some h) = true) as ->.
  { simpl. by destruct (String.eqb_spec h ""). }
  cbn [negb]. change (default ""%string (Some h)) with h.
  set (name := Js.trim h).
  set (data1 := match objGet name data with
                | Some _ => data
                | None => objSet name [] data
                end).
  assert (default [] (objGet name data1) = default [] (objGet name data)
          /\ forall k', k' <> name -> objGet k' data1 = objGet k' data)
    as [Hsame Hother].
  { unfold data1. destruct (objGet name data) eqn:Hn.
    - by rewrite Hn.
    - rewrite objGet_objSet_eq. split; [done|].
      intros k' Hk'. by apply objGet_objSet_ne. }
  rewrite objGet_cleanupHoneypotData. cbn [Js.truthyZ].
  destruct (String.eqb_spec k name) as [->|Hne].
  - by rewrite objGet_objSet_eq, Hsame.
  - rewrite objGet_objSet_ne by done. by apply Hother.
Qed.

Lemma NoDup_trackHoneypotAttack (now : Z) (h : option string)
    (ts : option Z) (data : Data) :
  NoDup (List.map fst data) ->
  NoDup (List.map fst (trackHoneypotAttack now h ts data)).
Proof.
  intros Hnd. unfold trackHoneypotAttack.
  destruct (Js.truthyS h); [|done]. cbn [negb].
  apply NoDup_cleanupHoneypotData, NoDup_objSet.
  destruct (objGet _ data); [done|]. by apply NoDup_objSet.
Qed.

Lemma tidy_of_objGet (data : Data) :
  NoDup (List.map fst data) ->
  (forall k v, objGet k data = Some v -> v <> []) ->
  tidy data.
Proof.
  intros Hnd Hall. split; [done|]. rewrite Forall_forall.
  intros [k v] Hin. simpl. apply (Hall k). by apply elem_of_objGet.
Qed.

Lemma tidy_objGet (data : Data) (k : string) (v : list Z) :
  tidy data -> objGet k data = Some v -> v <> [].
Proof.
  intros [_ Hne] Hk%objGet_Some_elem_of. rewrite Forall_forall in Hne.
  by apply (Hne (k, v)).
Qed.

Lemma tidy_trackHoneypotAttack (now : Z) (h : option string)
    (ts : option Z) (data : Data) :
  tidy data -> tidy (trackHoneypotAttack now h ts data).
Proof.
  intros Ht.
  destruct (Js.truthyS h) eqn:Hh;
    [|unfold trackHoneypotAttack; by rewrite Hh].
  destruct h as [h|]; [|done].
  assert (h <> ""%string) as Hne.
  { intros ->. done. }
  apply tidy_of_objGet; [apply NoDup_trackHoneypotAttack, Ht|].
  intros k v. rewrite objGet_trackHoneypotAttack by done.
  destruct (String.eqb k (Js.trim h)).
  - destruct (recentAt now _) eqn:Hr; [done|]. by intros [= <-].
  - by apply tidy_objGet.
Qed.

End HoneypotStatistics.

Section HoneypotRuns.

Import Dashboard Honeypot.

Lemma recentAt_app (now : Z) (l1 l2 : list Z) :
  recentAt now (l1 ++ l2) = recentAt now l1 ++ recentAt now l2.
Proof. apply List.filter_app. Qed.

Lemma recentAt_idemp (now : Z) (l : list Z) :
  recentAt now (recentAt now l) = recentAt now l.
Proof. apply filter_all, Forall_filter_bool. Qed.

Lemma recentAt_now (now t : Z) :
  now - retention < t -> recentAt now [t] = [t].
Proof.
  intros Ht. unfold recentAt. simpl.
  by destruct (Z.ltb_spec (now - retention) t); [|lia].
Qed.

Lemma recentAt_recent (now : Z) (l : list Z) :
  Forall (fun t => now - retention < t) (recentAt now l).
Proof.
  eapply Forall_impl; [apply (Forall_filter_bool _ l)|].
  simpl. intros t Ht. by apply Z.ltb_lt.
Qed.

Lemma objGet_app {V} (k : string) (o1 o2 : list (string * V)) :
  objGet k (o1 ++ o2)
  = match objGet k o1 with
    | Some v => Some v
    | None => objGet k o2
    end.
Proof.
  induction o1 as [|[k' v'] o1 IH]; simpl; [done|].
  by destruct (String.eqb k k').
Qed.

Lemma objGet_getHoneypotStats (data : Data) (k : string) :
  NoDup (List.map fst data) ->
  objGet k (getHoneypotStats data)
  = (fun v => Z.of_nat (length v)) <$> objGet k data.
Proof.
  unfold getHoneypotStats.
  induction data as [|[k0 v0] data IH] using rev_ind; intros Hnd; [done|].
  rewrite map_app in Hnd. apply NoDup_app in Hnd as (Hnd & Hk0 & _).
  rewrite foldl_app, objGet_app. simpl.
  destruct (String.eqb_spec k k0) as [->|Hne].
  - rewrite objGet_objSet_eq.
    assert (objGet k0 data = None) as ->; [|done].
    apply objGet_None. intros Hin. apply (Hk0 k0 Hin).
    apply list_elem_of_here.
  - rewrite objGet_objSet_ne by done. rewrite IH by done.
    by destruct (objGet k data).
Qed.

(** The loop of [cleanupOldHoneypotData] over a list of names. *)
Lemma objGet_cleanup_loop (now : Z) (ks : list string) (data : Data)
    (k : string) :
  NoDup ks ->
  objGet k
    (foldl (fun acc h =>
              cleanupHoneypotData now h (Some (now - retention)) acc)
       data ks)
  = if bool_decide (k ∈ ks) then
      match objGet k data with
      | None => None
      | Some v => match recentAt now v with
                  | [] => None
                  | kept => Some kept
                  end
      end
    else objGet k data.
Proof.
  assert (forall h d,
            objGet k (cleanupHoneypotData now h (Some (now - retention)) d)
            = if String.eqb k h then
                match objGet h d with
                | None => None
                | Some v => match recentAt now v with
                            | [] => None
                            | kept => Some kept
                            end
                end
              else objGet k d) as Hstep.
  { intros h d. rewrite objGet_cleanupHoneypotData. simpl.
    by destruct (now - retention =? 0) eqn:H0. }
  revert data. induction ks as [|h ks IH]; intros data Hnd; [done|].
  apply NoDup_cons in Hnd as [Hh Hnd]. simpl. rewrite IH by done.
  rewrite Hstep.
  destruct (String.eqb_spec k h) as [->|Hne].
  - rewrite (bool_decide_eq_false_2 (h ∈ ks)) by done.
    rewrite (bool_decide_eq_true_2 (h ∈ h :: ks)) by apply list_elem_of_here.
    done.
  - destruct (decide (k ∈ ks)) as [Hin|Hout].
    + rewrite (bool_decide_eq_true_2 (k ∈ ks)) by done.
      by rewrite (bool_decide_eq_true_2 (k ∈ h :: ks))
        by by apply list_elem_of_further.
    + rewrite (bool_decide_eq_false_2 (k ∈ ks)) by done.
      rewrite (bool_decide_eq_false_2 (k ∈ h :: ks)); [done|].
      by intros [?|?]%elem_of_cons.
Qed.

Lemma tidy_cleanupOldHoneypotData (now : Z) (data : Data) :
  tidy data -> tidy (cleanupOldHoneypotData now data).
Proof.
  unfold cleanupOldHoneypotData. generalize (List.map fst data).
  intros ks. revert data. induction ks as [|h ks IH]; intros data Ht; [done|].
  simpl. by apply IH, tidy_cleanupHoneypotData.
Qed.

Lemma tidy_apply (op : Op) (data : Data) :
  tidy data -> tidy (Honeypot.apply op data).
Proof.
  intros Ht. destruct op as [now msg|now event|now|]; simpl.
  - unfold Honeypot.Traffic, Honeypot.processAttackForDashboard,
      Honeypot.addAttackEvent.
    destruct (reachesDashboard msg); [|done]. simpl.
    destruct (Js.truthyS (honeypot msg)); [|done].
    by do 2 apply tidy_trackHoneypotAttack.
  - unfold Honeypot.replayEvent.
    destruct (Js.truthyS (honeypot event)); [|done].
    by apply tidy_trackHoneypotAttack.
  - by apply tidy_cleanupOldHoneypotData.
  - split; constructor.
Qed.

Lemma tidy_run (ops : list Op) (data : Data) :
  tidy data -> tidy (Honeypot.run ops data).
Proof.
  unfold Honeypot.run. revert data.
  induction ops as [|op ops IH]; intros data Ht; [done|].
  simpl. by apply IH, tidy_apply.
Qed.

End HoneypotRuns.

(** X16. [trackHoneypotAttack] records an attack under the trimmed name of
    the honeypot: the entry then holds the times of that honeypot that are
    within the retention of 15 minutes, followed by the new time if it is
    within it too, and the entry is removed when no time is left; the other
    honeypots are left as they are. An absent time is the present, which is
    always kept; an empty or absent name changes nothing. *)
Theorem trackHoneypotAttack_entry (now : Z) (h : string) (ts : option Z)
    (data : Honeypot.Data) (k : string) :
  h <> ""%string ->
  let name := Js.trim h in
  let data' := Honeypot.trackHoneypotAttack now (Some h) ts data in
  let earlier := recentAt now (default [] (Dashboard.objGet name data)) in
  Dashboard.objGet name data'
  = match earlier ++ recentAt now [default now ts] with
    | [] => None
    | kept => Some kept
    end
  /\ (k <> name -> Dashboard.objGet k data' = Dashboard.objGet k data)
  /\ (ts = None -> Dashboard.objGet name data' = Some (earlier ++ [now]))
  /\ Honeypot.trackHoneypotAttack now (Some ""%string) ts data = data
  /\ Honeypot.trackHoneypotAttack now None ts data = data.
Proof.
  intros Hh name data' earlier.
  pose proof (objGet_trackHoneypotAttack now h ts data) as Hget.
  fold name data' in Hget.
  assert (Dashboard.objGet name data'
          = match earlier ++ recentAt now [default now ts] with
            | [] => None
            | kept => Some kept
            end) as Hname.
  { rewrite (Hget name Hh), String.eqb_refl. by rewrite recentAt_app. }
  split; [done|]. split; [|split; [|done]].
  - intros Hk. rewrite (Hget k Hh).
    by destruct (String.eqb_spec k name).
  - intros ->. rewrite Hname. change (default now None) with now.
    rewrite recentAt_now by (unfold Honeypot.retention; lia).
    by destruct earlier.
Qed.

(** An attack on [cowrie], named with spaces around it, 1000 seconds after
    a first one and 500 seconds after a second one: the first one has
    expired. *)
Lemma trackHoneypotAttack_entry_witness :
  Dashboard.objGet "cowrie"
    (Honeypot.trackHoneypotAttack (Scenario.t0 + 1000000)
       (Some " cowrie ")%string None
       [("cowrie"%string, [Scenario.t0; Scenario.t0 + 500000])])
  = Some [Scenario.t0 + 500000; Scenario.t0 + 1000000].
Proof.
  exact (proj1 (proj2 (proj2
           (trackHoneypotAttack_entry (Scenario.t0 + 1000000) " cowrie " None
              [("cowrie"%string, [Scenario.t0; Scenario.t0 + 500000])]
              "dionaea" ltac:(discriminate)))) eq_refl).
Defined.

(** X17. Whatever messages, replayed events, cleanups and clears have run,
    every honeypot of the statistics is there once and with at least one
    attack, so that [getHoneypotStats] reports for each the number of its
    times, never zero; and [cleanupOldHoneypotData] leaves under each name
    the times within the retention, removing the names that have none. *)
Theorem honeypot_statistics_tidy (ops : list Honeypot.Op) (now : Z)
    (k : string) :
  let data := Honeypot.run ops [] in
  let cleaned := Honeypot.cleanupOldHoneypotData now data in
  tidy data
  /\ Dashboard.objGet k (Honeypot.getHoneypotStats data)
     = (fun v => Z.of_nat (length v)) <$> Dashboard.objGet k data
  /\ (forall c, Dashboard.objGet k (Honeypot.getHoneypotStats data) = Some c ->
                0 < c)
  /\ tidy cleaned
  /\ Dashboard.objGet k cleaned
     = match recentAt now (default [] (Dashboard.objGet k data)) with
       | [] => None
       | kept => Some kept
       end.
Proof.
  intros data cleaned.
  assert (tidy data) as Ht by (apply tidy_run; split; constructor).
  pose proof (objGet_getHoneypotStats data k (proj1 Ht)) as Hstats.
  split; [done|]. split; [done|]. split; [|split].
  - intros c. rewrite Hstats.
    destruct (Dashboard.objGet k data) as [v|] eqn:Hk; [|done].
    intros [= <-]. pose proof (tidy_objGet data k v Ht Hk).
    destruct v; [done|]. simpl. lia.
  - by apply tidy_cleanupOldHoneypotData.
  - unfold cleaned, Honeypot.cleanupOldHoneypotData.
    rewrite objGet_cleanup_loop by apply Ht.
    destruct (decide (k ∈ List.map fst data)) as [Hin|Hout].
    + rewrite (bool_decide_eq_true_2 _ Hin).
      by destruct (Dashboard.objGet k data).
    + rewrite (bool_decide_eq_false_2 _ Hout).
      apply objGet_None in Hout. by rewrite Hout.
Qed.

(** X18. A [Traffic] message that names a honeypot and has the four
    coordinates without which its handler throws is recorded twice in the
    statistics of that honeypot, once by [addAttackEvent] and once by
    [processAttackForDashboard], so that its count rises by two; a replayed
    event is recorded once. *)
Theorem Traffic_tracks_honeypot_twice (now : Z) (msg : Event)
    (data : Honeypot.Data) (h : string) :
  reachesDashboard msg = true ->
  honeypot msg = Some h ->
  h <> ""%string ->
  let name := Js.trim h in
  let earlier := recentAt now (default [] (Dashboard.objGet name data)) in
  Dashboard.objGet name (Honeypot.Traffic now msg data)
  = Some (earlier ++ [now; now])
  /\ (forall t, timestamp msg = Some t -> now - Honeypot.retention < t ->
        Dashboard.objGet name (Honeypot.replayEvent now data msg)
        = Some (earlier ++ [t]))
  /\ (NoDup (List.map fst data) ->
      Dashboard.objGet name
        (Honeypot.getHoneypotStats (Honeypot.Traffic now msg data))
      = Some (Z.of_nat (length earlier) + 2)
      /\ forall t, timestamp msg = Some t -> now - Honeypot.retention < t ->
           Dashboard.objGet name
             (Honeypot.getHoneypotStats (Honeypot.replayEvent now data msg))
           = Some (Z.of_nat (length earlier) + 1)).
Proof.
  intros Hmsg Hhp Hh name earlier.
  assert (Js.truthyS (Some h) = true) as Htr.
  { simpl. by destruct (String.eqb_spec h ""). }
  assert (now - Honeypot.retention < now) as Hnow
    by (unfold Honeypot.retention; lia).
  set (d1 := Honeypot.trackHoneypotAttack now (Some h) (Some now) data).
  assert (Honeypot.Traffic now msg data
          = Honeypot.trackHoneypotAttack now (Some h) (Some now) d1) as HT.
  { unfold Honeypot.Traffic, Honeypot.processAttackForDashboard,
      Honeypot.addAttackEvent. rewrite Hmsg. simpl. rewrite Hhp, Htr.
    unfold Js.orZ. simpl. by destruct (negb (now =? 0)). }
  assert (Dashboard.objGet name d1 = Some (earlier ++ [now])) as H1.
  { unfold d1. rewrite objGet_trackHoneypotAttack by done. fold name.
    rewrite String.eqb_refl, recentAt_app. fold earlier.
    simpl default. rewrite recentAt_now by done. by destruct earlier. }
  assert (Dashboard.objGet name (Honeypot.Traffic now msg data)
          = Some (earlier ++ [now; now])) as H2.
  { rewrite HT, objGet_trackHoneypotAttack by done. fold name.
    rewrite String.eqb_refl, H1. simpl default.
    rewrite !recentAt_app, !recentAt_now by done. unfold earlier.
    rewrite recentAt_idemp. fold earlier. rewrite <- app_assoc.
    by destruct earlier. }
  assert (forall t, timestamp msg = Some t -> now - Honeypot.retention < t ->
            Dashboard.objGet name (Honeypot.replayEvent now data msg)
            = Some (earlier ++ [t])) as HR.
  { intros t Ht Hrecent. unfold Honeypot.replayEvent. rewrite Hhp, Htr, Ht.
    rewrite objGet_trackHoneypotAttack by done. fold name.
    rewrite String.eqb_refl, recentAt_app. fold earlier.
    simpl default. rewrite recentAt_now by done. by destruct earlier. }
  split; [done|]. split; [done|]. intros Hnd. split.
  - rewrite objGet_getHoneypotStats.
    + rewrite H2. simpl. f_equal. rewrite length_app. simpl. lia.
    + rewrite HT. by do 2 apply NoDup_trackHoneypotAttack.
  - intros t Ht Hrecent. rewrite objGet_getHoneypotStats.
    + rewrite (HR t Ht Hrecent). simpl. f_equal. rewrite length_app.
      simpl. lia.
    + unfold Honeypot.replayEvent. rewrite Hhp, Htr.
      by apply NoDup_trackHoneypotAttack.
Qed.

Lemma Traffic_tracks_honeypot_twice_witness :
  let msg :=
    mkEvent (Some "198.51.100.7") (Some "198.51.100.7") None None None None
      (Some "SSH") (Some "cowrie") (Some 52) (Some 13) (Some 50) (Some 8)
      (Some Scenario.t0) None None None false in
  Dashboard.objGet "cowrie"
    (Honeypot.getHoneypotStats (Honeypot.Traffic Scenario.t0 msg []))
  = Some 2
  /\ Dashboard.objGet "cowrie"
       (Honeypot.getHoneypotStats (Honeypot.replayEvent Scenario.t0 [] msg))
     = Some 1.
Proof.
  intros msg.
  destruct (Traffic_tracks_honeypot_twice Scenario.t0 msg [] "cowrie"
              eq_refl eq_refl ltac:(discriminate)) as (_ & _ & Hstats).
  destruct (Hstats ltac:(constructor)) as [Hlive Hreplay].
  split; [exact Hlive|].
  exact (Hreplay Scenario.t0 eq_refl ltac:(vm_compute; reflexivity)).
Defined.

(** ** Ages *)

Section Ages.

Lemma formatTimeAgo_hours (now t : Z) :
  t <> 0 -> 1000 * 60 * 60 <= now - t ->
  Dashboard.formatTimeAgo now (Some t)
  = pretty ((now - t) / (1000 * 60 * 60)) +:+ "h ago".
Proof.
  intros Ht Hd. unfold Dashboard.formatTimeAgo. simpl.
  destruct (Z.eqb_spec t 0); [done|]. simpl.
  assert (1 <= (now - t) / (1000 * 60 * 60))
    by (apply Z.div_le_lower_bound; lia).
  by destruct (Z.ltb_spec 0 ((now - t) / (1000 * 60 * 60))); [|lia].
Qed.

Lemma formatTimeAgo_minutes (now t : Z) :
  t <> 0 -> 1000 * 60 <= now - t < 1000 * 60 * 60 ->
  Dashboard.formatTimeAgo now (Some t)
  = pretty ((now - t) / (1000 * 60)) +:+ "m ago".
Proof.
  intros Ht Hd. unfold Dashboard.formatTimeAgo. simpl.
  destruct (Z.eqb_spec t 0); [done|]. simpl.
  assert ((now - t) / (1000 * 60 * 60) <= 0).
  { apply Z.lt_succ_r, Z.div_lt_upper_bound; lia. }
  assert (1 <= (now - t) / (1000 * 60))
    by (apply Z.div_le_lower_bound; lia).
  destruct (Z.ltb_spec 0 ((now - t) / (1000 * 60 * 60))); [lia|].
  by destruct (Z.ltb_spec 0 ((now - t) / (1000 * 60))); [|lia].
Qed.

Lemma formatTimeAgo_just_now (now t : Z) :
  t <> 0 -> now - t < 1000 * 60 ->
  Dashboard.formatTimeAgo now (Some t) = "just now"%string.
Proof.
  intros Ht Hd. unfold Dashboard.formatTimeAgo. simpl.
  destruct (Z.eqb_spec t 0); [done|]. simpl.
  assert ((now - t) / (1000 * 60 * 60) <= 0).
  { apply Z.lt_succ_r, Z.div_lt_upper_bound; lia. }
  assert ((now - t) / (1000 * 60) <= 0).
  { apply Z.lt_succ_r, Z.div_lt_upper_bound; lia. }
  destruct (Z.ltb_spec 0 ((now - t) / (1000 * 60 * 60))); [lia|].
  by destruct (Z.ltb_spec 0 ((now - t) / (1000 * 60))); [lia|].
Qed.

End Ages.

(** X19. The age that [formatTimeAgo] of the dashboard gives: [unknown] for
    an absent time or the time 0, [just now] below one minute and for a
    time ahead of the clock, whole minutes from 1 to 59 below one hour,
    and whole hours from then on, never days. *)
Theorem formatTimeAgo_ages (now t : Z) :
  let diff := now - t in
  Dashboard.formatTimeAgo now None = "unknown"%string
  /\ Dashboard.formatTimeAgo now (Some 0) = "unknown"%string
  /\ (t <> 0 -> diff < 60000 ->
      Dashboard.formatTimeAgo now (Some t) = "just now"%string)
  /\ (t <> 0 -> 60000 <= diff < 3600000 ->
      Dashboard.formatTimeAgo now (Some t)
      = pretty (diff / 60000) +:+ "m ago"
      /\ 1 <= diff / 60000 <= 59)
  /\ (t <> 0 -> 3600000 <= diff ->
      Dashboard.formatTimeAgo now (Some t)
      = pretty (diff / 3600000) +:+ "h ago"
      /\ 1 <= diff / 3600000).
Proof.
  intros diff. split; [done|]. split; [done|]. split; [|split].
  - intros Ht Hd. by apply formatTimeAgo_just_now.
  - intros Ht Hd. split; [by apply formatTimeAgo_minutes|]. split.
    + apply Z.div_le_lower_bound; lia.
    + apply Z.lt_succ_r, Z.div_lt_upper_bound; lia.
  - intros Ht Hd. split; [by apply formatTimeAgo_hours|].
    apply Z.div_le_lower_bound; lia.
Qed.

Lemma formatTimeAgo_ages_witness :
  Dashboard.formatTimeAgo (Scenario.t0 + 5400000) (Some Scenario.t0)
  = "1h ago"%string.
Proof.
  exact (proj1 (proj2 (proj2 (proj2 (proj2
           (formatTimeAgo_ages (Scenario.t0 + 5400000) Scenario.t0))))
           ltac:(discriminate) ltac:(vm_compute; discriminate))).
Defined.

(** X20. [formatTimeAgo] of the map script gives [Just now] below one
    minute, then whole minutes from 1 to 59, whole hours from 1 to 23 and
    whole days; for an invalid date it gives [NaNd ago]. Between one minute
    and one day it gives what [formatTimeAgo] of the dashboard gives. *)
Theorem MapScript_formatTimeAgo_ages (now t : Z) :
  let diff := now - t in
  MapScript.formatTimeAgo now None = "NaNd ago"%string
  /\ (diff < 60000 -> MapScript.formatTimeAgo now (Some t) = "Just now"%string)
  /\ (60000 <= diff < 3600000 ->
      MapScript.formatTimeAgo now (Some t) = pretty (diff / 60000) +:+ "m ago"
      /\ 1 <= diff / 60000 <= 59)
  /\ (3600000 <= diff < 86400000 ->
      MapScript.formatTimeAgo now (Some t)
      = pretty (diff / 3600000) +:+ "h ago"
      /\ 1 <= diff / 3600000 <= 23)
  /\ (86400000 <= diff ->
      MapScript.formatTimeAgo now (Some t)
      = pretty (diff / 86400000) +:+ "d ago"
      /\ 1 <= diff / 86400000)
  /\ (t <> 0 -> 60000 <= diff < 86400000 ->
      MapScript.formatTimeAgo now (Some t)
      = Dashboard.formatTimeAgo now (Some t)).
Proof.
  intros diff.
  assert (diff / 60000 / 60 = diff / 3600000) as Hh
    by (rewrite Z.div_div by lia; done).
  assert (diff / 60000 / 60 / 24 = diff / 86400000) as Hdays
    by (rewrite !Z.div_div by lia; done).
  assert (diff < 60000 ->
          MapScript.formatTimeAgo now (Some t) = "Just now"%string) as H0.
  { intros Hd. unfold MapScript.formatTimeAgo. fold diff.
    assert (diff / 60000 < 1) by (apply Z.div_lt_upper_bound; lia).
    by destruct (Z.ltb_spec (diff / 60000) 1); [|lia]. }
  assert (60000 <= diff < 3600000 ->
          MapScript.formatTimeAgo now (Some t)
          = pretty (diff / 60000) +:+ "m ago"
          /\ 1 <= diff / 60000 <= 59) as H1.
  { intros Hd.
    assert (1 <= diff / 60000) by (apply Z.div_le_lower_bound; lia).
    assert (diff / 60000 < 60) by (apply Z.div_lt_upper_bound; lia).
    split; [|lia]. unfold MapScript.formatTimeAgo. fold diff.
    destruct (Z.ltb_spec (diff / 60000) 1); [lia|].
    by destruct (Z.ltb_spec (diff / 60000) 60); [|lia]. }
  assert (3600000 <= diff < 86400000 ->
          MapScript.formatTimeAgo now (Some t)
          = pretty (diff / 3600000) +:+ "h ago"
          /\ 1 <= diff / 3600000 <= 23) as H2.
  { intros Hd.
    assert (60 <= diff / 60000) by (apply Z.div_le_lower_bound; lia).
    assert (1 <= diff / 3600000) by (apply Z.div_le_lower_bound; lia).
    assert (diff / 3600000 < 24) by (apply Z.div_lt_upper_bound; lia).
    split; [|lia]. unfold MapScript.formatTimeAgo. fold diff. rewrite Hh.
    destruct (Z.ltb_spec (diff / 60000) 1); [lia|].
    destruct (Z.ltb_spec (diff / 60000) 60); [lia|].
    by destruct (Z.ltb_spec (diff / 3600000) 24); [|lia]. }
  split; [done|]. split; [done|]. split; [done|]. split; [done|]. split.
  - intros Hd.
    assert (60 <= diff / 60000) by (apply Z.div_le_lower_bound; lia).
    assert (24 <= diff / 3600000) by (apply Z.div_le_lower_bound; lia).
    assert (1 <= diff / 86400000) by (apply Z.div_le_lower_bound; lia).
    split; [|lia]. unfold MapScript.formatTimeAgo. fold diff.
    rewrite Hdays, Hh.
    destruct (Z.ltb_spec (diff / 60000) 1); [lia|].
    destruct (Z.ltb_spec (diff / 60000) 60); [lia|].
    by destruct (Z.ltb_spec (diff / 3600000) 24); [lia|].
  - intros Ht Hd. destruct (Z.lt_ge_cases diff 3600000) as [Hlt|Hge].
    + rewrite (proj1 (H1 ltac:(lia))).
      by rewrite formatTimeAgo_minutes by (fold diff; lia).
    + rewrite (proj1 (H2 ltac:(lia))).
      by rewrite formatTimeAgo_hours by (fold diff; lia).
Qed.

Lemma MapScript_formatTimeAgo_ages_witness :
  MapScript.formatTimeAgo (Scenario.t0 + 5400000) (Some Scenario.t0)
  = Dashboard.formatTimeAgo (Scenario.t0 + 5400000) (Some Scenario.t0).
Proof.
  exact (proj2 (proj2 (proj2 (proj2 (proj2
           (MapScript_formatTimeAgo_ages (Scenario.t0 + 5400000)
              Scenario.t0)))))
           ltac:(discriminate)
           ltac:(split; [vm_compute; discriminate|reflexivity])).
Defined.

(** ** Clearing the cache *)




(** ** Replacement of the socket *)

(** X22. When a reconnection timeout fires, its callback closes the socket
    in use, whatever its state and whatever [isReconnecting] says, and
    starts a new attempt, counting it. The visibility handler leaves an
    open socket and the whole state alone; with any other socket, or none,
    it replaces the socket in the same way without counting an attempt. *)
Theorem reconnect_timer_replaces_socket (n : Connection.Net) (i : nat)
    (t : Z) :
  Connection.timers n !! i = Some t ->
  let fired :=
    Connection.reconnectCallback
      (Connection.set_timers (delete i (Connection.timers n)) n) in
  let replaced :=
    alter Connection.close (length (Connection.sockets n) - 1)%nat
      (Connection.sockets n) ++ [Connection.CONNECTING] in
  Connection.step n fired
  /\ Connection.sockets fired = replaced
  /\ Connection.webSocket fired = Some Connection.CONNECTING
  /\ Connection.isReconnecting fired = true
  /\ Connection.reconnectAttempts fired = Connection.reconnectAttempts n + 1
  /\ Connection.timers fired = delete i (Connection.timers n)
  /\ (Connection.webSocket n = Some Connection.OPEN ->
      Connection.onVisible n = n)
  /\ (Connection.webSocket n <> Some Connection.OPEN ->
      Connection.sockets (Connection.onVisible n) = replaced
      /\ Connection.reconnectAttempts (Connection.onVisible n)
         = Connection.reconnectAttempts n
      /\ Connection.timers (Connection.onVisible n) = Connection.timers n).
Proof.
  intros Ht fired replaced.
  destruct (connectWebSocket_unguarded
              (Connection.set_isReconnecting false
                 (Connection.set_reconnectAttempts
                    (Connection.reconnectAttempts n + 1)
                    (Connection.set_timers
                       (delete i (Connection.timers n)) n))) eq_refl)
    as (Hs & Hf & Ha & Htm).
  split; [by eapply Connection.step_timer|].
  split; [exact Hs|]. split.
  { unfold Connection.webSocket.
    change (Connection.sockets fired) with
      (Connection.sockets
         (Connection.connectWebSocket
            (Connection.set_isReconnecting false
               (Connection.set_reconnectAttempts
                  (Connection.reconnectAttempts n + 1)
                  (Connection.set_timers
                     (delete i (Connection.timers n)) n))))).
    rewrite Hs. apply webSocket_connect. }
  split; [exact Hf|]. split; [exact Ha|]. split; [exact Htm|]. split.
  - intros Hopen. unfold Connection.onVisible, Connection.checkConnectionHealth.
    by rewrite Hopen.
  - intros Hnot.
    destruct (checkConnectionHealth_sockets n) as (Hcs & Hca & Hct).
    assert (Connection.onVisible n
            = Connection.connectWebSocket
                (Connection.set_isReconnecting false
                   (snd (Connection.checkConnectionHealth n)))) as ->.
    { unfold Connection.onVisible, Connection.checkConnectionHealth.
      destruct (Connection.webSocket n) as [[]|]; done. }
    destruct (connectWebSocket_unguarded
                (Connection.set_isReconnecting false
                   (snd (Connection.checkConnectionHealth n))) eq_refl)
      as (Hs' & _ & Ha' & Htm').
    rewrite Hs', Ha', Htm'.
    cbn [Connection.sockets Connection.set_isReconnecting
         Connection.reconnectAttempts Connection.timers].
    by rewrite Hcs, Hca, Hct.
Qed.

(** The first socket fails, the page is hidden and shown again, the second
    socket opens, and then the timeout of the first failure fires: the open
    socket is closed and a third one is created. *)
Lemma reconnect_timer_replaces_socket_witness :
  let n0 := Connection.connectWebSocket (Connection.initial Scenario.t0 true) in
  let n1 :=
    Connection.onclose 1006
      (Connection.set_sockets (<[0%nat := Connection.CLOSED]>
                                 (Connection.sockets n0)) n0) in
  let n2 := Connection.onVisible n1 in
  let n3 :=
    Connection.onopen (Scenario.t0 + 5000)
      (Connection.set_sockets (<[1%nat := Connection.OPEN]>
                                 (Connection.sockets n2)) n2) in
  Connection.reachable n3
  /\ Connection.webSocket n3 = Some Connection.OPEN
  /\ Connection.sockets
       (Connection.reconnectCallback
          (Connection.set_timers (delete 0%nat (Connection.timers n3)) n3))
     = [Connection.CLOSED; Connection.CLOSING; Connection.CONNECTING].
Proof.
  intros n0 n1 n2 n3. split; [|split; [reflexivity|]].
  - eapply Connection.reach_step;
      [eapply Connection.reach_step;
         [eapply Connection.reach_step; [apply Connection.reach_load|]|]|].
    + exact (Connection.step_close 0 Connection.CONNECTING 1006 n0 eq_refl
               ltac:(discriminate)).
    + apply Connection.step_visible.
    + exact (Connection.step_open 1 (Scenario.t0 + 5000) n2 eq_refl).
  - exact (proj1 (proj2 (reconnect_timer_replaces_socket n3 0 60000 eq_refl))).
Defined.

(** ** The timer of the timeline *)

Lemma last_setLastCount (c : Z) (tl : list Timeline.Point)
    (p : Timeline.Point) :
  last tl = Some p ->
  last (Timeline.setLastCount c tl)
  = Some (Timeline.mkPoint (Timeline.p_timestamp p) c (Timeline.p_unit p)).
Proof.
  intros Hlast. destruct (last_Some tl p) as [(l' & ->) _]; [done|].
  unfold Timeline.setLastCount. rewrite length_app. simpl.
  replace (length l' + 1 - 1)%nat with (length l' + 0)%nat by lia.
  rewrite alter_app_r. simpl. by rewrite last_snoc.
Qed.

Lemma last_tail_snoc {A} (l : list A) (x y : A) :
  last l = Some y -> last (tail (l ++ [x])) = Some x.
Proof.
  destruct l as [|a l]; [done|]. intros _. simpl. apply last_snoc.
Qed.

Lemma getAttackCountForInterval_duration (now : Z) (d : Dashboard.State) :
  let duration :=
    Timeline.getDurationForInterval (Dashboard.timelineInterval d) in
  Dashboard.getAttackCountForInterval now d
  = Z.of_nat
      (length
         (List.filter
            (fun attack =>
               match timestamp attack with
               | Some t => (now - 2 * duration <? t) && (t <=? now - duration)
               | None => false
               end)
            (Dashboard.historyEvents d))).
Proof.
  unfold Dashboard.getAttackCountForInterval.
  by destruct (Dashboard.timelineInterval d).
Qed.

Lemma getAttackCountForCurrentInterval_duration (now : Z)
    (d : Dashboard.State) :
  let duration :=
    Timeline.getDurationForInterval (Dashboard.timelineInterval d) in
  Dashboard.getAttackCountForCurrentInterval now d
  = Z.of_nat
      (length
         (List.filter
            (fun attack =>
               match timestamp attack with
               | Some t => Timeline.roundDown duration now <=? t
               | None => false
               end)
            (Dashboard.historyEvents d))).
Proof.
  unfold Dashboard.getAttackCountForCurrentInterval, Timeline.roundDown.
  by destruct (Dashboard.timelineInterval d).
Qed.

(** X23. What the timer [updateTimeline] writes, with its counts taken from
    the history. When a new second, minute or hour has begun, the point it
    appends starts at the beginning of the current unit and carries the
    number of attacks of the history in the step that ended one step
    before now, every one of which is older than the point's own start.
    Otherwise the last point keeps its start and its count becomes the
    number of attacks of the history since the beginning of the current
    unit. *)
Theorem updateTimeline_counts_from_history (now : Z) (d : Dashboard.State)
    (lastDataPoint : Timeline.Point) :
  last (Dashboard.timelineData d) = Some lastDataPoint ->
  let duration :=
    Timeline.getDurationForInterval (Dashboard.timelineInterval d) in
  let counted (lo hi : Z) (attack : Event) : bool :=
    match timestamp attack with
    | Some t => (lo <? t) && (t <=? hi)
    | None => false
    end in
  let since (lo : Z) (attack : Event) : bool :=
    match timestamp attack with
    | Some t => lo <=? t
    | None => false
    end in
  let after := Dashboard.timelineData (Dashboard.updateTimeline now d) in
  (Timeline.p_timestamp lastDataPoint / duration < now / duration ->
   exists p,
     last after = Some p
     /\ Timeline.p_timestamp p = now / duration * duration
     /\ Timeline.p_count p
        = Z.of_nat
            (length (List.filter (counted (now - 2 * duration)
                                    (now - duration))
                       (Dashboard.historyEvents d)))
     /\ forall attack t,
          attack ∈ Dashboard.historyEvents d ->
          timestamp attack = Some t ->
          counted (now - 2 * duration) (now - duration) attack = true ->
          t < Timeline.p_timestamp p)
  /\ (now / duration <= Timeline.p_timestamp lastDataPoint / duration ->
      exists p,
        last after = Some p
        /\ Timeline.p_timestamp p = Timeline.p_timestamp lastDataPoint
        /\ Timeline.p_count p
           = Z.of_nat
               (length (List.filter (since (now / duration * duration))
                          (Dashboard.historyEvents d)))).
Proof.
  intros Hlast duration counted since after.
  pose proof (duration_pos (Dashboard.timelineInterval d)) as Hd.
  fold duration in Hd.
  unfold after, Dashboard.updateTimeline.
  cbn [Dashboard.timelineData Dashboard.set_timelineData].
  unfold Timeline.updateTimeline. rewrite Hlast. fold duration. split.
  - intros Hnew.
    destruct (Z.ltb_spec (Timeline.p_timestamp lastDataPoint / duration)
                (now / duration)); [|lia].
    eexists. split.
    { destruct (_ <? _)%nat.
      - by eapply last_tail_snoc.
      - apply last_snoc. }
    cbn [Timeline.p_timestamp Timeline.p_count]. split; [done|]. split.
    { apply getAttackCountForInterval_duration. }
    intros attack t _ Ht Hc. unfold counted in Hc. rewrite Ht in Hc.
    apply andb_prop in Hc as [_ Hhi]. apply Z.leb_le in Hhi.
    unfold Timeline.roundDown.
    pose proof (Z.mul_succ_div_gt now duration Hd). lia.
  - intros Hsame.
    destruct (Z.ltb_spec (Timeline.p_timestamp lastDataPoint / duration)
                (now / duration)); [lia|].
    pose proof (getAttackCountForCurrentInterval_duration now d) as Hcur.
    cbv zeta in Hcur. fold duration in Hcur. unfold Timeline.roundDown in Hcur.
    destruct (Z.eqb_spec (Dashboard.getAttackCountForCurrentInterval now d)
                (Timeline.p_count lastDataPoint)) as [Heq|Hne].
    + exists lastDataPoint. split; [done|]. split; [done|].
      by rewrite <- Heq, Hcur.
    + eexists. split; [by apply last_setLastCount|].
      cbn [Timeline.p_timestamp Timeline.p_count]. by split.
Qed.

(** The day view set up at [t0]; the timer runs one hour later, after two
    attacks at [t0] and at [t0 + 60000] have come in. *)
Lemma updateTimeline_counts_from_history_witness :
  let d :=
    Dashboard.ingestLive Scenario.utc [Scenario.attack; Scenario.other]
      (Dashboard.initial Scenario.t0 (AttackCache.IndexedDB [])) in
  exists p,
    last (Dashboard.timelineData
            (Dashboard.updateTimeline (Scenario.t0 + 3600000) d)) = Some p
    /\ Timeline.p_timestamp p = 1700002800000
    /\ Timeline.p_count p = 2.
Proof.
  intros d.
  destruct (updateTimeline_counts_from_history (Scenario.t0 + 3600000) d
              (Timeline.mkPoint 1699999200000 2 Timeline.hour) eq_refl)
    as [Hnew _].
  destruct (Hnew ltac:(vm_compute; reflexivity)) as (p & Hp & Ht & Hc & _).
  exists p. split; [exact Hp|]. split; [exact Ht|exact Hc].
Defined.
